(** * Algo-Intent Telegram bot: control plane of [telegram_bot.py]

    A shallow embedding of the sanitizer, the validators, the fallback
    intent parsers, the session store and the per-user conversation state
    machine, and of the language-understanding client of [ai_intent.py],
    with the properties of the design document proved (or refuted) against
    it, and further properties read off the code. *)

From Stdlib Require Import ZArith NArith QArith Lia Ascii String.
From stdpp Require Import base numbers list strings gmap pretty.

Local Open Scope N_scope.

(** ** Text

    A Python [str] is a sequence of Unicode code points. *)

Abbreviation pystr := (list N).

Fixpoint str (s : string) : pystr :=
  match s with
  | EmptyString => []
  | String a s' => N_of_ascii a :: str s'
  end.

(** The dynamically typed values a handler can be handed as "text". *)
Inductive pyval :=
| PyNone
| PyBool (b : bool)
| PyInt (z : Z)
| PyStr (s : pystr).

Definition is_nil {A} (l : list A) : bool :=
  match l with
  | [] => true
  | _ => false
  end.

(** Truth value of an object, as [if] and [not] take it. *)
Definition truthy (v : pyval) : bool :=
  match v with
  | PyNone => false
  | PyBool b => b
  | PyInt z => negb (z =? 0)%Z
  | PyStr s => negb (is_nil s)
  end.

(** Python floats: every finite double is a rational. *)
Inductive pyfloat :=
| Finite (q : Q)
| PosInf
| NegInf
| NaN.

(** [x <= 0] and [x > 1000000] on floats; every comparison with nan is false. *)
Definition float_le_zero (x : pyfloat) : bool :=
  match x with
  | Finite q => Qle_bool q 0
  | NegInf => true
  | PosInf | NaN => false
  end.

Definition float_gt (x : pyfloat) (bound : Z) : bool :=
  match x with
  | Finite q => negb (Qle_bool q (inject_Z bound))
  | PosInf => true
  | NegInf | NaN => false
  end.

Definition in_range (lo hi c : N) : bool := (lo <=? c) && (c <=? hi).

(** ASCII rows of the interpreter's character tables. *)
Definition ascii_isspace (c : N) : bool :=
  in_range 9 13 c || in_range 28 32 c.
Definition ascii_isdigit (c : N) : bool := in_range 48 57 c.
Definition ascii_isupper (c : N) : bool := in_range 65 90 c.
Definition ascii_islower (c : N) : bool := in_range 97 122 c.
Definition ascii_isalpha (c : N) : bool := ascii_isupper c || ascii_islower c.
Definition ascii_tolower (c : N) : N := if ascii_isupper c then c + 32 else c.

(** ** Regular expressions

    The fragment of [re] the bot uses, with the backtracking order of the
    interpreter: alternatives left to right, greedy repetition longest
    first, lazy repetition shortest first. *)

Inductive regex :=
| Chr (p : N → bool)
| Eps
| Seq (r1 r2 : regex)
| Alt (r1 r2 : regex)
| Rep (r : regex) (lo : nat) (hi : option nat) (greedy : bool)
| Grp (name : string) (r : regex)
| Eol.

(** Named groups, most recent first. *)
Abbreviation captures := (list (string * pystr)).
(** A successful match: the unread rest of the subject and the groups. *)
Abbreviation mresult := (pystr * captures)%type.
Abbreviation cont := (pystr → captures → option mresult).

Definition below (n : nat) (hi : option nat) : bool :=
  match hi with
  | None => true
  | Some h => (n <? h)%nat
  end.

(** One repetition loop. [n] counts the iterations done; an iteration that
    reads nothing ends the loop, so [fuel = length s] iterations suffice. *)
Fixpoint rep_loop (body : pystr → captures → cont → option mresult)
    (lo : nat) (hi : option nat) (greedy : bool) (k : cont)
    (fuel n : nat) (s : pystr) (cs : captures) : option mresult :=
  let more :=
    match fuel with
    | O => None
    | S fuel' =>
        if below n hi then
          body s cs (λ s' cs',
            if (length s' <? length s)%nat
            then rep_loop body lo hi greedy k fuel' (S n) s' cs'
            else None)
        else None
    end in
  let stop := if (lo <=? n)%nat then k s cs else None in
  if greedy
  then match more with Some x => Some x | None => stop end
  else match stop with Some x => Some x | None => more end.

Fixpoint rmatch (r : regex) (s : pystr) (cs : captures) (k : cont)
    : option mresult :=
  match r with
  | Chr p =>
      match s with
      | c :: s' => if p c then k s' cs else None
      | [] => None
      end
  | Eps => k s cs
  | Seq r1 r2 => rmatch r1 s cs (λ s' cs', rmatch r2 s' cs' k)
  | Alt r1 r2 =>
      match rmatch r1 s cs k with
      | Some x => Some x
      | None => rmatch r2 s cs k
      end
  | Rep r' lo hi greedy => rep_loop (rmatch r') lo hi greedy k (length s) 0 s cs
  | Grp name r' =>
      rmatch r' s cs
        (λ s' cs', k s' ((name, take (length s - length s') s) :: cs'))
  | Eol =>
      match s with
      | [] => k s cs
      | [10] => k s cs
      | _ => None
      end
  end.

Definition accept : cont := λ s cs, Some (s, cs).

(** [pattern.match]: anchored at the start of the subject. *)
Definition re_match (r : regex) (s : pystr) : option mresult :=
  rmatch r s [] accept.

(** [re.search]: the leftmost position with a match. None of the patterns
    looks behind the position it starts at, so the suffix is enough. *)
Fixpoint re_search (r : regex) (s : pystr) : option mresult :=
  match re_match r s with
  | Some x => Some x
  | None =>
      match s with
      | [] => None
      | _ :: s' => re_search r s'
      end
  end.

(** [re.sub(pattern, '', s)]: every leftmost non-overlapping match is
    deleted. An empty match deletes nothing and the scan moves on by one
    character. *)
Fixpoint sub_loop (r : regex) (fuel : nat) (s : pystr) : pystr :=
  match fuel, s with
  | _, [] => []
  | O, _ => s
  | S fuel', c :: s' =>
      match re_match r s with
      | Some (rest, _) =>
          if (length rest <? length s)%nat
          then sub_loop r fuel' rest
          else c :: sub_loop r fuel' s'
      | None => c :: sub_loop r fuel' s'
      end
  end.

Definition re_sub_empty (r : regex) (s : pystr) : pystr :=
  sub_loop r (length s) s.

(** [match.group(name)]; [None] for a group that took no part in the match. *)
Fixpoint group (name : string) (cs : captures) : option pystr :=
  match cs with
  | [] => None
  | (n, v) :: cs' => if String.eqb n name then Some v else group name cs'
  end.

Definition seq_of (rs : list regex) : regex := foldr Seq Eps rs.

Fixpoint drop_while (p : N → bool) (s : pystr) : pystr :=
  match s with
  | [] => []
  | c :: s' => if p c then drop_while p s' else s
  end.

(** ** Configuration *)

Definition SESSIONS_FILE : string := "telegram_sessions.json".
Definition MAX_MESSAGE_LENGTH : nat := 1000.
Definition MAX_PASSWORD_ATTEMPTS : Z := 3.
Definition SESSION_TIMEOUT_HOURS : Z := 24.
Definition MAX_TRANSACTIONS_PER_HOUR : nat := 10.

(** ** Data model *)

(** A record of the session store. Time stamps are kept as the clock
    reading (microseconds) that [isoformat] rendered; [fromisoformat]
    gives the reading back. *)
Record Session := {
  address : string;
  encrypted_mnemonic : string;
  created_at : option Z;
  connected_at : option Z;
  last_activity : option Z;
  recent_transactions : option (list Z)
}.

Definition set_last_activity (t : Z) (s : Session) : Session :=
  {| address := address s; encrypted_mnemonic := encrypted_mnemonic s;
     created_at := created_at s; connected_at := connected_at s;
     last_activity := Some t;
     recent_transactions := recent_transactions s |}.

Definition set_recent_transactions (l : list Z) (s : Session) : Session :=
  {| address := address s; encrypted_mnemonic := encrypted_mnemonic s;
     created_at := created_at s; connected_at := connected_at s;
     last_activity := last_activity s;
     recent_transactions := Some l |}.

(** What a file holds, as far as the handlers go: the JSON object of
    sessions that [save_sessions] writes, or text that is no JSON, which
    [json.load] turns down with [JSONDecodeError]. Bytes that are no text
    and JSON values that are no object are told apart in [Disk] below,
    where [load_sessions] is followed exception by exception. *)
Inductive FileContent :=
| JsonSessions (m : gmap string Session)
| Corrupt (raw : string).

(** The process's surroundings: the files of the working directory and the
    wall clock, [clock w n] being the [n]-th reading taken. *)
Record World := {
  files : gmap string FileContent;
  clock : nat → Z;
  reads : nat
}.

(** Handles of the wallet and ledger collaborators. *)
Inductive Txn := UnsignedTxn (payload : string).
Inductive SignedTxn := Signed (payload : string).

Record WalletData := {
  wd_address : string;
  wd_encrypted_mnemonic : string;
  wd_mnemonic : string
}.

(** [context.user_data], one dictionary per user; [None] is an absent key. *)
Record UserData := {
  state : option string;
  failed_attempts : option Z;
  pending_txn : option Txn;
  transaction_type : option string;
  mnemonic : option pystr
}.

Definition user_data_empty : UserData :=
  {| state := None; failed_attempts := None; pending_txn := None;
     transaction_type := None; mnemonic := None |}.

Definition set_state (v : string) (u : UserData) : UserData :=
  {| state := Some v; failed_attempts := failed_attempts u;
     pending_txn := pending_txn u; transaction_type := transaction_type u;
     mnemonic := mnemonic u |}.
Definition set_failed_attempts (v : Z) (u : UserData) : UserData :=
  {| state := state u; failed_attempts := Some v;
     pending_txn := pending_txn u; transaction_type := transaction_type u;
     mnemonic := mnemonic u |}.
Definition set_pending_txn (v : Txn) (u : UserData) : UserData :=
  {| state := state u; failed_attempts := failed_attempts u;
     pending_txn := Some v; transaction_type := transaction_type u;
     mnemonic := mnemonic u |}.
Definition set_transaction_type (v : string) (u : UserData) : UserData :=
  {| state := state u; failed_attempts := failed_attempts u;
     pending_txn := pending_txn u; transaction_type := Some v;
     mnemonic := mnemonic u |}.
Definition set_mnemonic (v : pystr) (u : UserData) : UserData :=
  {| state := state u; failed_attempts := failed_attempts u;
     pending_txn := pending_txn u; transaction_type := transaction_type u;
     mnemonic := Some v |}.

(** A resolved intent: [{'intent': ..., 'parameters': {...}}]. A missing
    ['parameters'] and an empty one read the same through [.get]. *)
Record Params := {
  p_amount : option pyfloat;
  p_recipient : option pyval;
  p_name : option pyval;
  p_supply : option Z;
  p_description : option pyval
}.

Definition no_params : Params :=
  {| p_amount := None; p_recipient := None; p_name := None;
     p_supply := None; p_description := None |}.

Record Parsed := {
  intent : string;
  parameters : Params
}.

(** Results of the ledger collaborator; [None] is a key the result lacks. *)
Inductive BuildResult :=
| AwaitingApproval (unsigned_txn : option Txn)
| Completed (txid : option string) (message : option string).

Inductive NftResult :=
| NftAwaitingApproval (unsigned_txn : option Txn)
| NftAssetId (asset : string).

(** The collaborators as they answer during one message; [None] is a
    raised exception. *)
Record Collab := {
  ai_parse : pystr → option Parsed;
  create_wallet : pystr → option WalletData;
  connect_wallet : option pystr → pystr → option WalletData;
  sign_transaction : Txn → pystr → option SignedTxn;
  get_algod_client : option unit;
  send_transaction : SignedTxn → option string;
  wait_for_confirmation : string → option string;
  build_and_send_transaction : string → pyval → pyfloat → option BuildResult;
  generate_unit_name : pystr → option string;
  create_nft : pystr → string → Z → pystr → string → option NftResult;
  account_info : string → option Z
}.

Inductive Collaborator :=
| LanguageUnderstanding
| WalletCreate
| WalletConnect
| WalletSign
| LedgerClient
| LedgerSubmit
| LedgerWaitConfirmation
| LedgerBuildTransaction
| LedgerCreateNft
| LedgerAccountInfo.

(** The texts sent with [reply_text], one constructor per message. *)
Inductive Reply :=
| InvalidInput
| TooQuickly
| NotUnderstood
| CreatingWalletPrompt
| ConnectingWalletPrompt
| UnsupportedAction
| ErrorOccurred
| TooManyFailedAttempts
| InvalidState
| PasswordTooShort
| PasswordNeedsLettersAndNumbers
| WalletCreated (addr mnemonic : string)
| WalletCreationFailed
| ConnectWalletFirst
| TransactionRateLimitExceeded
| MissingTransactionDetails
| InvalidRecipientFormat
| InvalidAmount
| TransactionConfirmationRequired (amount : pyfloat) (recipient : pyval)
| TransactionCompleted (message : string)
| TransactionFailed
| NoPendingTransaction
| NftCreatedSuccessfully (asset txid : string)
| TransactionSuccessful (txid : string)
| TooManyFailedPasswordAttempts
| IncorrectPassword (remaining : Z)
| MissingNftName
| NftNameLength
| NftCreationConfirmation (name : pystr)
| NftCreated (asset : string)
| NftCreationFailed
| WalletBalance (microalgos : Z)
| BalanceCheckFailed
| WalletDisconnected
| InvalidMnemonic
| SetPasswordPrompt
| WalletConnected (addr : string)
| WalletConnectionFailed.

(** The replies that open with the cross mark. *)
Definition is_error (r : Reply) : bool :=
  match r with
  | CreatingWalletPrompt | ConnectingWalletPrompt | WalletCreated _ _
  | TransactionConfirmationRequired _ _ | TransactionCompleted _
  | NftCreatedSuccessfully _ _ | TransactionSuccessful _
  | NftCreationConfirmation _ | NftCreated _ | WalletBalance _
  | WalletDisconnected | SetPasswordPrompt | WalletConnected _
  | TooQuickly | TransactionRateLimitExceeded => false
  | _ => true
  end.

(** What one handler run does that the outside can see. *)
Inductive Event :=
| Replied (r : Reply)
| Security (event_type : string)
| Called (c : Collaborator).

(** ** Handler monad

    State threaded through a handler; [None] as a result is an exception on
    its way up, with the state as it was when raised. *)
Record St := {
  world : World;
  user_data : UserData;
  trace : list Event
}.

Definition M (A : Type) : Type := St → option A * St.

Definition ret {A} (a : A) : M A := λ st, (Some a, st).
Definition bind {A B} (m : M A) (f : A → M B) : M B :=
  λ st, match m st with
        | (Some a, st') => f a st'
        | (None, st') => (None, st')
        end.
Definition raise {A} : M A := λ st, (None, st).
Definition try_except {A} (body handler : M A) : M A :=
  λ st, match body st with
        | (Some a, st') => (Some a, st')
        | (None, st') => handler st'
        end.

Notation "'let!' x ':=' m 'in' k" := (bind m (λ x, k))
  (at level 10, x name, m at level 100, k at level 200,
   format "'[v' 'let!'  x  :=  m  'in' '/' k ']'").
Notation "m ;; k" := (bind m (λ _, k))
  (at level 100, k at level 200, right associativity,
   format "'[v' m  ;; '/' k ']'").

Definition with_world (f : World → World) : M unit :=
  λ st, (Some (), {| world := f (world st); user_data := user_data st;
                      trace := trace st |}).
Definition get_world : M World := λ st, (Some (world st), st).
Definition get_user_data : M UserData := λ st, (Some (user_data st), st).
Definition with_user_data (f : UserData → UserData) : M unit :=
  λ st, (Some (), {| world := world st; user_data := f (user_data st);
                      trace := trace st |}).
Definition emit (e : Event) : M unit :=
  λ st, (Some (), {| world := world st; user_data := user_data st;
                      trace := trace st ++ [e] |}).

Definition reply_text (r : Reply) : M unit := emit (Replied r).
Definition log_security_event (event_type : string) : M unit :=
  emit (Security event_type).
Definition user_data_clear : M unit := with_user_data (λ _, user_data_empty).

(** A collaborator call: recorded, then its answer or its exception. *)
Definition call {A} (c : Collaborator) (answer : option A) : M A :=
  emit (Called c) ;;
  match answer with
  | Some a => ret a
  | None => raise
  end.

(** A dictionary subscript or any other step that raises on [None]. *)
Definition get_or_raise {A} (o : option A) : M A :=
  match o with
  | Some a => ret a
  | None => raise
  end.

(** ** Clock and files *)

Definition microseconds_per_second : Z := 1000000.
Definition hours (n : Z) : Z := n * 3600 * microseconds_per_second.

(** [datetime.now()] *)
Definition datetime_now : M Z :=
  λ st, let w := world st in
        (Some (clock w (reads w)),
         {| world := {| files := files w; clock := clock w;
                        reads := S (reads w) |};
            user_data := user_data st; trace := trace st |}).

(** [int(time.time())] *)
Definition time_time : M Z :=
  let! t := datetime_now in ret (Z.quot t microseconds_per_second).

Definition os_path_exists (name : string) : M bool :=
  let! w := get_world in ret (bool_decide (is_Some (files w !! name))).

(** [os.rename] and [os.replace] over an existing target, as on POSIX. *)
Definition os_rename (src dst : string) : M unit :=
  let! w := get_world in
  match files w !! src with
  | Some c =>
      with_world (λ w, {| files := <[dst := c]> (delete src (files w));
                          clock := clock w; reads := reads w |})
  | None => raise
  end.

(** [json.load] on these contents: the object, or [JSONDecodeError]. *)
Definition json_load (name : string) : M (gmap string Session) :=
  let! w := get_world in
  match files w !! name with
  | Some (JsonSessions m) => ret m
  | _ => raise
  end.

Definition json_dump (sessions : gmap string Session) (name : string) : M unit :=
  with_world (λ w, {| files := <[name := JsonSessions sessions]> (files w);
                      clock := clock w; reads := reads w |}).

Definition user_key (user_id : Z) : string := pretty user_id.

(** ** Session store *)

Definition backup_name (t : Z) : string :=
  SESSIONS_FILE +:+ ".backup." +:+ pretty t.

(** On these contents the one exception of the [try] block is the
    [JSONDecodeError] that its [except] clause names. *)
Definition load_sessions : M (gmap string Session) :=
  let! loaded :=
    try_except
      (let! present := os_path_exists SESSIONS_FILE in
       if present
       then let! m := json_load SESSIONS_FILE in ret (Some m)
       else ret None)
      (let! present := os_path_exists SESSIONS_FILE in
       (if present
        then let! t := time_time in os_rename SESSIONS_FILE (backup_name t)
        else ret ()) ;;
       ret None) in
  ret (default ∅ loaded).

Definition save_sessions (sessions : gmap string Session) : M unit :=
  try_except
    (let temp_file := SESSIONS_FILE +:+ ".tmp" in
     json_dump sessions temp_file ;;
     os_rename temp_file SESSIONS_FILE)
    (ret ()).

(** ** Rate and session policy *)

Definition check_user_rate_limit (user_id : Z) (action_type : string) : M bool :=
  let! sessions := load_sessions in
  let user_key := user_key user_id in
  let! current_time := datetime_now in
  match sessions !! user_key with
  | None => ret true
  | Some user_session =>
      if String.eqb action_type "transaction" then
        let recent := default [] (recent_transactions user_session) in
        let recent :=
          List.filter (λ tx_time, (current_time - hours 1 <? tx_time)%Z) recent in
        if (MAX_TRANSACTIONS_PER_HOUR <=? length recent)%nat then
          log_security_event "RATE_LIMIT_EXCEEDED" ;;
          ret false
        else
          let recent := recent ++ [current_time] in
          let user_session := set_recent_transactions recent user_session in
          save_sessions (<[user_key := user_session]> sessions) ;;
          ret true
      else ret true
  end.

Definition validate_session (user_id : Z) : M bool :=
  let! sessions := load_sessions in
  let user_key := user_key user_id in
  match sessions !! user_key with
  | None => ret false
  | Some user_session =>
      let! expired :=
        match last_activity user_session with
        | Some stamp =>
            let! now := datetime_now in
            ret (hours SESSION_TIMEOUT_HOURS <? now - stamp)%Z
        | None => ret false
        end in
      if (expired : bool) then
        log_security_event "SESSION_EXPIRED" ;;
        save_sessions (delete user_key sessions) ;;
        ret false
      else
        let! now := datetime_now in
        let user_session := set_last_activity now user_session in
        save_sessions (<[user_key := user_session]> sessions) ;;
        ret true
  end.

(** ** The store file, byte by byte

    [FileContent] above tells apart what the handlers write and what they
    recover from. What [load_sessions] does with any file at all depends
    on two more steps of the interpreter, which this module keeps apart:
    decoding the bytes to text as [open(name, 'r')] does, and decoding the
    text to a value as [json.load] does. *)

Module Disk.

(** What [json.load] returns: an object of session records as the store
    is written, or any other JSON value, handed back as it is. *)
#[warnings="-register-all"]
Inductive Json :=
| JObject (m : gmap string Session)
| JNull
| JBool (b : bool)
| JNumber (z : Z)
| JString (s : pystr)
| JArray (l : list Json).

(** The two decoders: [decode] for the encoding [open] reads text in
    ([None] is [UnicodeDecodeError]), [json_loads] for the JSON grammar
    ([None] is [json.JSONDecodeError]). *)
Record Codec := {
  decode : list N → option pystr;
  json_loads : pystr → option Json
}.

Inductive Exception :=
| UnicodeDecodeError
| JSONDecodeError
| FileNotFoundError.

(** [except (json.JSONDecodeError, IOError)]. [IOError] is [OSError], of
    which [FileNotFoundError] is a subclass; [UnicodeDecodeError] is a
    [ValueError], as [JSONDecodeError] is, and neither is the other. *)
Definition json_or_io (e : Exception) : bool :=
  match e with
  | JSONDecodeError | FileNotFoundError => true
  | UnicodeDecodeError => false
  end.

(** The files as the bytes they hold, and the wall clock. *)
Record World := {
  files : gmap string (list N);
  clock : nat → Z;
  reads : nat
}.

(** A computation over the files; [inl e] is the exception [e] on its way
    up. *)
Definition M (A : Type) : Type := World → (Exception + A) * World.

Definition ret {A} (a : A) : M A := λ w, (inr a, w).
Definition bind {A B} (m : M A) (f : A → M B) : M B :=
  λ w, match m w with
       | (inr a, w') => f a w'
       | (inl e, w') => (inl e, w')
       end.
Definition raise {A} (e : Exception) : M A := λ w, (inl e, w).
(** [try: body except catches: handler] *)
Definition try_except {A} (body : M A) (catches : Exception → bool)
    (handler : M A) : M A :=
  λ w, match body w with
       | (inr a, w') => (inr a, w')
       | (inl e, w') => if catches e then handler w' else (inl e, w')
       end.

#[local, warnings="-notation-overridden"]
Notation "'let!' x ':=' m 'in' k" := (bind m (λ x, k))
  (at level 10, x name, m at level 100, k at level 200).
#[local, warnings="-notation-overridden"]
Notation "m ;; k" := (bind m (λ _, k))
  (at level 100, k at level 200, right associativity).

Definition os_path_exists (name : string) : M bool :=
  λ w, (inr (bool_decide (is_Some (files w !! name))), w).

(** [int(time.time())] *)
Definition time_time : M Z :=
  λ w, (inr (Z.quot (clock w (reads w)) microseconds_per_second),
        {| files := files w; clock := clock w; reads := S (reads w) |}).

Definition os_rename (src dst : string) : M unit :=
  λ w, match files w !! src with
       | Some bytes =>
           (inr (), {| files := <[dst := bytes]> (delete src (files w));
                       clock := clock w; reads := reads w |})
       | None => (inl FileNotFoundError, w)
       end.

(** [open(name, 'r')] and the [f.read()] inside [json.load]. *)
Definition read_text (codec : Codec) (name : string) : M pystr :=
  λ w, match files w !! name with
       | Some bytes =>
           match decode codec bytes with
           | Some text => (inr text, w)
           | None => (inl UnicodeDecodeError, w)
           end
       | None => (inl FileNotFoundError, w)
       end.

Definition json_load (codec : Codec) (name : string) : M Json :=
  let! text := read_text codec name in
  match json_loads codec text with
  | Some v => ret v
  | None => raise JSONDecodeError
  end.

(** [load_sessions], with the exceptions by name. The value is what the
    [return] inside the [try] gives, else the [{}] of the last line. *)
Definition load_sessions (codec : Codec) : M Json :=
  let! returned :=
    try_except
      (let! present := os_path_exists SESSIONS_FILE in
       if present
       then let! v := json_load codec SESSIONS_FILE in ret (Some v)
       else ret None)
      json_or_io
      (let! present := os_path_exists SESSIONS_FILE in
       (if present
        then let! t := time_time in os_rename SESSIONS_FILE (backup_name t)
        else ret ()) ;;
       ret None) in
  ret (default (JObject ∅) returned).

End Disk.

(** ** The language-understanding client of [ai_intent.py] *)

(** [str.find(c)] and [str.rfind(c)] for a one-character needle: the index
    of the first and of the last occurrence, [-1] when there is none. *)
Fixpoint find_from (c : N) (s : pystr) (i : Z) : Z :=
  match s with
  | [] => (-1)%Z
  | d :: s' => if d =? c then i else find_from c s' (i + 1)%Z
  end.

Definition py_find (c : N) (s : pystr) : Z := find_from c s 0%Z.

Fixpoint rfind_from (c : N) (s : pystr) (i last : Z) : Z :=
  match s with
  | [] => last
  | d :: s' => rfind_from c s' (i + 1)%Z (if d =? c then i else last)
  end.

Definition py_rfind (c : N) (s : pystr) : Z := rfind_from c s 0%Z (-1)%Z.

(** [s[start:stop]]: a negative bound counts from the end, and both are
    clipped to the string. *)
Definition slice_bound (len i : Z) : Z :=
  if (i <? 0)%Z then Z.max 0 (len + i) else Z.min i len.

Definition py_slice (s : pystr) (start stop : Z) : pystr :=
  let len := Z.of_nat (length s) in
  let lo := slice_bound len start in
  let hi := slice_bound len stop in
  take (Z.to_nat (hi - lo)) (drop (Z.to_nat lo) s).

(** What the client has around it: the key in the environment, the chat
    completion service ([None] is any exception of the call; the content of
    the first choice may be [None] or a string), and [json.loads] on texts
    that do not fail at their first character. The decoded object is read
    as the dictionary the bot expects. *)
Record Service := {
  api_key : option string;
  chat_completion : pystr → option pyval;
  json_decode : pystr → option Parsed
}.

Module AIIntentParser.

(** [__init__]: [ValueError] without a key. *)
Definition init (svc : Service) : option unit :=
  match api_key svc with
  | Some key => if String.eqb key "" then None else Some ()
  | None => None
  end.

(** [json.loads]: no JSON text is empty or begins with the closing brace;
    on any other text the decoder answers. *)
Definition json_loads (svc : Service) (s : pystr) : option Parsed :=
  match s with
  | [] => None
  | c :: _ => if c =? 125 then None else json_decode svc s
  end.

Definition unknown : Parsed := {| intent := "unknown"; parameters := no_params |}.

(** The text between the first opening and the last closing brace. *)
Definition json_text (text : pystr) : pystr :=
  let start := py_find 123 text in
  let stop := (py_rfind 125 text + 1)%Z in
  py_slice text start stop.

Definition _extract_json (svc : Service) (text : pyval) : Parsed :=
  match text with
  | PyStr text => default unknown (json_loads svc (json_text text))
  | _ => unknown
  end.

Definition parse (svc : Service) (user_input : pystr) : option Parsed :=
  match chat_completion svc user_input with
  | Some content => Some (_extract_json svc content)
  | None => None
  end.

End AIIntentParser.

(** Lines 295-300 of the bot: what [parsed] holds after the client was
    built and asked. *)
Definition ai_answer (svc : Service) (user_input : pystr) : option Parsed :=
  match AIIntentParser.init svc with
  | Some _ => AIIntentParser.parse svc user_input
  | None => None
  end.

(** The collaborators with the language understanding done by the client
    over [svc]. *)
Definition with_client (svc : Service) (env : Collab) : Collab :=
  {| ai_parse := ai_answer svc;
     create_wallet := create_wallet env;
     connect_wallet := connect_wallet env;
     sign_transaction := sign_transaction env;
     get_algod_client := get_algod_client env;
     send_transaction := send_transaction env;
     wait_for_confirmation := wait_for_confirmation env;
     build_and_send_transaction := build_and_send_transaction env;
     generate_unit_name := generate_unit_name env;
     create_nft := create_nft env;
     account_info := account_info env |}.
(** What the interpreter and the helper module bring along and the source
    does not show: the rows of the Unicode character database beyond ASCII
    (the tables behind [str.isspace], decimal digits, alphanumerics and the
    simple lower-case mapping), [float(s)] outside the plain ASCII integers
    (fractions, exponents, [inf], [nan], other scripts' digits; [None] is
    [ValueError]), and [utils.text_to_number], the spelled-out-number
    converter. *)
Record Interpreter := {
  ucd_isspace : N → bool;
  ucd_isdecimal : N → bool;
  ucd_isalnum : N → bool;
  ucd_tolower : N → N;
  float_of_text : pystr → option pyfloat;
  text_to_number : pystr → option pyfloat
}.

(** Concrete surroundings for worked runs. *)
Module Sample.

(** An interpreter whose tables hold nothing beyond ASCII. *)
Definition ascii_only : Interpreter :=
  {| ucd_isspace := λ _, false; ucd_isdecimal := λ _, false;
     ucd_isalnum := λ _, false; ucd_tolower := λ c, c;
     float_of_text := λ _, None; text_to_number := λ _, None |}.

(** Every collaborator out of reach. *)
Definition offline : Collab :=
  {| ai_parse := λ _, None; create_wallet := λ _, None;
     connect_wallet := λ _ _, None; sign_transaction := λ _ _, None;
     get_algod_client := None; send_transaction := λ _, None;
     wait_for_confirmation := λ _, None;
     build_and_send_transaction := λ _ _ _, None;
     generate_unit_name := λ _, None; create_nft := λ _ _ _ _ _, None;
     account_info := λ _, None |}.

(** The language-understanding collaborator answers [parsed]; the ledger
    builds transactions that await approval. *)
Definition understanding (parsed : Parsed) : Collab :=
  {| ai_parse := λ _, Some parsed; create_wallet := λ _, None;
     connect_wallet := λ _ _, None; sign_transaction := λ _ _, None;
     get_algod_client := Some ();
     send_transaction := λ _, None; wait_for_confirmation := λ _, None;
     build_and_send_transaction :=
       λ _ _ _, Some (AwaitingApproval (Some (UnsignedTxn "unsigned-1")));
     generate_unit_name := λ _, None; create_nft := λ _ _ _ _ _, None;
     account_info := λ _, None |}.

(** The wallet signs and creates, the ledger accepts and confirms. *)
Definition accepting : Collab :=
  {| ai_parse := λ _, None;
     create_wallet :=
       λ _, Some {| wd_address := "ADDR"; wd_encrypted_mnemonic := "enc";
                    wd_mnemonic := "words" |};
     connect_wallet := λ _ _, None;
     sign_transaction := λ _ _, Some (Signed "signed-1");
     get_algod_client := Some ();
     send_transaction := λ _, Some "TX1"%string;
     wait_for_confirmation := λ _, Some "7"%string;
     build_and_send_transaction := λ _ _ _, None;
     generate_unit_name := λ _, None; create_nft := λ _ _ _ _ _, None;
     account_info := λ _, None |}.

Definition user : Z := 42.

(** One reading a second. *)
Definition ticking (n : nat) : Z :=
  1700000000000000 + Z.of_nat n * 1000000.

Definition world_of (f : gmap string FileContent) (taken : nat) : World :=
  {| files := f; clock := ticking; reads := taken |}.

Definition started (w : World) : St :=
  {| world := w; user_data := user_data_empty; trace := [] |}.

Definition no_store : St := started (world_of ∅ 0).

Definition corrupt_store : St :=
  started (world_of {[ SESSIONS_FILE := Corrupt "{oops" ]} 0).

Definition session_with (stamps : list Z) : Session :=
  {| address := "ADDR"; encrypted_mnemonic := "enc";
     created_at := Some (ticking 0); connected_at := None;
     last_activity := Some (ticking 0);
     recent_transactions := Some stamps |}.

Definition sessions_with (stamps : list Z) : gmap string Session :=
  {[ user_key user := session_with stamps ]}.

Definition store_with (stamps : list Z) : St :=
  started
    (world_of {[ SESSIONS_FILE := JsonSessions (sessions_with stamps) ]} 20).

(** Readings one to ten: ten transactions in the last twenty seconds. *)
Definition ten_recent : list Z := ticking <$> seq 1 10.
(** The same, but for the first, which is two hours old. *)
Definition nine_recent : list Z := ticking <$> seq 2 9.
Definition stale : Z := ticking 0 - 2 * 3600 * 1000000.

Definition in_state (name : string) : St :=
  {| world := world_of ∅ 0; user_data := set_state name user_data_empty;
     trace := [] |}.

Definition confirming (kind : string) : St :=
  {| world := world_of ∅ 0;
     user_data :=
       {| state := Some "transaction_password";
          failed_attempts := None;
          pending_txn := Some (UnsignedTxn "unsigned-1");
          transaction_type := Some kind; mnemonic := None |};
     trace := [] |}.

Definition valid_address : pystr :=
  str "AAAAAAAAAAAAAAAAAAAAAAAAAAAAAAAAAAAAAAAAAAAAAAAAAAAA234567".

(** Twenty-five hours after the session's last activity. *)
Definition idle_for_a_day : St :=
  started
    {| files := {[ SESSIONS_FILE := JsonSessions (sessions_with []) ]};
       clock := λ n, (ticking n + 25 * 3600 * 1000000)%Z;
       reads := 0 |}.

(** Three failures on the count while a password is awaited. *)
Definition locked_out : St :=
  {| world := world_of ∅ 0;
     user_data :=
       {| state := Some "transaction_password";
          failed_attempts := Some 3%Z;
          pending_txn := Some (UnsignedTxn "unsigned-1");
          transaction_type := Some "send"; mnemonic := None |};
     trace := [] |}.

(** Twenty-five words. *)
Definition mnemonic_text : pystr :=
  str "a b c d e f g h i j k l m n o p q r s t u v w x y".

(** The language-understanding collaborator resolves every message to
    [name], with no parameters. *)
Definition resolving (name : string) : Collab :=
  understanding {| intent := name; parameters := no_params |}.

(** A token request and what the token fallback reads in it. *)
Definition nft_request : pystr := str "create nft named Dragon".

Definition dragon : Parsed :=
  {| intent := "create_nft";
     parameters :=
       {| p_amount := None; p_recipient := None;
          p_name := Some (PyStr (str "Dragon")); p_supply := Some 1%Z;
          p_description := Some (PyStr []) |} |}.

(** The wallet connects whatever it is handed. *)
Definition connecting : Collab :=
  {| ai_parse := λ _, None; create_wallet := λ _, None;
     connect_wallet :=
       λ _ _, Some {| wd_address := "ADDR"; wd_encrypted_mnemonic := "enc";
                      wd_mnemonic := "words" |};
     sign_transaction := λ _ _, None;
     get_algod_client := None; send_transaction := λ _, None;
     wait_for_confirmation := λ _, None;
     build_and_send_transaction := λ _ _ _, None;
     generate_unit_name := λ _, None; create_nft := λ _ _ _ _ _, None;
     account_info := λ _, None |}.

(** A transfer request without a recipient the validator accepts. *)
Definition to_nobody : Params :=
  {| p_amount := Some (Finite 5); p_recipient := Some (PyStr (str "short"));
     p_name := None; p_supply := None; p_description := None |}.


(** A client without a key, and one whose model wraps its answer in
    prose. *)
Definition no_key : Service :=
  {| api_key := None; chat_completion := λ _, None;
     json_decode := λ _, None |}.

Definition chatty : Service :=
  {| api_key := Some "key"%string;
     chat_completion := λ _, Some (PyStr (str "Sure: {intent balance} done"));
     json_decode :=
       λ _, Some {| intent := "balance"; parameters := no_params |} |}.

(** The decoders of a seven-bit locale, on the handful of texts of the
    worked runs: ASCII bytes are the text they spell, any other byte is a
    decoding error; of JSON the decoder knows [{}], [null] and [5]. *)
Definition seven_bit (bytes : list N) : option pystr :=
  if forallb (λ b, b <? 128) bytes then Some bytes else None.

Definition few_values (text : pystr) : option Disk.Json :=
  if bool_decide (text = str "{}") then Some (Disk.JObject ∅)
  else if bool_decide (text = str "null") then Some Disk.JNull
  else if bool_decide (text = str "5") then Some (Disk.JNumber 5)
  else None.

Definition codec : Disk.Codec :=
  {| Disk.decode := seven_bit; Disk.json_loads := few_values |}.



End Sample.

Section Bot.

Variable py : Interpreter.

Definition py_isspace (c : N) : bool :=
  if c <? 128 then ascii_isspace c else ucd_isspace py c.
Definition py_isdecimal (c : N) : bool :=
  if c <? 128 then ascii_isdigit c else ucd_isdecimal py c.
Definition py_isalnum (c : N) : bool :=
  if c <? 128 then ascii_isalpha c || ascii_isdigit c else ucd_isalnum py c.
Definition py_tolower (c : N) : N :=
  if c <? 128 then ascii_tolower c else ucd_tolower py c.

(** [\s], [\d], [\w] on [str] patterns. *)
Definition cat_space : N → bool := py_isspace.
Definition cat_digit : N → bool := py_isdecimal.
Definition cat_word (c : N) : bool := py_isalnum c || (c =? 95).

(** A pattern letter under [IGNORECASE]: the subject character is
    lower-cased and compared with the lower-cased letter and with its
    case-insensitive equivalents, dotless i for [i] and long s for [s].
    Characters without case compare as they are. *)
Definition case_equiv (lo l : N) : bool :=
  ((lo =? 105) && (l =? 305)) || ((lo =? 115) && (l =? 383)).

Definition lit_ci (p : N) (c : N) : bool :=
  if ascii_isalpha p
  then let lo := ascii_tolower p in
       let l := py_tolower c in
       (l =? lo) || case_equiv lo l
  else c =? p.

Definition word_ci (w : string) : regex := seq_of (Chr ∘ lit_ci <$> str w).

Definition space1 : regex := Rep (Chr cat_space) 1 None true.
Definition opt (r : regex) : regex := Rep r 0 (Some 1%nat) true.

(** ** Sanitizer *)

(** [[\x00-\x1f\x7f-\x9f]] *)
Definition is_control (c : N) : bool := in_range 0 31 c || in_range 127 159 c.

(** [.] without [DOTALL] *)
Definition not_newline (c : N) : bool := negb (c =? 10).

Definition dangerous_patterns : list regex :=
  [ (* <script.*?</script> *)
    seq_of [word_ci "<script"; Rep (Chr not_newline) 0 None false;
            word_ci "</script>"];
    word_ci "javascript:";
    word_ci "data:";
    word_ci "vbscript:";
    word_ci "onload=";
    word_ci "onerror=";
    word_ci "eval(";
    word_ci "exec(" ].

Definition lstrip (s : pystr) : pystr := drop_while py_isspace s.
Definition rstrip (s : pystr) : pystr := rev (drop_while py_isspace (rev s)).
Definition strip (s : pystr) : pystr := rstrip (lstrip s).

Definition sanitize_input (text : pyval) : pystr :=
  match text with
  | PyStr [] => []
  | PyStr s =>
      let sanitized := re_sub_empty (Chr is_control) s in
      let sanitized := take MAX_MESSAGE_LENGTH sanitized in
      let sanitized :=
        foldl (λ acc pattern, re_sub_empty pattern acc) sanitized
              dangerous_patterns in
      strip sanitized
  | _ => []
  end.

(** ** Address validator

    [re.match] starts at the beginning of the subject, where the pattern's
    leading [^] holds; the trailing [$] is [Eol]. *)

(** [[A-Z2-7]] *)
Definition is_base32 (c : N) : bool := ascii_isupper c || in_range 50 55 c.

Definition validate_algorand_address (address : pyval) : bool :=
  match address with
  | PyStr [] => false
  | PyStr a =>
      if negb (length a =? 58)%nat then false
      else match re_match (Seq (Rep (Chr is_base32) 58 (Some 58%nat) true) Eol) a with
           | Some _ => true
           | None => false
           end
  | _ => false
  end.


(** ** Fallback parsers *)

(** [(create|mint|make)], [(send|transfer|pay)] *)
Definition verbs (a b c : string) : regex :=
  Grp "1" (Alt (word_ci a) (Alt (word_ci b) (word_ci c))).

(** [[a-zA-Z0-9\s]] under [IGNORECASE]: the whole set is tested on the
    lower-cased character. *)
Definition nft_name_char (c : N) : bool :=
  let l := py_tolower c in
  ascii_islower l || (l =? 305) || (l =? 383) || ascii_isdigit l
  || py_isspace l.

(** [(?P<name>[a-zA-Z0-9\s]{1,50})] *)
Definition nft_name : regex :=
  Grp "name" (Rep (Chr nft_name_char) 1 (Some 50%nat) true).

(** [(?:an?\s+)?] *)
Definition article : regex :=
  opt (seq_of [word_ci "a"; opt (word_ci "n"); space1]).

(** [(?:with\s+name\s+|named\s+|called\s+)?] *)
Definition named_prefix : regex :=
  opt (Alt (seq_of [word_ci "with"; space1; word_ci "name"; space1])
      (Alt (seq_of [word_ci "named"; space1])
           (seq_of [word_ci "called"; space1]))).

Definition nft_patterns : list regex :=
  [ seq_of [verbs "create" "mint" "make"; space1; article; word_ci "nft";
            space1; named_prefix; nft_name];
    seq_of [opt (seq_of [word_ci "help"; space1; word_ci "me"; space1]);
            verbs "create" "mint" "make"; space1; article; word_ci "nft";
            space1; named_prefix; nft_name];
    seq_of [verbs "create" "mint" "make"; space1; nft_name; space1;
            word_ci "nft"] ].

Definition group_value (name : string) (cs : captures) : pyval :=
  match group name cs with
  | Some v => PyStr v
  | None => PyNone
  end.

Fixpoint nft_first_match (patterns : list regex) (text : pystr)
    : option Parsed :=
  match patterns with
  | [] => None
  | pattern :: rest =>
      match re_search pattern text with
      | Some (_, cs) =>
          let name := sanitize_input (group_value "name" cs) in
          if negb (is_nil name) && (0 <? length (strip name))%nat
          then Some {| intent := "create_nft";
                       parameters :=
                         {| p_amount := None; p_recipient := None;
                            p_name := Some (PyStr (strip name));
                            p_supply := Some 1%Z;
                            p_description := Some (PyStr []) |} |}
          else nft_first_match rest text
      | None => nft_first_match rest text
      end
  end.

Definition parse_nft_command_fallback (text : pyval) : option Parsed :=
  let text := sanitize_input text in
  if is_nil text then None else nft_first_match nft_patterns text.

(** [[\d\.]]: nothing in the set has case, so it is tested as is. *)
Definition amount_char (c : N) : bool := cat_digit c || (c =? 46).

(** The group [amount]: [[\d\.]{1,20}], or else [\w+] followed by any
    number of [\s+\w+]. *)
Definition amount_group : regex :=
  let word := Rep (Chr cat_word) 1 None true in
  Grp "amount"
    (Alt (Rep (Chr amount_char) 1 (Some 20%nat) true)
         (Seq word (Rep (Seq space1 word) 0 None true))).

(** [[A-Z2-7]] under [IGNORECASE] *)
Definition address_char_ci (c : N) : bool :=
  let l := py_tolower c in
  ascii_islower l || (l =? 305) || (l =? 383) || in_range 50 55 l.

(** [(?P<address>[A-Z2-7]{58})] *)
Definition address_group : regex :=
  Grp "address" (Rep (Chr address_char_ci) 58 (Some 58%nat) true).

Definition send_pattern : regex :=
  seq_of [verbs "send" "transfer" "pay"; space1; amount_group; space1;
          Alt (word_ci "algo") (word_ci "algos"); space1; word_ci "to";
          space1; address_group].

(** The value of a run of ASCII digits. *)
Definition digits_value (s : pystr) : Z :=
  foldl (λ acc c, acc * 10 + (Z.of_N c - 48))%Z 0%Z s.

(** [float(s)]: an ASCII integer up to [2^53] is a double as it stands;
    everything else is the table's. *)
Definition py_float (s : pystr) : option pyfloat :=
  if negb (is_nil s) && forallb ascii_isdigit s
     && (digits_value s <=? 2 ^ 53)%Z
  then Some (Finite (inject_Z (digits_value s)))
  else float_of_text py s.

Definition amount_out_of_range (amount : pyfloat) : bool :=
  float_le_zero amount || float_gt amount 1000000.

Definition parse_send_command_fallback (text : pyval) : option Parsed :=
  let text := sanitize_input text in
  if is_nil text then None else
  match re_search send_pattern text with
  | Some (_, cs) =>
      let amount_text := sanitize_input (group_value "amount" cs) in
      let address := sanitize_input (group_value "address" cs) in
      if negb (validate_algorand_address (PyStr address)) then None else
      let amount :=
        match py_float amount_text with
        | Some amount => if amount_out_of_range amount then None else Some amount
        | None =>
            match text_to_number py amount_text with
            | Some amount =>
                if amount_out_of_range amount then None else Some amount
            | None => None
            end
        end in
      match amount with
      | Some amount =>
          Some {| intent := "send_algo";
                  parameters :=
                    {| p_amount := Some amount;
                       p_recipient := Some (PyStr address);
                       p_name := None; p_supply := None;
                       p_description := None |} |}
      | None => None
      end
  | None => None
  end.

(** ** Conversation handlers *)

(** [str.split()] *)
Fixpoint split_words (current : pystr) (s : pystr) : list pystr :=
  match s with
  | [] => if is_nil current then [] else [rev current]
  | c :: s' =>
      if py_isspace c
      then if is_nil current
           then split_words [] s'
           else rev current :: split_words [] s'
      else split_words (c :: current) s'
  end.
Definition split (s : pystr) : list pystr := split_words [] s.

Definition found (r : regex) (s : pystr) : bool :=
  match re_search r s with
  | Some _ => true
  | None => false
  end.

Section Handlers.

Variable env : Collab.
Variable user_id : Z.

Definition handle_wallet_creation_password (password : pystr) : M unit :=
  if (length password <? 8)%nat then
    reply_text PasswordTooShort
  else if negb (found (Chr ascii_isalpha) password)
          || negb (found (Chr cat_digit) password) then
    reply_text PasswordNeedsLettersAndNumbers
  else
    try_except
      (let! wallet_data := call WalletCreate (create_wallet env password) in
       let! sessions := load_sessions in
       let! created := datetime_now in
       let! active := datetime_now in
       save_sessions
         (<[user_key user_id :=
              {| address := wd_address wallet_data;
                 encrypted_mnemonic := wd_encrypted_mnemonic wallet_data;
                 created_at := Some created; connected_at := None;
                 last_activity := Some active;
                 recent_transactions := None |}]> sessions) ;;
       log_security_event "WALLET_CREATED" ;;
       reply_text (WalletCreated (wd_address wallet_data)
                                 (wd_mnemonic wallet_data)) ;;
       user_data_clear)
      (log_security_event "WALLET_CREATION_FAILED" ;;
       reply_text WalletCreationFailed ;;
       user_data_clear).

Definition handle_send_transaction (params : Params) : M unit :=
  let! valid := validate_session user_id in
  if negb valid then reply_text ConnectWalletFirst else
  let! allowed := check_user_rate_limit user_id "transaction" in
  if negb allowed then reply_text TransactionRateLimitExceeded else
  match p_amount params, p_recipient params with
  | Some amount, Some recipient =>
      if negb (validate_algorand_address recipient) then
        reply_text InvalidRecipientFormat
      else if amount_out_of_range amount then
        reply_text InvalidAmount
      else
        let! sessions := load_sessions in
        let user_session := sessions !! user_key user_id in
        try_except
          (call LedgerClient (get_algod_client env) ;;
           let! sender := get_or_raise (address <$> user_session) in
           let! result :=
             call LedgerBuildTransaction
                  (build_and_send_transaction env sender recipient amount) in
           match result with
           | AwaitingApproval unsigned =>
               let! unsigned := get_or_raise unsigned in
               with_user_data (set_pending_txn unsigned) ;;
               with_user_data (set_state "transaction_password") ;;
               with_user_data (set_transaction_type "send") ;;
               log_security_event "TRANSACTION_PENDING" ;;
               reply_text (TransactionConfirmationRequired amount recipient)
           | Completed _ message =>
               log_security_event "TRANSACTION_COMPLETED" ;;
               let! message := get_or_raise message in
               reply_text (TransactionCompleted message)
           end)
          (log_security_event "TRANSACTION_FAILED" ;;
           reply_text TransactionFailed)
  | _, _ => reply_text MissingTransactionDetails
  end.

Definition handle_transaction_password (password : pystr) : M unit :=
  try_except
    (let! ud := get_user_data in
     let transaction_type := default "send"%string (transaction_type ud) in
     match pending_txn ud with
     | None =>
         reply_text NoPendingTransaction ;;
         user_data_clear
     | Some pending =>
         let! signed_txn :=
           call WalletSign (sign_transaction env pending password) in
         call LedgerClient (get_algod_client env) ;;
         let! txid := call LedgerSubmit (send_transaction env signed_txn) in
         (if String.eqb transaction_type "nft" then
            let! asset_id :=
              call LedgerWaitConfirmation (wait_for_confirmation env txid) in
            log_security_event "NFT_CREATED" ;;
            reply_text (NftCreatedSuccessfully asset_id txid)
          else
            log_security_event "TRANSACTION_SIGNED" ;;
            reply_text (TransactionSuccessful txid)) ;;
         user_data_clear
     end)
    (let! ud := get_user_data in
     let failed := (default 0 (failed_attempts ud) + 1)%Z in
     with_user_data (set_failed_attempts failed) ;;
     log_security_event "TRANSACTION_SIGN_FAILED" ;;
     if (MAX_PASSWORD_ATTEMPTS <=? failed)%Z then
       user_data_clear ;;
       reply_text TooManyFailedPasswordAttempts
     else
       reply_text (IncorrectPassword (MAX_PASSWORD_ATTEMPTS - failed))).

Definition handle_nft_creation (params : Params) : M unit :=
  let! valid := validate_session user_id in
  if negb valid then reply_text ConnectWalletFirst else
  match p_name params with
  | Some name =>
      if negb (truthy name) then reply_text MissingNftName else
      let nft_name := sanitize_input name in
      if is_nil nft_name || (length nft_name <? 1)%nat
         || (50 <? length nft_name)%nat then
        reply_text NftNameLength
      else
        let! sessions := load_sessions in
        let user_session := sessions !! user_key user_id in
        try_except
          (call LedgerClient (get_algod_client env) ;;
           let! unit_name := get_or_raise (generate_unit_name env nft_name) in
           let supply := default 1%Z (p_supply params) in
           let description :=
             sanitize_input (default (PyStr []) (p_description params)) in
           let! sender := get_or_raise (address <$> user_session) in
           let! result :=
             call LedgerCreateNft
                  (create_nft env nft_name unit_name supply description sender) in
           match result with
           | NftAwaitingApproval unsigned =>
               let! unsigned := get_or_raise unsigned in
               with_user_data (set_pending_txn unsigned) ;;
               with_user_data (set_state "transaction_password") ;;
               with_user_data (set_transaction_type "nft") ;;
               log_security_event "NFT_CREATION_PENDING" ;;
               reply_text (NftCreationConfirmation nft_name)
           | NftAssetId asset =>
               log_security_event "NFT_CREATED" ;;
               reply_text (NftCreated asset)
           end)
          (log_security_event "NFT_CREATION_FAILED" ;;
           reply_text NftCreationFailed)
  | None => reply_text MissingNftName
  end.

Definition handle_balance_check : M unit :=
  let! valid := validate_session user_id in
  if negb valid then reply_text ConnectWalletFirst else
  let! sessions := load_sessions in
  let user_session := sessions !! user_key user_id in
  try_except
    (call LedgerClient (get_algod_client env) ;;
     let! addr := get_or_raise (address <$> user_session) in
     let! amount := call LedgerAccountInfo (account_info env addr) in
     log_security_event "BALANCE_CHECKED" ;;
     reply_text (WalletBalance amount))
    (reply_text BalanceCheckFailed).

Definition handle_disconnect : M unit :=
  let! sessions := load_sessions in
  (match sessions !! user_key user_id with
   | Some _ =>
       log_security_event "WALLET_DISCONNECTED" ;;
       save_sessions (delete (user_key user_id) sessions)
   | None => ret ()
   end) ;;
  user_data_clear ;;
  reply_text WalletDisconnected.

Definition handle_mnemonic_input (mnemonic : pystr) : M unit :=
  let words := split (strip mnemonic) in
  if negb (length words =? 25)%nat then
    reply_text InvalidMnemonic
  else
    with_user_data (set_mnemonic mnemonic) ;;
    with_user_data (set_state "connecting_password") ;;
    reply_text SetPasswordPrompt.

Definition handle_connection_password (password : pystr) : M unit :=
  let! ud := get_user_data in
  try_except
    (let! wallet_data :=
       call WalletConnect (connect_wallet env (mnemonic ud) password) in
     let! sessions := load_sessions in
     let! connected := datetime_now in
     let! active := datetime_now in
     save_sessions
       (<[user_key user_id :=
            {| address := wd_address wallet_data;
               encrypted_mnemonic := wd_encrypted_mnemonic wallet_data;
               created_at := None; connected_at := Some connected;
               last_activity := Some active;
               recent_transactions := None |}]> sessions) ;;
     log_security_event "WALLET_CONNECTED" ;;
     reply_text (WalletConnected (wd_address wallet_data)) ;;
     user_data_clear)
    (log_security_event "WALLET_CONNECTION_FAILED" ;;
     reply_text WalletConnectionFailed ;;
     user_data_clear).

Definition state_is (ud : UserData) (name : string) : bool :=
  match state ud with
  | Some v => String.eqb v name
  | None => false
  end.

Definition handle_conversation_state (text : pyval) : M unit :=
  let! ud := get_user_data in
  let message_text := sanitize_input text in
  if is_nil message_text then reply_text InvalidInput else
  let failed := default 0%Z (failed_attempts ud) in
  if (MAX_PASSWORD_ATTEMPTS <=? failed)%Z then
    log_security_event "MAX_ATTEMPTS_EXCEEDED" ;;
    user_data_clear ;;
    reply_text TooManyFailedAttempts
  else if state_is ud "creating_wallet" then
    handle_wallet_creation_password message_text
  else if state_is ud "connecting_wallet" then
    handle_mnemonic_input message_text
  else if state_is ud "connecting_password" then
    handle_connection_password message_text
  else if state_is ud "transaction_password" then
    handle_transaction_password message_text
  else
    user_data_clear ;;
    reply_text InvalidState.

(** The state key as [if current_state:] takes it. *)
Definition in_conversation (ud : UserData) : bool :=
  match state ud with
  | Some v => negb (String.eqb v "")
  | None => false
  end.

(** Lines 294-306: the language-understanding call, then the fallbacks. *)
Definition resolve_intent (user_input : pystr) : M (option Parsed) :=
  emit (Called LanguageUnderstanding) ;;
  let parsed := ai_parse env user_input in
  let unresolved :=
    match parsed with
    | Some p => String.eqb (intent p) "unknown"
    | None => true
    end in
  if unresolved then
    match parse_nft_command_fallback (PyStr user_input) with
    | Some p => ret (Some p)
    | None => ret (parse_send_command_fallback (PyStr user_input))
    end
  else ret parsed.

Definition handle_message (text : pyval) : M unit :=
  let user_input := sanitize_input text in
  if is_nil user_input then reply_text InvalidInput else
  let! allowed := check_user_rate_limit user_id "general" in
  if negb allowed then reply_text TooQuickly else
  let! ud := get_user_data in
  if in_conversation ud then handle_conversation_state text else
  let! parsed := resolve_intent user_input in
  match parsed with
  | None => reply_text NotUnderstood
  | Some parsed =>
      let params := parameters parsed in
      let intent_is name := String.eqb (intent parsed) name in
      try_except
        (if intent_is "create_wallet" then
           log_security_event "WALLET_CREATION_INITIATED" ;;
           with_user_data (set_state "creating_wallet") ;;
           reply_text CreatingWalletPrompt
         else if intent_is "connect_wallet" then
           log_security_event "WALLET_CONNECTION_INITIATED" ;;
           with_user_data (set_state "connecting_wallet") ;;
           reply_text ConnectingWalletPrompt
         else if intent_is "send_algo" then handle_send_transaction params
         else if intent_is "create_nft" then handle_nft_creation params
         else if intent_is "disconnect" then handle_disconnect
         else if intent_is "balance" then handle_balance_check
         else reply_text UnsupportedAction)
        (reply_text ErrorOccurred)
  end.

End Handlers.

(** ** Vocabulary of the properties *)

(** The text that survives the first two steps of the sanitizer. *)
Definition scrubbed (s : pystr) : pystr :=
  take MAX_MESSAGE_LENGTH (re_sub_empty (Chr is_control) s).

(** The state with the files replaced. *)
Definition set_files (f : gmap string FileContent) (st : St) : St :=
  {| world := {| files := f; clock := clock (world st);
                 reads := reads (world st) |};
     user_data := user_data st; trace := trace st |}.

(** The state after one more reading of the clock. *)
Definition tick (st : St) : St :=
  {| world := {| files := files (world st); clock := clock (world st);
                 reads := S (reads (world st)) |};
     user_data := user_data st; trace := trace st |}.

(** The files after [save_sessions m]: the temporary file written, then
    moved over the store. *)
Definition saved (m : gmap string Session) (f : gmap string FileContent)
    : gmap string FileContent :=
  <[SESSIONS_FILE := JsonSessions m]>
    (delete (SESSIONS_FILE +:+ ".tmp")
       (<[SESSIONS_FILE +:+ ".tmp" := JsonSessions m]> f)).

(** Where the store keeps a user's record. *)
Definition stored_session (st : St) (user_id : Z) : option Session :=
  match files (world st) !! SESSIONS_FILE with
  | Some (JsonSessions m) => m !! user_key user_id
  | _ => None
  end.

(** A stamp inside the trailing hour of the reading [now]. *)
Definition within_hour (now stamp : Z) : Prop := (now - hours 1 < stamp)%Z.

(** [m] changes neither the conversation context nor the trace. *)
Definition quiet {A} (m : M A) : Prop :=
  ∀ st, user_data (snd (m st)) = user_data st
        ∧ trace (snd (m st)) = trace st.

(** A password the creation handler turns down. *)
Definition weak_password (password : pystr) : Prop :=
  (length password < 8)%nat
  ∨ Forall (λ c, ascii_isalpha c = false) password
  ∨ Forall (λ c, cat_digit c = false) password.

(** The state after one more reply. *)
Definition add_reply (r : Reply) (st : St) : St :=
  {| world := world st; user_data := user_data st;
     trace := trace st ++ [Replied r] |}.

(** The state after a run of events, with the context set to [ud]. *)
Definition add_events (es : list Event) (ud : UserData) (st : St) : St :=
  {| world := world st; user_data := ud; trace := trace st ++ es |}.

(** The count a further failure brings the context to. *)
Definition next_failure (ud : UserData) : Z :=
  (default 0 (failed_attempts ud) + 1)%Z.



(** The state in which the next message is the password for the pending
    transaction. *)
Definition password_state : string := "transaction_password".


(** One message handled: the state [handle_message] leaves. *)
Definition step (env : Collab) (user_id : Z) (text : pyval) (st : St) : St :=
  snd (handle_message env user_id text st).


(** The balance request of the end-to-end property. *)
Definition check_my_balance : pystr := str "check my balance".

(** The context holds an unsigned transaction exactly in the
    password-confirmation state. *)
Definition pending_iff_password (ud : UserData) : Prop :=
  is_Some (pending_txn ud) ↔ state ud = Some password_state.

(** [m] leaves the conversation context as it found it. *)
Definition keeps {A} (m : M A) : Prop :=
  ∀ st, user_data (snd (m st)) = user_data st.

(** A triple over the conversation context alone: from [P], a normal end
    of [m] gives [Q] of its value, a raised exception gives [E]. *)
Definition triple {A} (P : UserData → Prop) (m : M A)
    (Q : A → UserData → Prop) (E : UserData → Prop) : Prop :=
  ∀ st, P (user_data st) →
    match m st with
    | (Some a, st') => Q a (user_data st')
    | (None, st') => E (user_data st')
    end.

(** [m] keeps the property, however it ends. *)
Abbreviation keeps_pending m :=
  (triple pending_iff_password m (λ _, pending_iff_password)
          pending_iff_password).

(** The states a user's conversation can be in: it starts with an empty
    context, advances by one message at a time, and meanwhile the files
    and the clock may change under it. *)
Inductive reachable (user_id : Z) : St → Prop :=
| reachable_start (w : World) :
    reachable user_id
      {| world := w; user_data := user_data_empty; trace := [] |}
| reachable_message (st : St) (env : Collab) (text : pyval) :
    reachable user_id st →
    reachable user_id (step env user_id text st)
| reachable_elsewhere (st : St) (w : World) :
    reachable user_id st →
    reachable user_id
      {| world := w; user_data := user_data st; trace := trace st |}.

(** The four characters of which every dangerous pattern needs one:
    [(], [:], [<] and [=]. *)
Definition is_marker (c : N) : bool :=
  (c =? 40) || (c =? 58) || (c =? 60) || (c =? 61).

(** Neither a control character nor a marker. *)
Definition plain (c : N) : bool := negb (is_control c) && negb (is_marker c).

(** The transfer request to [addr]. *)
Definition send_request (addr : pystr) : pystr :=
  str "send 5 algo to " ++ addr.

(** The intent the transfer fallback gives for 5 ALGO to [addr]. *)
Definition send_five_to (addr : pystr) : Parsed :=
  {| intent := "send_algo";
     parameters :=
       {| p_amount := Some (Finite 5); p_recipient := Some (PyStr addr);
          p_name := None; p_supply := None; p_description := None |} |}.

(** The transfer request whose recipient is no address. *)
Definition send_to_short : pystr := str "send 5 algo to short".

(** A character no verb of the token patterns starts with. *)
Definition no_verb_start (c : N) : Prop :=
  lit_ci 99 c = false ∧ lit_ci 109 c = false.

(** Text in which every position either cannot start a verb or lies in a
    run of address characters up to the end. *)
Fixpoint calm (s : pystr) : Prop :=
  match s with
  | [] => True
  | c :: s' =>
      (no_verb_start c ∨ Forall (λ c, is_base32 c = true) (c :: s'))
      ∧ calm s'
  end.

(** What the resolution step leaves behind: the call is on record. *)
Definition after_resolution (st : St) : St :=
  add_events [Called LanguageUnderstanding] (user_data st) st.

(** ** Shapes of the conversation context *)

(** The contexts a conversation passes through: empty, waiting for the
    password of a new wallet, waiting for a mnemonic, holding the mnemonic
    and waiting for its password, or holding an unsigned transaction of a
    known kind with fewer failures than the limit. *)
Inductive coherent : UserData → Prop :=
| coherent_idle : coherent user_data_empty
| coherent_creating :
    coherent (set_state "creating_wallet" user_data_empty)
| coherent_connecting :
    coherent (set_state "connecting_wallet" user_data_empty)
| coherent_connecting_password (words : pystr) :
    coherent {| state := Some "connecting_password"%string;
                failed_attempts := None; pending_txn := None;
                transaction_type := None; mnemonic := Some words |}
| coherent_confirming (txn : Txn) (kind : string) (failed : option Z) :
    kind = "send"%string ∨ kind = "nft"%string →
    failed = None ∨ failed = Some 1%Z ∨ failed = Some 2%Z →
    coherent {| state := Some "transaction_password"%string;
                failed_attempts := failed; pending_txn := Some txn;
                transaction_type := Some kind; mnemonic := None |}.

(** The context is one of those in which a password confirms a pending
    transaction. *)
Definition confirming_shape (ud : UserData) : Prop :=
  coherent ud ∧ state ud = Some "transaction_password"%string.

(** ** What a step puts on the trace *)

(** Every event [m] adds to the trace of [st] satisfies [P]. *)
Definition emits_at {A} (P : Event → Prop) (m : M A) (st : St) : Prop :=
  ∃ es, trace (snd (m st)) = trace st ++ es ∧ Forall P es.

Definition emits {A} (P : Event → Prop) (m : M A) : Prop :=
  ∀ st, emits_at P m st.

(** Neither the wallet's signature nor the ledger's submission. *)
Definition not_signing (e : Event) : Prop :=
  e ≠ Called WalletSign ∧ e ≠ Called LedgerSubmit.

(** Neither of the two replies of a forced reset. *)
Definition not_forced_reset (e : Event) : Prop :=
  e ≠ Replied TooManyFailedAttempts ∧ e ≠ Replied InvalidState.

(** What [handle_message] does with a message that arrives outside a
    conversation, once it is sanitized and let through. *)
Definition dispatch_idle (env : Collab) (user_id : Z) (user_input : pystr)
    : M unit :=
  let! parsed := resolve_intent env user_input in
  match parsed with
  | None => reply_text NotUnderstood
  | Some parsed =>
      let params := parameters parsed in
      let intent_is name := String.eqb (intent parsed) name in
      try_except
        (if intent_is "create_wallet" then
           log_security_event "WALLET_CREATION_INITIATED" ;;
           with_user_data (set_state "creating_wallet") ;;
           reply_text CreatingWalletPrompt
         else if intent_is "connect_wallet" then
           log_security_event "WALLET_CONNECTION_INITIATED" ;;
           with_user_data (set_state "connecting_wallet") ;;
           reply_text ConnectingWalletPrompt
         else if intent_is "send_algo" then
           handle_send_transaction env user_id params
         else if intent_is "create_nft" then
           handle_nft_creation env user_id params
         else if intent_is "disconnect" then handle_disconnect user_id
         else if intent_is "balance" then handle_balance_check env user_id
         else reply_text UnsupportedAction)
        (reply_text ErrorOccurred)
  end.

(** The replies among the events, in the order sent. *)
Definition reply_of (e : Event) : option Reply :=
  match e with
  | Replied r => Some r
  | _ => None
  end.

Definition replies (es : list Event) : list Reply := omap reply_of es.

(** [m] sends [normal] replies when it ends normally; when it raises it has
    sent [raising] replies, or it never raises if that is [None]. *)
Definition tally {A} (m : M A) (normal : nat) (raising : option nat)
    : Prop :=
  ∀ st, ∃ es,
    trace (snd (m st)) = trace st ++ es
    ∧ match fst (m st) with
      | Some _ => length (replies es) = normal
      | None =>
          match raising with
          | Some n => length (replies es) = n
          | None => False
          end
      end.

(** No reply. *)
Definition not_reply (e : Event) : Prop := reply_of e = None.

(** ** What a pattern can read *)

(** The texts a pattern matches, leaving aside where in the subject. *)
Fixpoint lang (r : regex) (w : pystr) : Prop :=
  match r with
  | Chr p => ∃ c, w = [c] ∧ p c = true
  | Eps | Eol => w = []
  | Seq r1 r2 => ∃ w1 w2, w = w1 ++ w2 ∧ lang r1 w1 ∧ lang r2 w2
  | Alt r1 r2 => lang r1 w ∨ lang r2 w
  | Rep r' lo hi _ =>
      ∃ ws, w = concat ws ∧ Forall (lang r') ws ∧ (lo ≤ length ws)%nat
            ∧ match hi with
              | Some h => (length ws ≤ h)%nat
              | None => True
              end
  | Grp _ r' => lang r' w
  end.

(** Every group of [r] holds, whenever it takes part in a match, a text
    with the property [G] of its name. *)
Fixpoint groups_ok (G : string → pystr → Prop) (r : regex) : Prop :=
  match r with
  | Grp name r' => (∀ w, lang r' w → G name w) ∧ groups_ok G r'
  | Seq r1 r2 | Alt r1 r2 => groups_ok G r1 ∧ groups_ok G r2
  | Rep r' _ _ _ => groups_ok G r'
  | Chr _ | Eps | Eol => True
  end.

Definition captures_ok (G : string → pystr → Prop) (cs : captures) : Prop :=
  Forall (λ nv, G nv.1 nv.2) cs.

(** What the token patterns let into the group [name]. *)
Definition nft_name_ok (name : string) (v : pystr) : Prop :=
  name = "name"%string →
  (length v ≤ 50)%nat ∧ Forall (λ c, nft_name_char c = true) v.

(** None of the replies that turn a request down for its parameters. *)
Definition not_refusal (e : Event) : Prop :=
  e ≠ Replied MissingTransactionDetails
  ∧ e ≠ Replied InvalidRecipientFormat
  ∧ e ≠ Replied InvalidAmount
  ∧ e ≠ Replied MissingNftName
  ∧ e ≠ Replied NftNameLength.

(** ** Runs of the session policy *)

(** [n] transaction checks in a row: their answers, and the state left. *)
Fixpoint transaction_checks (user_id : Z) (n : nat) (st : St)
    : list (option bool) * St :=
  match n with
  | O => ([], st)
  | S n' =>
      let (answer, st') := check_user_rate_limit user_id "transaction" st in
      let (answers, st'') := transaction_checks user_id n' st' in
      (answer :: answers, st'')
  end.

(** The stamps a record lists, as the rate check reads them. *)
Definition recent_of (sess : Session) : list Z :=
  default [] (recent_transactions sess).

(** The record a wallet leaves in the store. *)
Definition created_session (wd : WalletData) (created active : Z) : Session :=
  {| address := wd_address wd;
     encrypted_mnemonic := wd_encrypted_mnemonic wd;
     created_at := Some created; connected_at := None;
     last_activity := Some active; recent_transactions := None |}.

Definition connected_session (wd : WalletData) (connected active : Z)
    : Session :=
  {| address := wd_address wd;
     encrypted_mnemonic := wd_encrypted_mnemonic wd;
     created_at := None; connected_at := Some connected;
     last_activity := Some active; recent_transactions := None |}.

(** A password the creation handler takes. *)
Definition strong_password (password : pystr) : Prop :=
  (8 ≤ length password)%nat
  ∧ Exists (λ c, ascii_isalpha c = true) password
  ∧ Exists (λ c, cat_digit c = true) password.

(** What the fallback parsers make of a message: the token parser first,
    then the transfer parser (lines 303-306). *)
Definition fallback_intent (user_input : pystr) : option Parsed :=
  match parse_nft_command_fallback (PyStr user_input) with
  | Some parsed => Some parsed
  | None => parse_send_command_fallback (PyStr user_input)
  end.

(** The ways in which the client gives the bot nothing to go on: no key,
    an exception of the completion call, a content that is no string, or a
    content without an opening or without a closing brace. *)
Definition client_gives_nothing (svc : Service) (user_input : pystr) : Prop :=
  AIIntentParser.init svc = None
  ∨ chat_completion svc user_input = None
  ∨ (∃ content, chat_completion svc user_input = Some content
                ∧ ∀ text, content ≠ PyStr text)
  ∨ (∃ text, chat_completion svc user_input = Some (PyStr text)
             ∧ (123 ∉ text ∨ 125 ∉ text)).

(** A call pattern wrapped around the pieces of itself. *)
Definition nested_eval : pystr := str "eveval(al(".

(** ** The store file *)

(** A store as the handlers leave it: no file, or an object of session
    records. *)
Definition store_readable (st : St) : Prop :=
  files (world st) !! SESSIONS_FILE = None
  ∨ ∃ m, files (world st) !! SESSIONS_FILE = Some (JsonSessions m).

(** The bytes a [FileContent] stands for: text that decodes to the object
    of sessions, or the bytes [raw] where they are text that is no JSON. *)
Definition describes (codec : Disk.Codec) (c : FileContent)
    (bytes : list N) : Prop :=
  ∃ text,
    Disk.decode codec bytes = Some text
    ∧ match c with
      | JsonSessions m => Disk.json_loads codec text = Some (Disk.JObject m)
      | Corrupt raw => bytes = str raw ∧ Disk.json_loads codec text = None
      end.

(** The world [w] stands for the disk [d]: the same clock, the same file
    names, and each content describing the bytes under its name. *)
Definition models (codec : Disk.Codec) (w : World) (d : Disk.World) : Prop :=
  clock w = Disk.clock d
  ∧ reads w = Disk.reads d
  ∧ ∀ name,
      match files w !! name, Disk.files d !! name with
      | Some c, Some bytes => describes codec c bytes
      | None, None => True
      | _, _ => False
      end.

(** [m] leaves a store readable that it finds readable. *)
Definition keeps_readable {A} (m : M A) : Prop :=
  ∀ st, store_readable st → store_readable (snd (m st)).

(** * Properties *)

(** ** The matcher reads forward only *)

Lemma rep_loop_suffix body lo hi greedy k :
  (∀ s cs k' res, body s cs k' = Some res →
     ∃ s' cs', s' `suffix_of` s ∧ k' s' cs' = Some res) →
  ∀ fuel n s cs res,
    rep_loop body lo hi greedy k fuel n s cs = Some res →
    ∃ s' cs', s' `suffix_of` s ∧ k s' cs' = Some res.
Proof.
  intros Hbody fuel.
  induction fuel as [|fuel IH]; intros n s cs res; cbn [rep_loop]; cbv zeta.
  - destruct greedy, (lo <=? n)%nat; intros H; try discriminate;
      (exists s, cs); (split; [reflexivity|]); [done|].
    by destruct (k s cs).
  - assert (Hmore : ∀ res',
      (if below n hi
       then body s cs (λ s' cs',
              if (length s' <? length s)%nat
              then rep_loop body lo hi greedy k fuel (S n) s' cs'
              else None)
       else None) = Some res' →
      ∃ s' cs', s' `suffix_of` s ∧ k s' cs' = Some res').
    { intros res' H. destruct (below n hi); [|discriminate].
      apply Hbody in H as (s1 & cs1 & Hs1 & H).
      destruct (length s1 <? length s)%nat; [|discriminate].
      apply IH in H as (s2 & cs2 & Hs2 & H).
      exists s2, cs2. split; [by etrans|done]. }
    assert (Hstop : ∀ res',
      (if (lo <=? n)%nat then k s cs else None) = Some res' →
      ∃ s' cs', s' `suffix_of` s ∧ k s' cs' = Some res').
    { intros res' H. destruct (lo <=? n)%nat; [|discriminate].
      exists s, cs. split; [reflexivity|done]. }
    destruct greedy.
    + destruct (if below n hi then _ else None) as [r1|] eqn:E1.
      * intros [= <-]. by apply Hmore.
      * apply Hstop.
    + destruct (if (lo <=? n)%nat then _ else None) as [r1|] eqn:E1.
      * intros [= <-]. by apply Hstop.
      * apply Hmore.
Qed.

Lemma rmatch_suffix r :
  ∀ s cs k res, rmatch r s cs k = Some res →
    ∃ s' cs', s' `suffix_of` s ∧ k s' cs' = Some res.
Proof.
  induction r as [p| |r1 IH1 r2 IH2|r1 IH1 r2 IH2|r IH lo hi g|name r IH|];
    intros s cs k res; cbn [rmatch].
  - destruct s as [|c s]; [discriminate|].
    destruct (p c); [|discriminate]. intros H.
    exists s, cs. split; [by apply suffix_cons_r|done].
  - intros H. exists s, cs. split; [reflexivity|done].
  - intros H. apply IH1 in H as (s1 & cs1 & Hs1 & H).
    apply IH2 in H as (s2 & cs2 & Hs2 & H).
    exists s2, cs2. split; [by etrans|done].
  - destruct (rmatch r1 s cs k) as [r'|] eqn:E1.
    + intros [= <-]. apply (IH1 _ _ _ _ E1).
    + intros H. apply (IH2 _ _ _ _ H).
  - intros H. eapply rep_loop_suffix; [apply IH|exact H].
  - intros H. apply IH in H as (s1 & cs1 & Hs1 & H). eauto.
  - intros H. exists s, cs. split; [reflexivity|].
    repeat (match type of H with
            | context [match ?x with _ => _ end] => destruct x
            end; try done).
Qed.

Lemma re_match_suffix r s rest cs :
  re_match r s = Some (rest, cs) → rest `suffix_of` s.
Proof.
  intros H. apply rmatch_suffix in H as (s' & cs' & Hs & [= <- <-]). done.
Qed.

Lemma suffix_is_sublist {A} (l1 l2 : list A) :
  l1 `suffix_of` l2 → l1 `sublist_of` l2.
Proof. intros [k ->]. by apply sublist_inserts_l. Qed.

Lemma sublist_rev {A} (l1 l2 : list A) :
  l1 `sublist_of` l2 → rev l1 `sublist_of` rev l2.
Proof.
  induction 1 as [|x l1 l2 _ IH|x l1 l2 _ IH]; simpl.
  - done.
  - by apply sublist_app.
  - by apply sublist_inserts_r.
Qed.

Lemma Forall_sublist {A} (P : A → Prop) (l1 l2 : list A) :
  l1 `sublist_of` l2 → Forall P l2 → Forall P l1.
Proof.
  intros Hsub Hall. apply Forall_forall. intros x Hx.
  rewrite Forall_forall in Hall. apply Hall.
  by eapply elem_of_sublist.
Qed.

(** ** What deletion leaves *)

Lemma sub_loop_sublist r fuel : ∀ s, sub_loop r fuel s `sublist_of` s.
Proof.
  induction fuel as [|fuel IH]; intros [|c s]; cbn [sub_loop]; try done.
  destruct (re_match r (c :: s)) as [[rest cs]|] eqn:E.
  - destruct (length rest <? length (c :: s))%nat.
    + etrans; [apply IH|]. by eapply suffix_is_sublist, re_match_suffix.
    + by constructor.
  - by constructor.
Qed.

Lemma re_sub_empty_sublist r s : re_sub_empty r s `sublist_of` s.
Proof. apply sub_loop_sublist. Qed.

Lemma sub_loop_chr p fuel :
  ∀ s, (length s ≤ fuel)%nat →
    Forall (λ c, p c = false) (sub_loop (Chr p) fuel s).
Proof.
  induction fuel as [|fuel IH]; intros [|c s] Hlen; cbn [sub_loop];
    try done; [simpl in Hlen; lia|].
  unfold re_match. cbn [rmatch]. simpl in Hlen.
  destruct (p c) eqn:Hc; cbn [accept].
  - replace (length s <? length (c :: s))%nat with true
      by (symmetry; apply Nat.ltb_lt; simpl; lia).
    apply IH. lia.
  - constructor; [done|]. apply IH. lia.
Qed.

Lemma drop_while_suffix p s : drop_while p s `suffix_of` s.
Proof.
  induction s as [|c s IH]; simpl; [done|].
  destruct (p c); [by apply suffix_cons_r|done].
Qed.

Lemma strip_sublist s : strip s `sublist_of` s.
Proof.
  unfold strip, rstrip, lstrip.
  etrans; [|apply suffix_is_sublist, drop_while_suffix].
  rewrite <- (rev_involutive (drop_while py_isspace s)) at 2.
  apply sublist_rev, suffix_is_sublist, drop_while_suffix.
Qed.

Lemma foldl_sub_sublist patterns : ∀ s,
  foldl (λ acc pattern, re_sub_empty pattern acc) s patterns `sublist_of` s.
Proof.
  induction patterns as [|r rs IH]; intros s; simpl; [done|].
  etrans; [apply IH|apply re_sub_empty_sublist].
Qed.

Lemma sanitize_input_sublist s :
  sanitize_input (PyStr s) `sublist_of` scrubbed s.
Proof.
  destruct s as [|c s]; [apply sublist_nil_l|].
  cbn [sanitize_input]. fold (scrubbed (c :: s)).
  etrans; [apply strip_sublist|apply foldl_sub_sublist].
Qed.

(** C7. The sanitizer is total: it gives the empty string for [None], a
    boolean, a number or the empty string, and for every input a string of
    at most [MAX_MESSAGE_LENGTH] = 1000 characters, none of them a control
    character (U+0000 to U+001F, U+007F to U+009F). *)
Theorem sanitize_input_bounded_clean :
  sanitize_input PyNone = []
  ∧ (∀ b, sanitize_input (PyBool b) = [])
  ∧ (∀ z, sanitize_input (PyInt z) = [])
  ∧ sanitize_input (PyStr []) = []
  ∧ ∀ text,
      (length (sanitize_input text) ≤ 1000)%nat
      ∧ Forall (λ c, is_control c = false) (sanitize_input text).
Proof.
  repeat split; try done.
  - destruct text as [| | |s]; try (simpl; lia).
    etrans; [apply sublist_length, sanitize_input_sublist|].
    unfold scrubbed, MAX_MESSAGE_LENGTH. rewrite length_take. lia.
  - destruct text as [| | |s]; try by constructor.
    eapply Forall_sublist; [apply sanitize_input_sublist|].
    eapply Forall_sublist; [apply sublist_take|].
    by apply sub_loop_chr.
Qed.

(** ** Session store *)

Ltac unfold_monad :=
  cbv [bind ret raise try_except get_world get_user_data with_world
       with_user_data emit reply_text log_security_event user_data_clear
       call get_or_raise time_time datetime_now os_path_exists os_rename
       json_load json_dump];
  cbn [world user_data trace files clock reads].

Lemma backup_name_fresh t : backup_name t ≠ SESSIONS_FILE.
Proof.
  unfold backup_name, SESSIONS_FILE. intros H.
  apply (f_equal String.length) in H.
  cbv [String.append String.length] in H. lia.
Qed.

Lemma load_sessions_valid st m :
  files (world st) !! SESSIONS_FILE = Some (JsonSessions m) →
  load_sessions st = (Some m, st).
Proof.
  intros H. unfold load_sessions. unfold_monad.
  rewrite bool_decide_eq_true_2 by (rewrite H; eauto).
  cbv beta iota. by rewrite H.
Qed.

Lemma load_sessions_missing st :
  files (world st) !! SESSIONS_FILE = None →
  load_sessions st = (Some ∅, st).
Proof.
  intros H. unfold load_sessions. unfold_monad.
  rewrite bool_decide_eq_false_2 by (rewrite H; intros [? ?]; done).
  done.
Qed.

Lemma load_sessions_corrupt st raw :
  files (world st) !! SESSIONS_FILE = Some (Corrupt raw) →
  load_sessions st =
    (Some ∅,
     set_files
       (<[backup_name (Z.quot (clock (world st) (reads (world st)))
                              microseconds_per_second) := Corrupt raw]>
          (delete SESSIONS_FILE (files (world st))))
       (tick st)).
Proof.
  intros H. unfold load_sessions. unfold_monad.
  rewrite !bool_decide_eq_true_2 by (rewrite H; eauto).
  cbv beta iota. rewrite H. cbv beta iota.
  rewrite bool_decide_eq_true_2 by (rewrite H; eauto).
  cbn [world files]. by rewrite H.
Qed.

Lemma save_sessions_spec m st :
  save_sessions m st = (Some (), set_files (saved m (files (world st))) st).
Proof.
  unfold save_sessions. unfold_monad. rewrite lookup_insert_eq. done.
Qed.

Lemma saved_lookup m f : saved m f !! SESSIONS_FILE = Some (JsonSessions m).
Proof. apply lookup_insert_eq. Qed.

(** ** The store file, byte by byte *)

Ltac unfold_disk :=
  cbv [Disk.load_sessions Disk.bind Disk.ret Disk.raise Disk.try_except
       Disk.os_path_exists Disk.json_load Disk.read_text Disk.time_time
       Disk.os_rename];
  cbn [Disk.files Disk.clock Disk.reads].

Lemma disk_load_missing codec d :
  Disk.files d !! SESSIONS_FILE = None →
  Disk.load_sessions codec d = (inr (Disk.JObject ∅), d).
Proof.
  intros H. unfold_disk.
  rewrite bool_decide_eq_false_2 by (rewrite H; intros [? ?]; done).
  done.
Qed.

Lemma disk_load_value codec d bytes text v :
  Disk.files d !! SESSIONS_FILE = Some bytes →
  Disk.decode codec bytes = Some text →
  Disk.json_loads codec text = Some v →
  Disk.load_sessions codec d = (inr v, d).
Proof.
  intros H Htext Hv. unfold_disk.
  rewrite bool_decide_eq_true_2 by (rewrite H; eauto).
  cbv beta iota. by rewrite H, Htext, Hv.
Qed.


Lemma disk_load_invalid_json codec d bytes text :
  Disk.files d !! SESSIONS_FILE = Some bytes →
  Disk.decode codec bytes = Some text →
  Disk.json_loads codec text = None →
  Disk.load_sessions codec d =
    (inr (Disk.JObject ∅),
     {| Disk.files :=
          <[backup_name (Z.quot (Disk.clock d (Disk.reads d))
                                microseconds_per_second) := bytes]>
            (delete SESSIONS_FILE (Disk.files d));
        Disk.clock := Disk.clock d; Disk.reads := S (Disk.reads d) |}).
Proof.
  intros H Htext Hv. unfold_disk.
  rewrite !bool_decide_eq_true_2 by (rewrite H; eauto).
  cbv beta iota. rewrite H, Htext. cbv beta iota. rewrite Hv.
  cbv beta iota. cbn [Disk.json_or_io].
  rewrite bool_decide_eq_true_2 by (rewrite H; eauto).
  cbn [Disk.files]. by rewrite H.
Qed.


(** On a disk that a world stands for, the two readings of
    [load_sessions] agree: the same sessions come back, and the world
    afterwards stands for the disk afterwards. *)
Lemma load_sessions_on_disk codec st d :
  models codec (world st) d →
  ∃ m st' d',
    load_sessions st = (Some m, st')
    ∧ Disk.load_sessions codec d = (inr (Disk.JObject m), d')
    ∧ models codec (world st') d'.
Proof.
  intros (Hclock & Hreads & Hfiles).
  pose proof (Hfiles SESSIONS_FILE) as Hstore.
  destruct (files (world st) !! SESSIONS_FILE) as [[m|raw]|] eqn:Hfile;
    destruct (Disk.files d !! SESSIONS_FILE) as [bytes|] eqn:Hdisk;
    try done.
  - destruct Hstore as (text & Htext & Hv).
    exists m, st, d. split; [by apply load_sessions_valid|].
    split; [by apply (disk_load_value _ _ _ _ _ Hdisk Htext Hv)|done].
  - destruct Hstore as (text & Htext & -> & Hv).
    eexists ∅, _, _. split; [by apply load_sessions_corrupt|].
    split; [by apply (disk_load_invalid_json _ _ _ _ Hdisk Htext Hv)|].
    cbn. split; [done|]. split; [by rewrite Hreads|].
    intros name. rewrite Hclock, Hreads. cbn [files Disk.files].
    destruct (decide (name = backup_name
      (Z.quot (Disk.clock d (Disk.reads d)) microseconds_per_second)))
      as [->|Hne].
    + rewrite !lookup_insert_eq. by exists text.
    + rewrite !lookup_insert_ne by done.
      destruct (decide (name = SESSIONS_FILE)) as [->|Hne'].
      * by rewrite !lookup_delete_eq.
      * rewrite !lookup_delete_ne by done. apply Hfiles.
  - exists ∅, st, d. split; [by apply load_sessions_missing|].
    split; [by apply disk_load_missing|done].
Qed.

(** ** Running a handler step by step *)

Lemma bind_run {A B} (m : M A) (f : A → M B) st a st' :
  m st = (Some a, st') → bind m f st = f a st'.
Proof. unfold bind. by intros ->. Qed.

(** ** Session policy *)

Lemma validate_session_live st user_id m sess :
  files (world st) !! SESSIONS_FILE = Some (JsonSessions m) →
  m !! user_key user_id = Some sess →
  match last_activity sess with
  | Some stamp =>
      (clock (world st) (reads (world st)) - stamp ≤ hours 24)%Z →
      validate_session user_id st =
        (Some true,
         set_files
           (saved (<[user_key user_id :=
                       set_last_activity
                         (clock (world st) (S (reads (world st)))) sess]> m)
                  (files (world st)))
           (tick (tick st)))
  | None =>
      validate_session user_id st =
        (Some true,
         set_files
           (saved (<[user_key user_id :=
                       set_last_activity
                         (clock (world st) (reads (world st))) sess]> m)
                  (files (world st)))
           (tick st))
  end.
Proof.
  intros Hfile Hm. unfold validate_session.
  rewrite (bind_run _ _ _ _ _ (load_sessions_valid _ _ Hfile)). rewrite Hm.
  destruct (last_activity sess) as [stamp|].
  - intros Hlive. unfold bind at 1. unfold bind at 1. unfold datetime_now at 1.
    cbn [ret world clock reads].
    replace (hours SESSION_TIMEOUT_HOURS <? _)%Z with false
      by (symmetry; apply Z.ltb_ge; exact Hlive).
    unfold bind, datetime_now. rewrite save_sessions_spec. done.
  - unfold bind, ret, datetime_now. rewrite save_sessions_spec. done.
Qed.


Lemma filter_keeps_all {A} (f : A → bool) (l : list A) :
  Forall (λ x, f x = true) l → List.filter f l = l.
Proof.
  induction 1 as [|x l Hx _ IH]; simpl; [done|]. by rewrite Hx, IH.
Qed.

Lemma within_hour_kept now l :
  Forall (within_hour now) l →
  List.filter (λ tx_time, (now - hours 1 <? tx_time)%Z) l = l.
Proof.
  intros H. apply filter_keeps_all.
  eapply Forall_impl; [exact H|]. intros x Hx. by apply Z.ltb_lt.
Qed.

(** C4. For a user whose record lists ten transaction stamps: when all ten
    lie within the hour before the current reading, the transaction check
    returns false and leaves every file as it was; when one of them is an
    hour old or older and the other nine are within the hour, the check
    returns true and the store then holds, for that user, the nine recent
    stamps followed by the current reading. *)
Theorem transaction_rate_limit st user_id m sess stamps :
  files (world st) !! SESSIONS_FILE = Some (JsonSessions m) →
  m !! user_key user_id = Some sess →
  recent_transactions sess = Some stamps →
  length stamps = 10%nat →
  let now := clock (world st) (reads (world st)) in
  (Forall (within_hour now) stamps →
   ∃ st',
     check_user_rate_limit user_id "transaction" st = (Some false, st')
     ∧ files (world st') = files (world st))
  ∧ (∀ before old after,
       stamps = before ++ old :: after →
       (old ≤ now - hours 1)%Z →
       Forall (within_hour now) (before ++ after) →
       ∃ st',
         check_user_rate_limit user_id "transaction" st = (Some true, st')
         ∧ load_sessions st' =
             (Some (<[user_key user_id :=
                        set_recent_transactions
                          (before ++ after ++ [now]) sess]> m), st')).
Proof.
  intros Hfile Hm Hrecent Hlen now.
  assert (Hrun' :
    check_user_rate_limit user_id "transaction" st =
    (let recent :=
       List.filter (λ tx_time, (now - hours 1 <? tx_time)%Z) stamps in
     if (MAX_TRANSACTIONS_PER_HOUR <=? length recent)%nat
     then (log_security_event "RATE_LIMIT_EXCEEDED" ;; ret false) (tick st)
     else (save_sessions
             (<[user_key user_id :=
                  set_recent_transactions (recent ++ [now]) sess]> m) ;;
           ret true) (tick st))).
  { unfold check_user_rate_limit.
    rewrite (bind_run _ _ _ _ _ (load_sessions_valid _ _ Hfile)).
    unfold bind at 1. unfold datetime_now at 1. fold (tick st). fold now.
    rewrite Hm, Hrecent. cbn [String.eqb Ascii.eqb Bool.eqb default].
    cbv zeta.
    by destruct (MAX_TRANSACTIONS_PER_HOUR <=? _)%nat. }
  split.
  - intros Hall. rewrite Hrun'. cbv zeta.
    rewrite within_hour_kept by done. rewrite Hlen.
    eexists. split; [reflexivity|done].
  - intros before old after -> Hold Hall. rewrite Hrun'. cbv zeta.
    rewrite List.filter_app. cbn [List.filter].
    replace (now - hours 1 <? old)%Z with false
      by (symmetry; apply Z.ltb_ge; exact Hold).
    rewrite <- List.filter_app, within_hour_kept by done.
    rewrite length_app in Hlen. cbn in Hlen.
    replace (MAX_TRANSACTIONS_PER_HOUR <=? length (before ++ after))%nat
      with false
      by (symmetry; apply Nat.leb_gt; rewrite length_app;
          unfold MAX_TRANSACTIONS_PER_HOUR; lia).
    unfold bind. rewrite save_sessions_spec. cbn [ret].
    eexists. split; [reflexivity|].
    rewrite <- app_assoc.
    apply load_sessions_valid. apply saved_lookup.
Qed.

(** ** Frames: what a step leaves alone *)

Lemma quiet_ret {A} (a : A) : quiet (ret a).
Proof. by intros st. Qed.

Lemma quiet_raise {A} : quiet (@raise A).
Proof. by intros st. Qed.

Lemma quiet_bind {A B} (m : M A) (f : A → M B) :
  quiet m → (∀ a, quiet (f a)) → quiet (bind m f).
Proof.
  intros Hm Hf st. unfold bind. specialize (Hm st).
  destruct (m st) as [[a|] st1]; cbn [snd] in *; [|done].
  destruct (Hf a st1) as [-> ->]. done.
Qed.

Lemma quiet_try_except {A} (body handler : M A) :
  quiet body → quiet handler → quiet (try_except body handler).
Proof.
  intros Hb Hh st. unfold try_except. specialize (Hb st).
  destruct (body st) as [[a|] st1]; cbn [snd] in *; [done|].
  destruct (Hh st1) as [-> ->]. done.
Qed.

Lemma quiet_get_world : quiet get_world.
Proof. by intros st. Qed.

Lemma quiet_with_world f : quiet (with_world f).
Proof. by intros st. Qed.

Lemma quiet_datetime_now : quiet datetime_now.
Proof. by intros st. Qed.

Lemma quiet_if {A} (b : bool) (m1 m2 : M A) :
  quiet m1 → quiet m2 → quiet (if b then m1 else m2).
Proof. by destruct b. Qed.

Create HintDb quiet.
#[local] Hint Resolve quiet_ret quiet_raise quiet_get_world quiet_with_world
  quiet_datetime_now : quiet.
#[local] Hint Extern 2 (quiet (bind _ _)) =>
  apply quiet_bind; [|intros ?] : quiet.
#[local] Hint Extern 2 (quiet (try_except _ _)) =>
  apply quiet_try_except : quiet.
#[local] Hint Extern 2 (quiet (if _ then _ else _)) => apply quiet_if : quiet.
#[local] Hint Extern 3 (quiet (match ?x with _ => _ end)) =>
  destruct x : quiet.

Lemma quiet_load_sessions : quiet load_sessions.
Proof.
  unfold load_sessions, os_path_exists, json_load, time_time, os_rename.
  auto 20 with quiet.
Qed.

Lemma quiet_save_sessions m : quiet (save_sessions m).
Proof.
  unfold save_sessions, json_dump, os_rename. auto 20 with quiet.
Qed.

#[local] Hint Resolve quiet_load_sessions quiet_save_sessions : quiet.

(** The store always loads: a mapping comes back whatever the file holds. *)
Lemma load_sessions_total st :
  ∃ m st', load_sessions st = (Some m, st')
           ∧ user_data st' = user_data st ∧ trace st' = trace st.
Proof.
  destruct (files (world st) !! SESSIONS_FILE) as [[m|raw]|] eqn:Hfile.
  - exists m, st. by rewrite (load_sessions_valid _ _ Hfile).
  - eexists _, _. by rewrite (load_sessions_corrupt _ _ Hfile).
  - exists ∅, st. by rewrite (load_sessions_missing _ Hfile).
Qed.

(** The general-purpose rate check always lets the message through. *)
Lemma check_user_rate_limit_general st user_id :
  ∃ st', check_user_rate_limit user_id "general" st = (Some true, st')
         ∧ user_data st' = user_data st ∧ trace st' = trace st.
Proof.
  destruct (load_sessions_total st) as (m & st1 & Hload & Hud & Htr).
  unfold check_user_rate_limit. rewrite (bind_run _ _ _ _ _ Hload).
  unfold bind, datetime_now, ret. cbn [String.eqb Ascii.eqb Bool.eqb].
  destruct (m !! user_key user_id); eexists; (split; [reflexivity|done]).
Qed.

(** ** Wallet creation *)

Lemma found_chr_cons p c s :
  found (Chr p) (c :: s) = p c || found (Chr p) s.
Proof.
  unfold found. cbn [re_search]. unfold re_match at 1. cbn [rmatch].
  by destruct (p c).
Qed.

Lemma found_chr_false p s :
  Forall (λ c, p c = false) s → found (Chr p) s = false.
Proof.
  induction 1 as [|c s Hc _ IH]; [done|].
  by rewrite found_chr_cons, Hc, IH.
Qed.

Lemma found_chr_true p s :
  found (Chr p) s = true → Exists (λ c, p c = true) s.
Proof.
  induction s as [|c s IH]; [done|]. rewrite found_chr_cons.
  destruct (p c) eqn:Hc; [by left|]. intros H. right. by apply IH.
Qed.

Lemma weak_password_turned_down env user_id password st :
  weak_password password →
  ∃ r, is_error r = true
       ∧ handle_wallet_creation_password env user_id password st
         = (Some (), add_reply r st).
Proof.
  intros Hweak. unfold handle_wallet_creation_password.
  destruct (length password <? 8)%nat eqn:Hlen;
    [by exists PasswordTooShort|].
  apply Nat.ltb_ge in Hlen.
  destruct Hweak as [Hshort|[Hletter|Hdigit]]; [lia| |].
  - rewrite (found_chr_false _ _ Hletter).
    by exists PasswordNeedsLettersAndNumbers.
  - rewrite (found_chr_false _ _ Hdigit), orb_true_r.
    by exists PasswordNeedsLettersAndNumbers.
Qed.

Lemma found_chr_false_inv p s :
  found (Chr p) s = false → Forall (λ c, p c = false) s.
Proof.
  induction s as [|c s IH]; [done|]. rewrite found_chr_cons.
  intros [Hc Hs]%orb_false_elim. constructor; [done|by apply IH].
Qed.

Lemma strong_or_weak password :
  weak_password password
  ∨ ((8 ≤ length password)%nat
     ∧ Exists (λ c, ascii_isalpha c = true) password
     ∧ Exists (λ c, cat_digit c = true) password).
Proof.
  destruct (length password <? 8)%nat eqn:Hlen;
    [left; left; by apply Nat.ltb_lt|].
  apply Nat.ltb_ge in Hlen.
  destruct (found (Chr ascii_isalpha) password) eqn:Hletter;
    [|left; right; left; by apply found_chr_false_inv].
  destruct (found (Chr cat_digit) password) eqn:Hdigit;
    [|left; right; right; by apply found_chr_false_inv].
  right. split; [done|]. split; by apply found_chr_true.
Qed.

(** How a message is routed while a conversation is under way. *)
Lemma handle_conversation_state_routes env user_id text st :
  sanitize_input text ≠ [] →
  (default 0 (failed_attempts (user_data st)) < MAX_PASSWORD_ATTEMPTS)%Z →
  handle_conversation_state env user_id text st =
    let ud := user_data st in
    let message_text := sanitize_input text in
    (if state_is ud "creating_wallet" then
       handle_wallet_creation_password env user_id message_text
     else if state_is ud "connecting_wallet" then
       handle_mnemonic_input message_text
     else if state_is ud "connecting_password" then
       handle_connection_password env user_id message_text
     else if state_is ud "transaction_password" then
       handle_transaction_password env message_text
     else user_data_clear ;; reply_text InvalidState) st.
Proof.
  intros Htext Hfailed. unfold handle_conversation_state.
  unfold bind at 1. unfold get_user_data at 1.
  destruct (sanitize_input text) as [|c s] eqn:E; [done|].
  cbn [is_nil].
  replace (MAX_PASSWORD_ATTEMPTS <=? _)%Z with false
    by (symmetry; apply Z.leb_gt; exact Hfailed).
  done.
Qed.

Lemma handle_conversation_state_blank env user_id text st :
  sanitize_input text = [] →
  handle_conversation_state env user_id text st
  = (Some (), add_reply InvalidInput st).
Proof.
  intros E. unfold handle_conversation_state.
  unfold bind at 1. unfold get_user_data at 1. by rewrite E.
Qed.

(** C10. While a wallet is being created, a message whose sanitized text is
    shorter than 8 characters, or has no letter [A-Za-z], or has no decimal
    digit, gets an error reply and nothing else happens: no collaborator is
    called, the files and the conversation context (and so the state) stay
    as they were. A call of the wallet's [create_wallet] during the message
    means the text had the length, a letter and a digit. *)
Theorem creating_wallet_weak_password env user_id text st :
  state (user_data st) = Some "creating_wallet"%string →
  (default 0 (failed_attempts (user_data st)) < MAX_PASSWORD_ATTEMPTS)%Z →
  let password := sanitize_input text in
  let after := snd (handle_conversation_state env user_id text st) in
  (weak_password password →
   ∃ r, is_error r = true
        ∧ handle_conversation_state env user_id text st
          = (Some (), add_reply r st))
  ∧ (Called WalletCreate ∈ drop (length (trace st)) (trace after) →
     (8 ≤ length password)%nat
     ∧ Exists (λ c, ascii_isalpha c = true) password
     ∧ Exists (λ c, cat_digit c = true) password).
Proof.
  intros Hstate Hfailed password after.
  assert (Hweak : weak_password password →
    ∃ r, is_error r = true
         ∧ handle_conversation_state env user_id text st
           = (Some (), add_reply r st)).
  { intros Hweak. destruct (sanitize_input text) as [|c s] eqn:E.
    - exists InvalidInput. split; [done|].
      by apply handle_conversation_state_blank.
    - rewrite handle_conversation_state_routes by (done || congruence).
      cbv zeta. unfold state_is. rewrite Hstate. cbn [String.eqb Ascii.eqb Bool.eqb].
      rewrite E. by apply weak_password_turned_down. }
  split; [exact Hweak|]. intros Hcall.
  destruct (strong_or_weak password) as [Hw|Hs]; [|exact Hs].
  exfalso. destruct (Hweak Hw) as (r & _ & Hrun).
  subst after. rewrite Hrun in Hcall. cbn in Hcall.
  rewrite drop_app_length in Hcall.
  apply list_elem_of_singleton in Hcall. discriminate.
Qed.

(** ** Password confirmation *)

Lemma handle_transaction_password_wrong env password st txn :
  pending_txn (user_data st) = Some txn →
  sign_transaction env txn password = None →
  handle_transaction_password env password st =
    (Some (),
     if (MAX_PASSWORD_ATTEMPTS <=? next_failure (user_data st))%Z
     then add_events [Called WalletSign; Security "TRANSACTION_SIGN_FAILED";
                      Replied TooManyFailedPasswordAttempts]
                     user_data_empty st
     else add_events [Called WalletSign; Security "TRANSACTION_SIGN_FAILED";
                      Replied (IncorrectPassword
                                 (MAX_PASSWORD_ATTEMPTS
                                  - next_failure (user_data st)))]
                     (set_failed_attempts (next_failure (user_data st))
                                          (user_data st)) st).
Proof.
  intros Hpending Hsign. unfold handle_transaction_password. unfold_monad.
  rewrite Hpending. cbv beta iota. rewrite Hsign. cbv beta iota.
  cbn [world user_data trace]. fold (next_failure (user_data st)).
  destruct (MAX_PASSWORD_ATTEMPTS <=? next_failure (user_data st))%Z;
    cbv beta iota; cbn [world user_data trace];
    unfold add_events; by rewrite <- !app_assoc.
Qed.


(** A message that arrives in the middle of a conversation goes to the
    state's handler; on the way only the store and the clock are read. *)
Lemma handle_message_in_conversation env user_id text st :
  sanitize_input text ≠ [] →
  in_conversation (user_data st) = true →
  ∃ st0, user_data st0 = user_data st ∧ trace st0 = trace st
         ∧ handle_message env user_id text st
           = handle_conversation_state env user_id text st0.
Proof.
  intros Htext Hconv. unfold handle_message.
  destruct (sanitize_input text) as [|c s] eqn:E; [done|]. cbn [is_nil].
  destruct (check_user_rate_limit_general st user_id)
    as (st0 & Hcheck & Hud & Htr).
  rewrite (bind_run _ _ _ _ _ Hcheck). cbn [negb].
  unfold bind at 1. unfold get_user_data at 1. rewrite Hud, Hconv.
  by exists st0.
Qed.





(** ** Validation failures *)

(** C3, as the handlers have it. A message that fails its state's
    validation gets an error reply in each of the three states. While a
    wallet is created (weak password) or connected (mnemonic not of 25
    words) nothing else changes: the state and the failure count are as
    before. During password confirmation a password the signer turns down
    raises the failure count by exactly one, and the state is kept while the
    new count is below the limit of three. *)
Theorem validation_failure_feedback env user_id text st :
  let message_text := sanitize_input text in
  let ud := user_data st in
  message_text ≠ [] →
  (default 0 (failed_attempts ud) < MAX_PASSWORD_ATTEMPTS)%Z →
  (state ud = Some "creating_wallet"%string →
   weak_password message_text →
   ∃ r, is_error r = true
        ∧ handle_conversation_state env user_id text st
          = (Some (), add_reply r st))
  ∧ (state ud = Some "connecting_wallet"%string →
     length (split (strip message_text)) ≠ 25%nat →
     is_error InvalidMnemonic = true
     ∧ handle_conversation_state env user_id text st
       = (Some (), add_reply InvalidMnemonic st))
  ∧ (state ud = Some password_state →
     ∀ txn, pending_txn ud = Some txn →
     sign_transaction env txn message_text = None →
     (next_failure ud < MAX_PASSWORD_ATTEMPTS)%Z →
     ∃ st' r,
       handle_conversation_state env user_id text st = (Some (), st')
       ∧ state (user_data st') = state ud
       ∧ default 0%Z (failed_attempts (user_data st'))
         = (default 0 (failed_attempts ud) + 1)%Z
       ∧ is_error r = true
       ∧ trace st' = trace st ++ [Called WalletSign;
                                  Security "TRANSACTION_SIGN_FAILED";
                                  Replied r]).
Proof.
  intros message_text ud Htext Hfailed.
  pose proof (handle_conversation_state_routes env user_id text st
                Htext Hfailed) as Hroute.
  cbv zeta in Hroute. unfold state_is in Hroute. fold ud in Hroute.
  split; [|split].
  - intros Hstate Hweak. rewrite Hroute, Hstate.
    cbn [String.eqb Ascii.eqb Bool.eqb].
    by apply weak_password_turned_down.
  - intros Hstate Hwords. split; [done|]. rewrite Hroute, Hstate.
    cbn [String.eqb Ascii.eqb Bool.eqb].
    unfold handle_mnemonic_input. fold message_text.
    by apply Nat.eqb_neq in Hwords as ->.
  - intros Hstate txn Hpending Hsign Hnext. rewrite Hroute, Hstate.
    cbn [String.eqb Ascii.eqb Bool.eqb password_state].
    unfold message_text in Hsign.
    rewrite (handle_transaction_password_wrong env _ st txn Hpending Hsign).
    fold ud. replace (MAX_PASSWORD_ATTEMPTS <=? next_failure ud)%Z with false
      by (symmetry; by apply Z.leb_gt).
    eexists _, (IncorrectPassword (MAX_PASSWORD_ATTEMPTS - next_failure ud)).
    split; [reflexivity|]. cbn. done.
Qed.

(** ** Balance without a session *)

Lemma stored_session_after_load st user_id :
  stored_session (snd (load_sessions st)) user_id = stored_session st user_id
  ∧ (stored_session st user_id = None →
     ∀ m, fst (load_sessions st) = Some m → m !! user_key user_id = None).
Proof.
  unfold stored_session.
  destruct (files (world st) !! SESSIONS_FILE) as [[m|raw]|] eqn:Hfile.
  - rewrite (load_sessions_valid _ _ Hfile). cbn. rewrite Hfile.
    split; [done|]. by intros ? ? [= <-].
  - rewrite (load_sessions_corrupt _ _ Hfile). cbn.
    rewrite lookup_insert_ne by apply backup_name_fresh.
    rewrite lookup_delete_eq. split; [done|]. by intros _ ? [= <-].
  - rewrite (load_sessions_missing _ Hfile). cbn. rewrite Hfile.
    split; [done|]. by intros _ ? [= <-].
Qed.

Lemma check_user_rate_limit_general_store st user_id :
  ∃ st', check_user_rate_limit user_id "general" st = (Some true, st')
         ∧ user_data st' = user_data st ∧ trace st' = trace st
         ∧ stored_session st' user_id = stored_session st user_id.
Proof.
  destruct (load_sessions_total st) as (m & st1 & Hload & Hud & Htr).
  pose proof (stored_session_after_load st user_id) as [Hstore _].
  rewrite Hload in Hstore. cbn [snd] in Hstore.
  unfold check_user_rate_limit. rewrite (bind_run _ _ _ _ _ Hload).
  unfold bind, datetime_now, ret. cbn [String.eqb Ascii.eqb Bool.eqb].
  destruct (m !! user_key user_id); eexists;
    (split; [reflexivity|]); (split; [done|]); (split; [done|]);
    exact Hstore.
Qed.

Lemma validate_session_without_record st user_id :
  stored_session st user_id = None →
  ∃ st', validate_session user_id st = (Some false, st')
         ∧ user_data st' = user_data st ∧ trace st' = trace st.
Proof.
  intros Hnone.
  destruct (load_sessions_total st) as (m & st1 & Hload & Hud & Htr).
  pose proof (stored_session_after_load st user_id) as [_ Hm].
  specialize (Hm Hnone m). rewrite Hload in Hm. specialize (Hm eq_refl).
  unfold validate_session. rewrite (bind_run _ _ _ _ _ Hload), Hm.
  by exists st1.
Qed.

Lemma sanitize_check_my_balance :
  sanitize_input (PyStr check_my_balance) = check_my_balance.
Proof. vm_compute. reflexivity. Qed.

(** C5, as the pipeline has it. For a user without a session record and
    outside any conversation, the message "check my balance" is first handed
    to the language-understanding collaborator; when that resolves it to the
    balance intent, the only reply is the request to connect a wallet first,
    and no wallet or ledger collaborator is called. *)
Theorem balance_without_session env user_id st parsed :
  in_conversation (user_data st) = false →
  stored_session st user_id = None →
  ai_parse env check_my_balance = Some parsed →
  intent parsed = "balance"%string →
  ∃ st',
    handle_message env user_id (PyStr check_my_balance) st = (Some (), st')
    ∧ trace st' = trace st ++ [Called LanguageUnderstanding;
                               Replied ConnectWalletFirst]
    ∧ user_data st' = user_data st.
Proof.
  intros Hidle Hnone Hai Hintent. unfold handle_message.
  rewrite sanitize_check_my_balance.
  change (is_nil check_my_balance) with false. cbv iota.
  destruct (check_user_rate_limit_general_store st user_id)
    as (st0 & Hcheck & Hud0 & Htr0 & Hstore0).
  rewrite (bind_run _ _ _ _ _ Hcheck). cbn [negb].
  unfold bind at 1. unfold get_user_data at 1. rewrite Hud0, Hidle.
  unfold resolve_intent. rewrite Hai, Hintent.
  cbn [String.eqb Ascii.eqb Bool.eqb].
  unfold bind at 1. unfold bind at 1. unfold emit at 1. cbn [ret].
  cbv beta iota. rewrite Hintent. cbn [String.eqb Ascii.eqb Bool.eqb].
  unfold try_except, handle_balance_check.
  destruct (validate_session_without_record
              (add_events [Called LanguageUnderstanding] (user_data st0) st0)
              user_id) as (st1 & Hvalid & Hud1 & Htr1).
  { rewrite <- Hnone, <- Hstore0. done. }
  unfold add_events in Hvalid.
  rewrite (bind_run _ _ _ _ _ Hvalid). cbn [negb].
  unfold reply_text, emit. eexists. split; [reflexivity|].
  cbn [trace user_data]. rewrite Hud1, Htr1. cbn [trace user_data add_events].
  rewrite Htr0, Hud0, <- app_assoc. done.
Qed.

(** ** The pending transaction and the password state *)

Lemma quiet_keeps {A} (m : M A) : quiet m → keeps m.
Proof. intros H st. apply H. Qed.

Lemma keeps_ret {A} (a : A) : keeps (ret a).
Proof. by intros st. Qed.

Lemma keeps_raise {A} : keeps (@raise A).
Proof. by intros st. Qed.

Lemma keeps_emit e : keeps (emit e).
Proof. by intros st. Qed.

Lemma keeps_bind {A B} (m : M A) (f : A → M B) :
  keeps m → (∀ a, keeps (f a)) → keeps (bind m f).
Proof.
  intros Hm Hf st. unfold bind. specialize (Hm st).
  destruct (m st) as [[a|] st1]; cbn [snd] in *; [|done].
  by rewrite Hf.
Qed.

Lemma keeps_call {A} c (answer : option A) : keeps (call c answer).
Proof. intros st. unfold call, bind, emit. by destruct answer. Qed.

Lemma keeps_get_or_raise {A} (o : option A) : keeps (get_or_raise o).
Proof. intros st. by destruct o. Qed.

Lemma keeps_check_user_rate_limit user_id action :
  keeps (check_user_rate_limit user_id action).
Proof.
  unfold check_user_rate_limit.
  apply keeps_bind; [apply quiet_keeps, quiet_load_sessions|intros m].
  apply keeps_bind; [apply quiet_keeps, quiet_datetime_now|intros now].
  destruct (m !! user_key user_id); [|apply keeps_ret].
  destruct (String.eqb action "transaction"); [|apply keeps_ret].
  destruct (_ <=? _)%nat.
  - apply keeps_bind; [apply keeps_emit|intros _; apply keeps_ret].
  - apply keeps_bind; [apply quiet_keeps, quiet_save_sessions|].
    intros _. apply keeps_ret.
Qed.

Lemma keeps_validate_session user_id : keeps (validate_session user_id).
Proof.
  unfold validate_session.
  apply keeps_bind; [apply quiet_keeps, quiet_load_sessions|intros m].
  destruct (m !! user_key user_id) as [sess|]; [|apply keeps_ret].
  apply keeps_bind.
  - destruct (last_activity sess); [|apply keeps_ret].
    apply keeps_bind; [apply quiet_keeps, quiet_datetime_now|].
    intros now. apply keeps_ret.
  - intros [].
    + apply keeps_bind; [apply keeps_emit|intros _].
      apply keeps_bind; [apply quiet_keeps, quiet_save_sessions|].
      intros _. apply keeps_ret.
    + apply keeps_bind; [apply quiet_keeps, quiet_datetime_now|intros now].
      apply keeps_bind; [apply quiet_keeps, quiet_save_sessions|].
      intros _. apply keeps_ret.
Qed.

Lemma triple_weaken {A} (P P' : UserData → Prop) (m : M A) Q E :
  (∀ ud, P ud → P' ud) → triple P' m Q E → triple P m Q E.
Proof. intros HP H st Hst. by apply H, HP. Qed.

Lemma triple_ret {A} (P : UserData → Prop) (a : A) Q E :
  (∀ ud, P ud → Q a ud) → triple P (ret a) Q E.
Proof. intros H st Hst. by apply H. Qed.

Lemma triple_keeps {A} (P : UserData → Prop) (m : M A) Q E :
  keeps m → (∀ ud, P ud → E ud) → (∀ a ud, P ud → Q a ud) →
  triple P m Q E.
Proof.
  intros Hk HE HQ st Hst. specialize (Hk st).
  destruct (m st) as [[a|] st']; cbn [snd] in Hk; rewrite Hk; auto.
Qed.

Lemma triple_set (P : UserData → Prop) f Q E :
  (∀ ud, P ud → Q () (f ud)) → triple P (with_user_data f) Q E.
Proof. intros H st Hst. by apply H. Qed.

Lemma triple_bind {A B} (P : UserData → Prop) (m : M A) (f : A → M B)
    R Q E :
  triple P m R E → (∀ a, triple (R a) (f a) Q E) →
  triple P (bind m f) Q E.
Proof.
  intros Hm Hf st Hst. unfold bind. specialize (Hm st Hst).
  destruct (m st) as [[a|] st']; [by apply Hf|done].
Qed.

Lemma triple_bind_keeps {A B} (P : UserData → Prop) (m : M A)
    (f : A → M B) Q E :
  keeps m → (∀ ud, P ud → E ud) → (∀ a, triple P (f a) Q E) →
  triple P (bind m f) Q E.
Proof.
  intros Hk HE Hf. apply triple_bind with (R := λ _, P); [|done].
  by apply triple_keeps.
Qed.

Lemma triple_bind_set {B} (P : UserData → Prop) g (f : () → M B) Q E :
  triple (λ ud', ∃ ud, P ud ∧ ud' = g ud) (f ()) Q E →
  triple P (bind (with_user_data g) f) Q E.
Proof.
  intros Hf. apply triple_bind with (R := λ _ ud', ∃ ud, P ud ∧ ud' = g ud).
  - apply triple_set. eauto.
  - by intros [].
Qed.

Lemma triple_bind_get {B} (P : UserData → Prop) (f : UserData → M B) Q E :
  (∀ now, triple (λ ud, P ud ∧ now = ud) (f now) Q E) →
  triple P (bind get_user_data f) Q E.
Proof.
  intros Hf. apply triple_bind with (R := λ now ud, P ud ∧ now = ud);
    [|done].
  intros st Hst. by cbn.
Qed.

Lemma triple_try_except {A} (P : UserData → Prop) (body handler : M A)
    Q E' E :
  triple P body Q E' → triple E' handler Q E →
  triple P (try_except body handler) Q E.
Proof.
  intros Hb Hh st Hst. unfold try_except. specialize (Hb st Hst).
  destruct (body st) as [[a|] st']; [done|by apply Hh].
Qed.

Ltac keeps_auto :=
  lazymatch goal with
  | |- keeps (match ?x with _ => _ end) => destruct x; keeps_auto
  | |- keeps (bind _ _) =>
      apply keeps_bind; [keeps_auto|intros ?; keeps_auto]
  | |- keeps (ret _) => apply keeps_ret
  | |- keeps raise => apply keeps_raise
  | |- keeps (emit _) => apply keeps_emit
  | |- keeps (call _ _) => apply keeps_call
  | |- keeps (get_or_raise _) => apply keeps_get_or_raise
  | |- keeps (validate_session _) => apply keeps_validate_session
  | |- keeps (check_user_rate_limit _ _) =>
      apply keeps_check_user_rate_limit
  | |- keeps load_sessions => apply quiet_keeps, quiet_load_sessions
  | |- keeps (save_sessions _) => apply quiet_keeps, quiet_save_sessions
  | |- keeps datetime_now => apply quiet_keeps, quiet_datetime_now
  end.

(** Side conditions: facts about one context record and its updates. *)
Ltac context_facts :=
  intros;
  repeat match goal with
         | H : ∃ _, _ |- _ => destruct H
         | H : _ ∧ _ |- _ => destruct H
         end;
  subst;
  unfold pending_iff_password, in_conversation, state_is, password_state,
    user_data_empty in *;
  repeat match goal with
         | ud : UserData |- _ => destruct ud as [[?|] ? [?|] ? ?]
         end;
  cbn [state pending_txn failed_attempts transaction_type mnemonic set_state
       set_failed_attempts set_pending_txn set_transaction_type set_mnemonic
       negb] in *;
  repeat match goal with
         | H : String.eqb _ _ = true |- _ => apply String.eqb_eq in H
         | H : negb (String.eqb _ _) = false |- _ =>
             apply negb_false_iff, String.eqb_eq in H
         end;
  subst;
  try (split; intros; try done; try (by eexists); try congruence;
       match goal with
       | H : is_Some None |- _ => by destruct H
       | H : _ ↔ _ |- _ => by (apply H; (done || by eexists))
       | H : _ ↔ _ |- _ =>
           exfalso;
           first [ by (assert (is_Some (@None Txn)) as [? ?];
                       [apply H; done|done])
                 | by (discriminate (proj1 H (ltac:(by eexists)))) ]
       end).

Ltac walk :=
  unfold reply_text, log_security_event, user_data_clear;
  lazymatch goal with
  | |- triple _ (bind (with_user_data _) _) _ _ =>
      apply triple_bind_set; walk
  | |- triple _ (bind get_user_data _) _ _ =>
      apply triple_bind_get; intros ?; walk
  | |- triple _ (bind _ _) _ _ =>
      apply triple_bind_keeps;
      [solve [keeps_auto] | context_facts | intros ?; walk]
  | |- triple _ (try_except _ _) _ _ =>
      apply triple_try_except with (E' := pending_iff_password); walk
  | |- triple _ (if ?b then _ else _) _ _ => destruct b eqn:?; walk
  | |- triple _ (match ?x with _ => _ end) _ _ => destruct x eqn:?; walk
  | |- triple _ (with_user_data _) _ _ => apply triple_set; context_facts
  | |- triple _ (ret _) _ _ => apply triple_ret; context_facts
  | |- triple _ _ _ _ =>
      apply triple_keeps; [solve [keeps_auto] | context_facts | context_facts]
  end.

Lemma handle_wallet_creation_password_pending env user_id password :
  keeps_pending (handle_wallet_creation_password env user_id password).
Proof. unfold handle_wallet_creation_password. walk. Qed.

Lemma handle_transaction_password_pending env password :
  keeps_pending (handle_transaction_password env password).
Proof. unfold handle_transaction_password. walk. Qed.

Lemma handle_send_transaction_pending env user_id params :
  keeps_pending (handle_send_transaction env user_id params).
Proof. unfold handle_send_transaction. walk. Qed.

Lemma handle_nft_creation_pending env user_id params :
  keeps_pending (handle_nft_creation env user_id params).
Proof. unfold handle_nft_creation. walk. Qed.

Lemma handle_balance_check_pending env user_id :
  keeps_pending (handle_balance_check env user_id).
Proof. unfold handle_balance_check. walk. Qed.

Lemma handle_disconnect_pending user_id :
  keeps_pending (handle_disconnect user_id).
Proof. unfold handle_disconnect. walk. Qed.

Lemma handle_connection_password_pending env user_id password :
  keeps_pending (handle_connection_password env user_id password).
Proof. unfold handle_connection_password. walk. Qed.

(** The mnemonic handler moves on to another state; it keeps the
    property when no transaction is pending. *)
Lemma handle_mnemonic_input_pending mnemonic :
  triple (λ ud, pending_txn ud = None ∧ state ud ≠ Some password_state)
         (handle_mnemonic_input mnemonic)
         (λ _, pending_iff_password) pending_iff_password.
Proof. unfold handle_mnemonic_input. walk. Qed.

Lemma handle_conversation_state_pending env user_id text :
  keeps_pending (handle_conversation_state env user_id text).
Proof.
  unfold handle_conversation_state.
  apply triple_bind_get; intros now.
  destruct (is_nil _); [walk|].
  destruct (_ <=? _)%Z; [walk|].
  destruct (state_is now "creating_wallet") eqn:E1.
  { eapply triple_weaken;
      [|apply handle_wallet_creation_password_pending]. by intros ? [? _]. }
  destruct (state_is now "connecting_wallet") eqn:E2.
  { eapply triple_weaken; [|apply handle_mnemonic_input_pending].
    intros ud [Hud <-]. unfold state_is in E2. unfold pending_iff_password in Hud.
    destruct (state now) as [s|] eqn:Hs; [|done].
    apply String.eqb_eq in E2 as ->. split; [|done].
    destruct (pending_txn now) eqn:Hp; [|done].
    by discriminate (proj1 Hud ltac:(by eexists)). }
  destruct (state_is now "connecting_password") eqn:E3.
  { eapply triple_weaken;
      [|apply handle_connection_password_pending]. by intros ? [? _]. }
  destruct (state_is now "transaction_password") eqn:E4.
  { eapply triple_weaken;
      [|apply handle_transaction_password_pending]. by intros ? [? _]. }
  walk.
Qed.

Lemma handle_message_pending env user_id text :
  keeps_pending (handle_message env user_id text).
Proof.
  unfold handle_message.
  destruct (is_nil _); [walk|].
  apply triple_bind_keeps; [keeps_auto|done|intros allowed].
  destruct (negb allowed); [walk|].
  apply triple_bind_get; intros now.
  destruct (in_conversation now) eqn:Hconv.
  { eapply triple_weaken;
      [|apply handle_conversation_state_pending]. by intros ? [? _]. }
  apply triple_bind_keeps; [|by intros ? [? _]|intros parsed].
  { unfold resolve_intent. keeps_auto. }
  destruct parsed as [parsed|]; [|walk].
  cbv zeta.
  apply triple_try_except with (E' := pending_iff_password); [|walk].
  repeat match goal with
         | |- triple _ (if ?b then _ else _) _ _ => destruct b
         end.
  - walk.
  - walk.
  - eapply triple_weaken; [|apply handle_send_transaction_pending].
    by intros ? [? _].
  - eapply triple_weaken; [|apply handle_nft_creation_pending].
    by intros ? [? _].
  - eapply triple_weaken; [|apply handle_disconnect_pending].
    by intros ? [? _].
  - eapply triple_weaken; [|apply handle_balance_check_pending].
    by intros ? [? _].
  - walk.
Qed.

(** C2. In every reachable conversation context a pending unsigned
    transaction is held if and only if the state is the
    password-confirmation state. *)
Theorem pending_only_in_password_state user_id st :
  reachable user_id st →
  is_Some (pending_txn (user_data st))
  ↔ state (user_data st) = Some "transaction_password"%string.
Proof.
  intros Hreach. change (pending_iff_password (user_data st)).
  induction Hreach as [w|st env text _ IH|st w _ IH]; [| |exact IH].
  { split; [by intros [? ?]|done]. }
  pose proof (handle_message_pending env user_id text st IH) as H.
  unfold step. by destruct (handle_message env user_id text st) as [[[]|] st'].
Qed.

(** ** How the matcher runs on text of a known shape *)

Lemma rep_chr_stop p lo hi k fuel n s cs :
  match s with
  | [] => True
  | c :: _ => p c = false
  end →
  rep_loop (rmatch (Chr p)) lo hi true k fuel n s cs
  = if (lo <=? n)%nat then k s cs else None.
Proof.
  intros Hs. destruct fuel; cbn [rep_loop]; [done|].
  destruct (below n hi); [|done]. cbn [rmatch].
  destruct s as [|c s]; [done|]. by rewrite Hs.
Qed.

Lemma rep_chr_step p lo hi k fuel n c s cs :
  p c = true → below n hi = true →
  rep_loop (rmatch (Chr p)) lo hi true k (S fuel) n (c :: s) cs
  = match rep_loop (rmatch (Chr p)) lo hi true k fuel (S n) s cs with
    | Some x => Some x
    | None => if (lo <=? n)%nat then k (c :: s) cs else None
    end.
Proof.
  intros Hc Hn. cbn [rep_loop rmatch]. rewrite Hn, Hc.
  replace (length s <? length (c :: s))%nat with true
    by (symmetry; apply Nat.ltb_lt; simpl; lia).
  done.
Qed.

(** One character of the class, then one outside it: [p+] and [p{1,n}]
    read exactly the one. *)
Lemma rep_one p hi c d rest cs k :
  p c = true → p d = false → below 0 hi = true →
  rmatch (Rep (Chr p) 1 hi true) (c :: d :: rest) cs k = k (d :: rest) cs.
Proof.
  intros Hc Hd Hhi.
  change (rmatch (Rep (Chr p) 1 hi true) (c :: d :: rest) cs k)
    with (rep_loop (rmatch (Chr p)) 1 hi true k (S (S (length rest))) 0
            (c :: d :: rest) cs).
  rewrite rep_chr_step by done. rewrite rep_chr_stop by done.
  cbn. by destruct (k (d :: rest) cs).
Qed.

(** [p{n}] on [n] characters of the class reads them all. *)
Lemma rep_loop_exact p total k pre : ∀ fuel n rest cs,
  Forall (λ c, p c = true) pre →
  (n + length pre = total)%nat →
  (length (pre ++ rest) ≤ fuel)%nat →
  rep_loop (rmatch (Chr p)) total (Some total) true k fuel n (pre ++ rest) cs
  = k rest cs.
Proof.
  induction pre as [|c pre IH]; intros fuel n rest cs Hall Hn Hfuel.
  - simpl in Hn. rewrite Nat.add_0_r in Hn. subst n. cbn [app].
    destruct fuel; cbn [rep_loop below];
      rewrite ?Nat.ltb_irrefl, Nat.leb_refl; done.
  - apply Forall_cons in Hall as [Hc Hpre]. simpl in Hn, Hfuel.
    destruct fuel as [|fuel]; [lia|]. cbn [app].
    rewrite rep_chr_step.
    + rewrite IH by (done || lia).
      replace (total <=? n)%nat with false
        by (symmetry; apply Nat.leb_gt; lia).
      by destruct (k rest cs).
    + done.
    + cbn. apply Nat.ltb_lt. lia.
Qed.

Lemma rep_exact p total pre rest cs k :
  Forall (λ c, p c = true) pre → length pre = total →
  rmatch (Rep (Chr p) total (Some total) true) (pre ++ rest) cs k
  = k rest cs.
Proof.
  intros Hall Hlen.
  change (rmatch (Rep (Chr p) total (Some total) true) (pre ++ rest) cs k)
    with (rep_loop (rmatch (Chr p)) total (Some total) true k
            (length (pre ++ rest)) 0 (pre ++ rest) cs).
  by apply rep_loop_exact.
Qed.

(** A literal word read off the front of the subject. *)
Lemma rmatch_literals (ps : list (N → bool)) pre rest cs k :
  Forall2 (λ p c, p c = true) ps pre →
  rmatch (seq_of (Chr <$> ps)) (pre ++ rest) cs k = k rest cs.
Proof.
  induction 1 as [|p c ps pre Hc _ IH]; [done|].
  cbn [fmap list_fmap seq_of foldr rmatch app]. rewrite Hc. exact IH.
Qed.

(** A literal word cannot match where one of its characters is nowhere
    to be found. *)
Lemma rmatch_literals_absent (ps : list (N → bool)) q s cs k :
  Exists (λ p, ∀ c, q c = true → p c = false) ps →
  Forall (λ c, q c = true) s →
  rmatch (seq_of (Chr <$> ps)) s cs k = None.
Proof.
  intros Hex. revert s.
  induction Hex as [p ps Hp|p ps _ IH]; intros s Hs;
    cbn [fmap list_fmap seq_of foldr rmatch];
    destruct s as [|c s]; try done;
    apply Forall_cons in Hs as [Hc Hs'].
  - by rewrite (Hp c Hc).
  - destruct (p c); [|done]. by apply IH.
Qed.

Lemma sub_loop_no_match r fuel : ∀ s,
  (∀ s', s' `suffix_of` s → re_match r s' = None) →
  sub_loop r fuel s = s.
Proof.
  induction fuel as [|fuel IH]; intros [|c s] Hnone; cbn [sub_loop];
    try done.
  rewrite (Hnone (c :: s)) by done. f_equal. apply IH.
  intros s' Hs'. apply Hnone. by apply suffix_cons_r.
Qed.

Lemma sub_loop_chr_none p fuel : ∀ s,
  Forall (λ c, p c = false) s → sub_loop (Chr p) fuel s = s.
Proof.
  intros s Hs. apply sub_loop_no_match. intros s' [pre ->].
  apply Forall_app in Hs as [_ Hs].
  unfold re_match. cbn [rmatch]. destruct s' as [|c s']; [done|].
  apply Forall_cons in Hs as [-> _]. done.
Qed.

(** ** Text the sanitizer leaves as it is *)

Ltac char_facts :=
  unfold plain, is_marker, is_control, is_base32, address_char_ci,
    py_isspace, py_tolower, ascii_isspace, ascii_tolower, ascii_isupper,
    ascii_islower, ascii_isalpha, ascii_isdigit, in_range in *;
  repeat match goal with
         | H : _ && _ = true |- _ => apply andb_true_iff in H as [? ?]
         | H : _ || _ = true |- _ => apply orb_true_iff in H as [?|?]
         | H : negb _ = true |- _ => apply negb_true_iff in H
         | H : (_ <=? _) = true |- _ => apply N.leb_le in H
         | H : (_ =? _) = false |- _ => apply N.eqb_neq in H
         end;
  repeat match goal with
         | |- context [N.leb ?a ?b] => destruct (N.leb_spec a b)
         | |- context [N.ltb ?a ?b] => destruct (N.ltb_spec a b)
         | |- context [N.eqb ?a ?b] => destruct (N.eqb_spec a b)
         end;
  cbn in *; try done; try lia.

Lemma base32_plain c : is_base32 c = true → plain c = true.
Proof. intros H. char_facts. Qed.

Lemma base32_not_space c : is_base32 c = true → py_isspace c = false.
Proof. intros H. char_facts. Qed.

Lemma base32_address_char c : is_base32 c = true → address_char_ci c = true.
Proof. intros H. char_facts. Qed.

Lemma rmatch_word_absent w m s cs k :
  m ∈ str w → ascii_isalpha m = false →
  Forall (λ c, (c =? m) = false) s →
  rmatch (word_ci w) s cs k = None.
Proof.
  intros Hm Halpha Hs. unfold word_ci. rewrite list_fmap_compose.
  apply rmatch_literals_absent with (q := λ c, negb (c =? m)).
  - apply Exists_exists. exists (lit_ci m).
    split; [by apply list_elem_of_fmap_2|].
    intros c Hc. unfold lit_ci. rewrite Halpha.
    by apply negb_true_iff in Hc.
  - eapply Forall_impl; [exact Hs|]. intros c ->. done.
Qed.

Lemma plain_lacks m s :
  is_marker m = true → Forall (λ c, plain c = true) s →
  Forall (λ c, (c =? m) = false) s.
Proof.
  intros Hm Hs. eapply Forall_impl; [exact Hs|]. intros c Hc.
  destruct (N.eqb_spec c m) as [->|]; [|done].
  unfold plain in Hc. rewrite Hm in Hc. by rewrite andb_false_r in Hc.
Qed.

Lemma dangerous_patterns_absent s :
  Forall (λ c, plain c = true) s →
  Forall (λ r, re_match r s = None) dangerous_patterns.
Proof.
  intros Hs. unfold dangerous_patterns, re_match.
  repeat apply Forall_cons_2; [| | | | | | | |done].
  - cbn [seq_of foldr rmatch].
    apply rmatch_word_absent with (m := 60);
      [set_solver|done|by apply plain_lacks].
  - apply rmatch_word_absent with (m := 58);
      [set_solver|done|by apply plain_lacks].
  - apply rmatch_word_absent with (m := 58);
      [set_solver|done|by apply plain_lacks].
  - apply rmatch_word_absent with (m := 58);
      [set_solver|done|by apply plain_lacks].
  - apply rmatch_word_absent with (m := 61);
      [set_solver|done|by apply plain_lacks].
  - apply rmatch_word_absent with (m := 61);
      [set_solver|done|by apply plain_lacks].
  - apply rmatch_word_absent with (m := 40);
      [set_solver|done|by apply plain_lacks].
  - apply rmatch_word_absent with (m := 40);
      [set_solver|done|by apply plain_lacks].
Qed.

Lemma sanitize_input_plain s :
  s ≠ [] → (length s ≤ MAX_MESSAGE_LENGTH)%nat →
  Forall (λ c, plain c = true) s →
  strip s = s →
  sanitize_input (PyStr s) = s.
Proof.
  intros Hne Hlen Hplain Hstrip.
  destruct s as [|c0 s0] eqn:Hs; [done|]. rewrite <- Hs in *.
  cbn [sanitize_input]. unfold re_sub_empty at 2.
  rewrite sub_loop_chr_none
    by (eapply Forall_impl; [exact Hplain|]; intros c Hc;
        unfold plain in Hc;
        by apply andb_true_iff in Hc as [?%negb_true_iff _]).
  rewrite take_ge by done.
  assert (Hfold : ∀ patterns,
    Forall (λ r, ∀ s', s' `suffix_of` s → re_match r s' = None) patterns →
    foldl (λ acc pattern, re_sub_empty pattern acc) s patterns = s).
  { induction patterns as [|r rs IH]; intros Hrs; [done|].
    apply Forall_cons in Hrs as [Hr Hrs]. cbn [foldl].
    unfold re_sub_empty at 2. rewrite sub_loop_no_match by done.
    by apply IH. }
  rewrite Hfold; [rewrite Hstrip; by rewrite Hs|].
  apply Forall_forall. intros r Hr s' [pre Hpre].
  assert (Hplain' : Forall (λ c, plain c = true) s').
  { rewrite Hpre in Hplain. by apply Forall_app in Hplain as [_ ?]. }
  pose proof (dangerous_patterns_absent s' Hplain') as Hall.
  rewrite Forall_forall in Hall. by apply Hall.
Qed.

(** ** Addresses *)

Lemma rep_loop_chr_reads p lo hi greedy k : ∀ fuel n s cs res,
  rep_loop (rmatch (Chr p)) lo hi greedy k fuel n s cs = Some res →
  ∃ pre rest,
    s = pre ++ rest ∧ Forall (λ c, p c = true) pre
    ∧ (lo ≤ n + length pre)%nat ∧ k rest cs = Some res.
Proof.
  induction fuel as [|fuel IH]; intros n s cs res; cbn [rep_loop]; cbv zeta.
  - destruct greedy, (lo <=? n)%nat eqn:Hlo; intros H; try discriminate;
      apply Nat.leb_le in Hlo; exists [], s; cbn;
      (split; [done|]); (split; [done|]); (split; [lia|]); [done|].
    by destruct (k s cs).
  - assert (Hstop : ∀ res',
      (if (lo <=? n)%nat then k s cs else None) = Some res' →
      ∃ pre rest, s = pre ++ rest ∧ Forall (λ c, p c = true) pre
                  ∧ (lo ≤ n + length pre)%nat ∧ k rest cs = Some res').
    { intros res' H. destruct (lo <=? n)%nat eqn:Hlo; [|discriminate].
      apply Nat.leb_le in Hlo. exists [], s. cbn.
      split; [done|]. split; [done|]. split; [lia|done]. }
    assert (Hmore : ∀ res',
      (if below n hi
       then rmatch (Chr p) s cs (λ s' cs',
              if (length s' <? length s)%nat
              then rep_loop (rmatch (Chr p)) lo hi greedy k fuel (S n) s' cs'
              else None)
       else None) = Some res' →
      ∃ pre rest, s = pre ++ rest ∧ Forall (λ c, p c = true) pre
                  ∧ (lo ≤ n + length pre)%nat ∧ k rest cs = Some res').
    { intros res' H. destruct (below n hi); [|discriminate].
      cbn [rmatch] in H. destruct s as [|c s]; [discriminate|].
      destruct (p c) eqn:Hc; [|discriminate].
      destruct (length s <? length (c :: s))%nat; [|discriminate].
      apply IH in H as (pre & rest & -> & Hpre & Hlo & Hk).
      exists (c :: pre), rest. cbn.
      split; [done|]. split; [by constructor|]. split; [lia|done]. }
    destruct greedy.
    + destruct (if below n hi then _ else None) as [r1|] eqn:E1.
      * intros [= <-]. by apply Hmore.
      * apply Hstop.
    + destruct (if (lo <=? n)%nat then _ else None) as [r1|] eqn:E1.
      * intros [= <-]. by apply Hstop.
      * apply Hmore.
Qed.

(** An address passes exactly when it is 58 characters of [A-Z2-7]. *)
Lemma validate_algorand_address_spec a :
  validate_algorand_address (PyStr a) = true
  ↔ length a = 58%nat ∧ Forall (λ c, is_base32 c = true) a.
Proof.
  split.
  - unfold validate_algorand_address. destruct a as [|c a]; [done|].
    destruct (length (c :: a) =? 58)%nat eqn:Hlen; [|done].
    apply Nat.eqb_eq in Hlen. cbn [negb].
    destruct (re_match _ _) as [res|] eqn:Hm; [|done]. intros _.
    unfold re_match in Hm. cbn [rmatch] in Hm.
    apply rep_loop_chr_reads in Hm
      as (pre & rest & Hsplit & Hpre & Hlo & Hk).
    assert (rest = []) as ->.
    { pose proof (f_equal length Hsplit) as Hl.
      rewrite length_app, Hlen in Hl.
      destruct rest; [done|]. simpl in Hl, Hlo. lia. }
    rewrite app_nil_r in Hsplit. split; [exact Hlen|].
    by rewrite Hsplit.
  - intros [Hlen Hall]. unfold validate_algorand_address.
    destruct a as [|c a]; [done|]. rewrite Hlen. cbn [Nat.eqb negb].
    unfold re_match.
    change (rmatch (Seq ?r Eol) ?s [] accept)
      with (rmatch r s [] (λ s' cs', rmatch Eol s' cs' accept)).
    rewrite <- (app_nil_r (c :: a)). by rewrite rep_exact.
Qed.

Lemma strip_unchanged s :
  match s with
  | c :: _ => py_isspace c = false
  | [] => True
  end →
  match rev s with
  | c :: _ => py_isspace c = false
  | [] => True
  end →
  strip s = s.
Proof.
  intros Hhead Hlast. unfold strip, rstrip, lstrip.
  assert (Hdrop : ∀ l,
    match l with c :: _ => py_isspace c = false | [] => True end →
    drop_while py_isspace l = l).
  { intros [|c l] H; [done|]. cbn. by rewrite H. }
  rewrite (Hdrop s Hhead), (Hdrop (rev s) Hlast). apply rev_involutive.
Qed.

Lemma ends_not_space pre a :
  a ≠ [] → Forall (λ c, is_base32 c = true) a →
  match rev (pre ++ a) with
  | c :: _ => py_isspace c = false
  | [] => True
  end.
Proof.
  intros Hne Hall. rewrite rev_app_distr.
  destruct (rev a) as [|c l] eqn:Hrev.
  - apply (f_equal (@rev N)) in Hrev. rewrite rev_involutive in Hrev.
    by destruct Hne.
  - cbn. apply base32_not_space.
    apply Forall_rev in Hall. rewrite Hrev in Hall.
    by apply Forall_cons in Hall as [? _].
Qed.

(** ** The transfer pattern on a well-formed request *)

Lemma rmatch_word w pre rest cs k :
  Forall2 (λ p c, lit_ci p c = true) (str w) pre →
  rmatch (word_ci w) (pre ++ rest) cs k = k rest cs.
Proof.
  intros H. unfold word_ci. rewrite list_fmap_compose.
  apply rmatch_literals. by apply Forall2_fmap_l.
Qed.

Lemma rep_exact_all p total pre cs k :
  Forall (λ c, p c = true) pre → length pre = total →
  rmatch (Rep (Chr p) total (Some total) true) pre cs k = k [] cs.
Proof.
  intros Hall Hlen. rewrite <- (app_nil_r pre) at 1. by apply rep_exact.
Qed.

(** Reads the literal word [w], [n] characters long, off the subject. *)
Ltac read_word w n :=
  match goal with
  | |- context [rmatch (word_ci w) ?s ?cs ?k] =>
      replace (rmatch (word_ci w) s cs k) with (k (drop n s) cs)
        by (symmetry; apply (rmatch_word w (take n s) (drop n s) cs k);
            repeat constructor)
  end;
  cbn [drop]; cbv beta.

(** Reads one character of a class that the next character is not in. *)
Ltac read_one :=
  match goal with
  | |- context [rmatch (Rep (Chr ?p) 1 ?hi true) (?c :: ?d :: ?rest) ?cs ?k] =>
      rewrite (rep_one p hi c d rest cs k) by done
  end;
  cbv beta.

Lemma rmatch_Seq r1 r2 s cs k :
  rmatch (Seq r1 r2) s cs k
  = rmatch r1 s cs (λ s' cs', rmatch r2 s' cs' k).
Proof. done. Qed.

Lemma rmatch_Alt r1 r2 s cs k :
  rmatch (Alt r1 r2) s cs k
  = match rmatch r1 s cs k with
    | Some x => Some x
    | None => rmatch r2 s cs k
    end.
Proof. done. Qed.

Lemma rmatch_Grp name r s cs k :
  rmatch (Grp name r) s cs k
  = rmatch r s cs
      (λ s' cs', k s' ((name, take (length s - length s') s) :: cs')).
Proof. done. Qed.

Lemma rmatch_Eps s cs k : rmatch Eps s cs k = k s cs.
Proof. done. Qed.

Ltac open_regex :=
  repeat first [ rewrite rmatch_Seq | rewrite rmatch_Grp
               | rewrite rmatch_Alt | rewrite rmatch_Eps ].

Lemma send_pattern_reads addr :
  length addr = 58%nat → Forall (λ c, is_base32 c = true) addr →
  re_search send_pattern (str "send 5 algo to " ++ addr)
  = Some ([], [("address"%string, addr); ("amount"%string, str "5");
               ("1"%string, str "send")]).
Proof.
  intros Hlen Hall. destruct addr as [|a1 addr]; [discriminate|].
  pose proof (base32_address_char) as Hchar.
  pose proof (Forall_impl _ _ _ Hall Hchar) as Hall'.
  apply Forall_cons in Hall as [Ha1 Hall].
  pose proof (base32_not_space a1 Ha1) as Hspace.
  injection Hlen as Hlen.
  change (str "send 5 algo to " ++ a1 :: addr)
    with ([115; 101; 110; 100; 32; 53; 32; 97; 108; 103; 111; 32; 116; 111; 32]
          ++ a1 :: addr).
  cbn [app re_search].
  assert (Hm : re_match send_pattern
     (115 :: 101 :: 110 :: 100 :: 32 :: 53 :: 32 :: 97 :: 108 :: 103 :: 111
      :: 32 :: 116 :: 111 :: 32 :: a1 :: addr)
     = Some ([], [("address"%string, a1 :: addr); ("amount"%string, str "5");
               ("1"%string, str "send")])); [|by rewrite Hm].
  unfold re_match, send_pattern, seq_of. cbn [foldr].
  unfold verbs. open_regex. read_word "send"%string 4%nat.
  unfold space1. open_regex. read_one.
  unfold amount_group. open_regex. read_one.
  open_regex. read_one. open_regex. read_word "algo"%string 4%nat. open_regex. read_one.
  open_regex. read_word "to"%string 2%nat. open_regex.
  rewrite (rep_one cat_space None 32 a1 addr) by done. cbv beta.
  unfold address_group. open_regex.
  rewrite rep_exact_all by (done || (simpl; by rewrite Hlen)).
  cbn [length]. rewrite Hlen. cbn [Nat.sub take str].
  rewrite take_ge by lia. rewrite rmatch_Eps. unfold accept. cbv beta iota.
  reflexivity.
Qed.

Lemma sanitize_send_request addr :
  length addr = 58%nat → Forall (λ c, is_base32 c = true) addr →
  sanitize_input (PyStr (send_request addr)) = send_request addr.
Proof.
  intros Hlen Hall. apply sanitize_input_plain.
  - done.
  - unfold send_request, MAX_MESSAGE_LENGTH. rewrite length_app, Hlen.
    cbn. lia.
  - apply Forall_app. split; [by repeat constructor|].
    eapply Forall_impl; [exact Hall|]. apply base32_plain.
  - apply strip_unchanged; [done|].
    apply ends_not_space; [|done]. by destruct addr.
Qed.

Lemma sanitize_address addr :
  length addr = 58%nat → Forall (λ c, is_base32 c = true) addr →
  sanitize_input (PyStr addr) = addr.
Proof.
  intros Hlen Hall. apply sanitize_input_plain.
  - by destruct addr.
  - unfold MAX_MESSAGE_LENGTH. lia.
  - eapply Forall_impl; [exact Hall|]. apply base32_plain.
  - apply strip_unchanged.
    + destruct addr as [|c addr]; [done|].
      apply Forall_cons in Hall as [Hc _]. by apply base32_not_space.
    + apply (ends_not_space [] addr); [by destruct addr|done].
Qed.

Lemma parse_send_request addr :
  validate_algorand_address (PyStr addr) = true →
  parse_send_command_fallback (PyStr (send_request addr))
  = Some (send_five_to addr).
Proof.
  intros Hvalid.
  pose proof Hvalid as [Hlen Hall]%validate_algorand_address_spec.
  unfold parse_send_command_fallback.
  rewrite sanitize_send_request by done.
  change (is_nil (send_request addr)) with false. cbv iota.
  unfold send_request. rewrite send_pattern_reads by done.
  cbn [group_value group String.eqb Ascii.eqb Bool.eqb].
  rewrite sanitize_address by done. rewrite Hvalid. cbn [negb].
  change (sanitize_input (PyStr (str "5"))) with (str "5").
  done.
Qed.

Lemma parse_send_short :
  parse_send_command_fallback (PyStr send_to_short) = None.
Proof. by vm_compute. Qed.

Lemma parse_nft_short :
  parse_nft_command_fallback (PyStr send_to_short) = None.
Proof. by vm_compute. Qed.

(** ** The token fallback on a transfer request *)

Lemma rmatch_none_by_cont r s cs k :
  (∀ s' cs', s' `suffix_of` s → k s' cs' = None) →
  rmatch r s cs k = None.
Proof.
  intros Hk. destruct (rmatch r s cs k) as [res|] eqn:E; [|done].
  apply rmatch_suffix in E as (s' & cs' & Hs' & E).
  by rewrite Hk in E.
Qed.

Lemma rmatch_word_head w c s cs k :
  match str w with
  | p :: _ => lit_ci p c = false
  | [] => False
  end →
  rmatch (word_ci w) (c :: s) cs k = None.
Proof.
  unfold word_ci. destruct (str w) as [|p ps]; [done|]. intros Hp.
  cbn [fmap list_fmap seq_of foldr rmatch compose]. by rewrite Hp.
Qed.

Lemma calm_suffix s s' : calm s → s' `suffix_of` s → calm s'.
Proof.
  intros Hs [pre ->]. induction pre as [|c pre IH]; [done|].
  apply IH. apply Hs.
Qed.

Lemma calm_address s : Forall (λ c, is_base32 c = true) s → calm s.
Proof.
  induction 1 as [|c s Hc Hs IH]; [done|].
  split; [|done]. right. by constructor.
Qed.

Lemma calm_app pre s :
  Forall no_verb_start pre → calm s → calm (pre ++ s).
Proof.
  induction 1 as [|c pre Hc _ IH]; [done|]. intros Hs.
  split; [by left|by apply IH].
Qed.

Lemma space1_needs_space s cs k :
  match s with
  | [] => True
  | c :: _ => py_isspace c = false
  end →
  rmatch space1 s cs k = None.
Proof.
  intros Hs. unfold space1.
  change (rmatch (Rep (Chr cat_space) 1 None true) s cs k)
    with (rep_loop (rmatch (Chr cat_space)) 1 None true k (length s) 0 s cs).
  by rewrite rep_chr_stop.
Qed.

(** A verb and the white space after it are not to be found in calm text. *)
Lemma verb_phrase_absent r s cs k :
  calm s →
  rmatch (Seq (verbs "create" "mint" "make") (Seq space1 r)) s cs k = None.
Proof.
  intros Hs. rewrite rmatch_Seq. destruct s as [|c s].
  { apply rmatch_none_by_cont. intros s' cs' ->%suffix_nil_inv.
    rewrite rmatch_Seq. by apply space1_needs_space. }
  destruct Hs as [[[Hc Hm]|Hall] _].
  - unfold verbs. rewrite rmatch_Grp, !rmatch_Alt.
    by rewrite !rmatch_word_head.
  - apply rmatch_none_by_cont. intros s' cs' [pre Hpre].
    rewrite rmatch_Seq. apply space1_needs_space.
    rewrite Hpre in Hall. apply Forall_app in Hall as [_ Hall].
    destruct s' as [|c' s']; [done|].
    apply Forall_cons in Hall as [Hc' _]. by apply base32_not_space.
Qed.

Lemma nft_patterns_absent s :
  calm s → Forall (λ r, re_search r s = None) nft_patterns.
Proof.
  intros Hs.
  assert (Hsearch : ∀ r,
    (∀ s', calm s' → re_match r s' = None) → re_search r s = None).
  { intros r Hr. induction s as [|c s IH]; cbn [re_search].
    - by rewrite Hr.
    - rewrite Hr by done. apply IH. apply Hs. }
  unfold nft_patterns, seq_of. cbn [foldr].
  repeat apply Forall_cons_2; [| | |done]; apply Hsearch; intros s' Hs';
    unfold re_match.
  - by apply verb_phrase_absent.
  - rewrite rmatch_Seq. apply rmatch_none_by_cont. intros s2 cs2 Hs2.
    apply verb_phrase_absent. by eapply calm_suffix.
  - by apply verb_phrase_absent.
Qed.

Lemma calm_send_request addr :
  Forall (λ c, is_base32 c = true) addr → calm (send_request addr).
Proof.
  intros Hall. unfold send_request. apply calm_app; [|by apply calm_address].
  repeat constructor.
Qed.

Lemma parse_nft_send_request addr :
  length addr = 58%nat → Forall (λ c, is_base32 c = true) addr →
  parse_nft_command_fallback (PyStr (send_request addr)) = None.
Proof.
  intros Hlen Hall. unfold parse_nft_command_fallback.
  rewrite sanitize_send_request by done.
  change (is_nil (send_request addr)) with false. cbv iota.
  pose proof (nft_patterns_absent _ (calm_send_request addr Hall)) as H.
  unfold nft_patterns in *.
  apply Forall_cons in H as [H1 H]. apply Forall_cons in H as [H2 H].
  apply Forall_cons in H as [H3 _].
  cbn [nft_first_match]. by rewrite H1, H2, H3.
Qed.

(** C6. With the language-understanding collaborator giving no answer,
    "send 5 algo to " followed by an address the validator accepts is read
    by the transfer fallback as a send intent with amount 5 and that address
    as recipient, and this is what the resolution step returns;
    "send 5 algo to short" is read by the fallback as nothing, and the
    resolution step returns no intent. *)
Theorem send_fallback_resolves env st :
  (∀ addr,
     validate_algorand_address (PyStr addr) = true →
     ai_parse env (send_request addr) = None →
     parse_send_command_fallback (PyStr (send_request addr))
     = Some (send_five_to addr)
     ∧ resolve_intent env (send_request addr) st
       = (Some (Some (send_five_to addr)), after_resolution st))
  ∧ (ai_parse env send_to_short = None →
     parse_send_command_fallback (PyStr send_to_short) = None
     ∧ resolve_intent env send_to_short st
       = (Some None, after_resolution st)).
Proof.
  split.
  - intros addr Hvalid Hai.
    pose proof Hvalid as [Hlen Hall]%validate_algorand_address_spec.
    split; [by apply parse_send_request|].
    unfold resolve_intent. rewrite Hai.
    rewrite parse_nft_send_request by done.
    by rewrite parse_send_request.
  - intros Hai. split; [apply parse_send_short|].
    unfold resolve_intent. rewrite Hai.
    by rewrite parse_nft_short, parse_send_short.
Qed.

(** ** Further properties of the validators, the store and the policy *)

(** X1. The address validator returns true exactly for a string of 58
    characters, each of them in [A-Z] or [2-7]. *)
Theorem validate_algorand_address_exact address :
  validate_algorand_address address = true
  ↔ ∃ a, address = PyStr a ∧ length a = 58%nat
         ∧ Forall (λ c, is_base32 c = true) a.
Proof.
  destruct address as [| | |a];
    try (split; [done|by intros (? & ? & _)]).
  rewrite validate_algorand_address_spec. split.
  - intros [? ?]. by exists a.
  - by intros (? & [= <-] & ? & ?).
Qed.

(** X2. The amount check lets a finite amount through exactly when it is
    positive and at most 1,000,000. *)
Theorem amount_in_range q :
  amount_out_of_range (Finite q) = false
  ↔ (0 < q)%Q ∧ (q <= 1000000)%Q.
Proof.
  unfold amount_out_of_range, float_le_zero, float_gt.
  rewrite orb_false_iff, negb_false_iff, Qle_bool_iff.
  split.
  - intros [Hpos Hmax]. split; [|exact Hmax].
    apply Qnot_le_lt. intros Hle. apply Qle_bool_iff in Hle. congruence.
  - intros [Hpos Hmax]. split; [|exact Hmax].
    destruct (Qle_bool q 0) eqn:E; [|done].
    apply Qle_bool_iff in E. by apply Qlt_not_le in Hpos.
Qed.

(** X3. What [save_sessions] writes, [load_sessions] reads back, and the
    temporary file is gone. *)
Theorem save_then_load m st :
  ∃ st',
    save_sessions m st = (Some (), st')
    ∧ load_sessions st' = (Some m, st')
    ∧ files (world st') !! (SESSIONS_FILE +:+ ".tmp") = None.
Proof.
  eexists. split; [apply save_sessions_spec|].
  split; [apply load_sessions_valid, saved_lookup|].
  cbn [world files set_files]. unfold saved.
  rewrite lookup_insert_ne by done. apply lookup_delete_eq.
Qed.

Lemma load_sessions_readable st :
  store_readable st →
  ∃ m, load_sessions st = (Some m, st).
Proof.
  intros [Hnone|[m Hfile]].
  - exists ∅. by apply load_sessions_missing.
  - exists m. by apply load_sessions_valid.
Qed.

(** X4. On a readable store (no file, or an object of session records)
    the general-purpose rate check lets the message through: it returns
    true, and but for the one reading of the clock everything is as
    before, the files, the conversation context and the trace. *)
Theorem general_rate_check_permits st user_id :
  store_readable st →
  check_user_rate_limit user_id "general" st = (Some true, tick st).
Proof.
  intros Hst. destruct (load_sessions_readable st Hst) as [m Hload].
  unfold check_user_rate_limit. rewrite (bind_run _ _ _ _ _ Hload).
  unfold bind, datetime_now, ret. cbn [String.eqb Ascii.eqb Bool.eqb].
  by destruct (m !! user_key user_id).
Qed.

(** X5. A session whose last activity lies more than 24 hours back is
    turned away and deleted: [validate_session] returns false and the
    store no longer holds the user's record. *)
Theorem expired_session_deleted st user_id m sess stamp :
  files (world st) !! SESSIONS_FILE = Some (JsonSessions m) →
  m !! user_key user_id = Some sess →
  last_activity sess = Some stamp →
  (hours 24 < clock (world st) (reads (world st)) - stamp)%Z →
  ∃ st',
    validate_session user_id st = (Some false, st')
    ∧ load_sessions st' = (Some (delete (user_key user_id) m), st')
    ∧ stored_session st' user_id = None.
Proof.
  intros Hfile Hm Hstamp Hold. unfold validate_session.
  rewrite (bind_run _ _ _ _ _ (load_sessions_valid _ _ Hfile)).
  rewrite Hm, Hstamp.
  unfold bind at 1. unfold bind at 1. unfold datetime_now at 1.
  cbn [ret world clock reads].
  replace (hours SESSION_TIMEOUT_HOURS <? _)%Z with true
    by (symmetry; apply Z.ltb_lt; exact Hold).
  unfold bind, log_security_event, emit. rewrite save_sessions_spec.
  cbn [ret]. eexists. split; [reflexivity|].
  split; [apply load_sessions_valid, saved_lookup|].
  unfold stored_session. cbn [world files set_files].
  rewrite saved_lookup. apply lookup_delete_eq.
Qed.

(** X6. A message that arrives in a conversation with three failures on
    the count, or in a state the machine does not know, empties the context:
    the machine is idle again and the reply says so. *)
Theorem conversation_forced_reset env user_id text st :
  sanitize_input text ≠ [] →
  ((MAX_PASSWORD_ATTEMPTS ≤ default 0 (failed_attempts (user_data st)))%Z →
   handle_conversation_state env user_id text st
   = (Some (),
      add_events [Security "MAX_ATTEMPTS_EXCEEDED";
                  Replied TooManyFailedAttempts] user_data_empty st))
  ∧ ((default 0 (failed_attempts (user_data st)) < MAX_PASSWORD_ATTEMPTS)%Z →
     state_is (user_data st) "creating_wallet" = false →
     state_is (user_data st) "connecting_wallet" = false →
     state_is (user_data st) "connecting_password" = false →
     state_is (user_data st) "transaction_password" = false →
     handle_conversation_state env user_id text st
     = (Some (), add_events [Replied InvalidState] user_data_empty st)).
Proof.
  intros Htext. split.
  - intros Hfailed. unfold handle_conversation_state.
    unfold bind at 1. unfold get_user_data at 1.
    destruct (sanitize_input text) as [|c s] eqn:E; [done|]. cbn [is_nil].
    replace (MAX_PASSWORD_ATTEMPTS <=? _)%Z with true
      by (symmetry; apply Z.leb_le; exact Hfailed).
    unfold_monad. unfold add_events. by rewrite <- app_assoc.
  - intros Hfailed H1 H2 H3 H4.
    rewrite handle_conversation_state_routes by done.
    cbv zeta. rewrite H1, H2, H3, H4. by unfold_monad.
Qed.

(** ** The shapes of the conversation context *)

Lemma triple_bind_emit {B} (P : UserData → Prop) e (f : () → M B) Q E :
  triple P (f ()) Q E → triple P (bind (emit e) f) Q E.
Proof. intros Hf st Hst. unfold bind, emit. by apply Hf. Qed.

Lemma triple_emit (P : UserData → Prop) e Q E :
  (∀ ud, P ud → Q () ud) → triple P (emit e) Q E.
Proof. intros H st Hst. by apply H. Qed.

(** Side conditions about the shape of one context. *)
Ltac shape_facts :=
  intros;
  repeat match goal with
         | H : ∃ _, _ |- _ => destruct H
         | H : _ ∧ _ |- _ => destruct H
         | H : confirming_shape _ |- _ => destruct H
         end;
  subst;
  try done;
  repeat match goal with
         | H : coherent _ |- _ => inversion H; clear H
         end;
  subst;
  repeat match goal with
         | H : _ ∨ _ |- _ => destruct H
         end;
  subst;
  unfold confirming_shape;
  cbn in *; try discriminate; try done;
  repeat split; try done;
  first [ by constructor | by (constructor; auto) | by eauto 10 ].

Ltac walk_shapes :=
  unfold reply_text, log_security_event, user_data_clear;
  lazymatch goal with
  | |- triple _ (bind (with_user_data _) _) _ _ =>
      apply triple_bind_set; walk_shapes
  | |- triple _ (bind get_user_data _) _ _ =>
      apply triple_bind_get; intros ?; walk_shapes
  | |- triple _ (bind (emit _) _) _ _ =>
      apply triple_bind_emit; walk_shapes
  | |- triple _ (bind _ _) _ _ =>
      apply triple_bind_keeps;
      [solve [keeps_auto] | shape_facts | intros ?; walk_shapes]
  | |- triple ?P (try_except _ _) _ _ =>
      apply triple_try_except with (E' := P); walk_shapes
  | |- triple _ (if ?b then _ else _) _ _ => destruct b eqn:?; walk_shapes
  | |- triple _ (match ?x with _ => _ end) _ _ =>
      destruct x eqn:?; walk_shapes
  | |- triple _ (with_user_data _) _ _ => apply triple_set; shape_facts
  | |- triple _ (emit _) _ _ => apply triple_emit; shape_facts
  | |- triple _ (ret _) _ _ => apply triple_ret; shape_facts
  | |- triple _ _ _ _ =>
      apply triple_keeps; [solve [keeps_auto] | shape_facts | shape_facts]
  end.

Lemma handle_wallet_creation_password_shape env user_id password :
  triple (λ ud, ud = set_state "creating_wallet" user_data_empty)
         (handle_wallet_creation_password env user_id password)
         (λ _, coherent) coherent.
Proof. unfold handle_wallet_creation_password. walk_shapes. Qed.

Lemma handle_mnemonic_input_shape words :
  triple (λ ud, ud = set_state "connecting_wallet" user_data_empty)
         (handle_mnemonic_input words) (λ _, coherent) coherent.
Proof. unfold handle_mnemonic_input. walk_shapes. Qed.

Lemma handle_connection_password_shape env user_id password :
  triple coherent (handle_connection_password env user_id password)
         (λ _, coherent) coherent.
Proof. unfold handle_connection_password. walk_shapes. Qed.

Lemma handle_transaction_password_shape env password :
  triple confirming_shape (handle_transaction_password env password)
         (λ _, coherent) coherent.
Proof. unfold handle_transaction_password. walk_shapes. Qed.

Lemma handle_send_transaction_shape env user_id params :
  triple (λ ud, ud = user_data_empty)
         (handle_send_transaction env user_id params)
         (λ _, coherent) coherent.
Proof. unfold handle_send_transaction. walk_shapes. Qed.

Lemma handle_nft_creation_shape env user_id params :
  triple (λ ud, ud = user_data_empty)
         (handle_nft_creation env user_id params)
         (λ _, coherent) coherent.
Proof. unfold handle_nft_creation. walk_shapes. Qed.

Lemma handle_balance_check_shape env user_id :
  triple coherent (handle_balance_check env user_id)
         (λ _, coherent) coherent.
Proof. unfold handle_balance_check. walk_shapes. Qed.

Lemma handle_disconnect_shape user_id :
  triple coherent (handle_disconnect user_id) (λ _, coherent) coherent.
Proof. unfold handle_disconnect. walk_shapes. Qed.

Lemma handle_conversation_state_shape env user_id text :
  triple coherent (handle_conversation_state env user_id text)
         (λ _, coherent) coherent.
Proof.
  unfold handle_conversation_state.
  apply triple_bind_get; intros now.
  destruct (is_nil _); [walk_shapes|].
  destruct (_ <=? _)%Z; [walk_shapes|].
  destruct (state_is now "creating_wallet") eqn:E1.
  { eapply triple_weaken;
      [|apply handle_wallet_creation_password_shape].
    intros ud [Hud <-]. by destruct Hud. }
  destruct (state_is now "connecting_wallet") eqn:E2.
  { eapply triple_weaken; [|apply handle_mnemonic_input_shape].
    intros ud [Hud <-]. by destruct Hud. }
  destruct (state_is now "connecting_password") eqn:E3.
  { eapply triple_weaken; [|apply handle_connection_password_shape].
    by intros ? [? _]. }
  destruct (state_is now "transaction_password") eqn:E4.
  { eapply triple_weaken; [|apply handle_transaction_password_shape].
    intros ud [Hud <-]. split; [done|]. by destruct Hud. }
  walk_shapes.
Qed.

Lemma coherent_idle_empty ud :
  coherent ud → in_conversation ud = false → ud = user_data_empty.
Proof. by intros [] ?. Qed.

Lemma handle_message_shape env user_id text :
  triple coherent (handle_message env user_id text)
         (λ _, coherent) coherent.
Proof.
  unfold handle_message.
  destruct (is_nil _); [walk_shapes|].
  apply triple_bind_keeps; [keeps_auto|done|intros allowed].
  destruct (negb allowed); [walk_shapes|].
  apply triple_bind_get; intros now.
  destruct (in_conversation now) eqn:Hconv.
  { eapply triple_weaken; [|apply handle_conversation_state_shape].
    by intros ? [? _]. }
  apply triple_weaken with (P' := λ ud, ud = user_data_empty).
  { intros ud [Hud <-]. by apply coherent_idle_empty. }
  apply triple_bind_keeps; [|by intros ? ->; constructor|intros parsed].
  { unfold resolve_intent. keeps_auto. }
  destruct parsed as [parsed|]; [|walk_shapes].
  cbv zeta.
  apply triple_try_except with (E' := coherent); [|walk_shapes].
  repeat match goal with
         | |- triple _ (if ?b then _ else _) _ _ => destruct b
         end.
  - walk_shapes.
  - walk_shapes.
  - apply handle_send_transaction_shape.
  - apply handle_nft_creation_shape.
  - eapply triple_weaken; [|apply handle_disconnect_shape].
    intros ? ->. constructor.
  - eapply triple_weaken; [|apply handle_balance_check_shape].
    intros ? ->. constructor.
  - walk_shapes.
Qed.

Lemma reachable_coherent user_id st :
  reachable user_id st → coherent (user_data st).
Proof.
  induction 1 as [w|st env text _ IH|st w _ IH]; [constructor| |exact IH].
  pose proof (handle_message_shape env user_id text st IH) as H.
  unfold step. by destruct (handle_message env user_id text st) as [[[]|] st'].
Qed.

(** X7. In every reachable conversation context the mnemonic is held if
    and only if the state is [connecting_password]. *)
Theorem mnemonic_only_in_connecting_password user_id st :
  reachable user_id st →
  is_Some (mnemonic (user_data st))
  ↔ state (user_data st) = Some "connecting_password"%string.
Proof.
  intros Hreach. apply reachable_coherent in Hreach.
  destruct Hreach as [| | |words|txn kind failed _ _]; cbn;
    split; intros Hheld; try done; try (by destruct Hheld); by eexists.
Qed.

(** X8. In every reachable conversation context the count of failed
    attempts is below the limit of 3, and a count is on record only in the
    state [transaction_password]. *)
Theorem failed_attempts_below_limit user_id st :
  reachable user_id st →
  (0 ≤ default 0 (failed_attempts (user_data st)) < MAX_PASSWORD_ATTEMPTS)%Z
  ∧ (is_Some (failed_attempts (user_data st)) →
     state (user_data st) = Some "transaction_password"%string).
Proof.
  intros Hreach. apply reachable_coherent in Hreach.
  destruct Hreach as [| | | |txn kind failed Hkind Hfailed]; cbn;
    try (split; [done|by intros [? ?]]).
  split; [|done].
  destruct Hfailed as [->|[->| ->]]; cbn; unfold MAX_PASSWORD_ATTEMPTS; lia.
Qed.

(** X9. In every reachable conversation context the state is absent or one
    of the four conversation states, and a context without a state is
    empty: no transaction, no mnemonic, no count and no kind is left
    behind. *)
Theorem idle_context_is_empty user_id st :
  reachable user_id st →
  (state (user_data st) = None → user_data st = user_data_empty)
  ∧ (∀ name, state (user_data st) = Some name →
       name ∈ ["creating_wallet"; "connecting_wallet";
               "connecting_password"; "transaction_password"]%string).
Proof.
  intros Hreach. apply reachable_coherent in Hreach.
  destruct Hreach as [| | |words|txn kind failed _ _]; cbn;
    (split; [done|]); intros name [= <-]; set_solver.
Qed.

(** ** What a message puts on the trace *)

Lemma emits_at_bind {A B} P (m : M A) (f : A → M B) st :
  emits_at P m st →
  (∀ a st', m st = (Some a, st') → emits_at P (f a) st') →
  emits_at P (bind m f) st.
Proof.
  intros (es1 & Htr1 & Hes1) Hf. unfold emits_at, bind.
  destruct (m st) as [[a|] st'] eqn:E; cbn [snd] in *.
  - destruct (Hf a st' eq_refl) as (es2 & Htr2 & Hes2).
    exists (es1 ++ es2). rewrite Htr2, Htr1, app_assoc.
    split; [done|]. by apply Forall_app.
  - by exists es1.
Qed.

Lemma emits_bind {A B} P (m : M A) (f : A → M B) :
  emits P m → (∀ a, emits P (f a)) → emits P (bind m f).
Proof.
  intros Hm Hf st. apply emits_at_bind; [apply Hm|].
  intros a st' _. apply Hf.
Qed.

Lemma emits_try_except {A} P (body handler : M A) :
  emits P body → emits P handler → emits P (try_except body handler).
Proof.
  intros Hb Hh st. destruct (Hb st) as (es1 & Htr1 & Hes1).
  unfold emits_at, try_except.
  destruct (body st) as [[a|] st'] eqn:E; cbn [snd] in *.
  - by exists es1.
  - destruct (Hh st') as (es2 & Htr2 & Hes2).
    exists (es1 ++ es2). rewrite Htr2, Htr1, app_assoc.
    split; [done|]. by apply Forall_app.
Qed.

Lemma emits_quiet {A} P (m : M A) : quiet m → emits P m.
Proof.
  intros Hq st. exists []. rewrite app_nil_r. split; [apply Hq|constructor].
Qed.

Lemma emits_keeps_trace {A} P (m : M A) :
  (∀ st, trace (snd (m st)) = trace st) → emits P m.
Proof.
  intros Hq st. exists []. rewrite app_nil_r. split; [apply Hq|constructor].
Qed.

Lemma emits_emit (P : Event → Prop) e : P e → emits P (emit e).
Proof.
  intros He st. exists [e]. split; [done|]. by constructor.
Qed.

Lemma emits_call {A} (P : Event → Prop) c (answer : option A) :
  P (Called c) → emits P (call c answer).
Proof.
  intros Hc. unfold call. apply emits_bind; [by apply emits_emit|].
  intros _. destruct answer; by apply emits_keeps_trace.
Qed.

(** Side conditions: one event against the property. *)
Ltac event_fact :=
  unfold not_signing, not_forced_reset, not_reply, not_refusal; cbn beta;
  solve [done | repeat split; done].

Ltac emits_auto :=
  cbv zeta;
  lazymatch goal with
  | |- emits _ (match ?x with _ => _ end) => destruct x; emits_auto
  | |- emits _ (bind _ _) =>
      apply emits_bind; [emits_auto|intros ?; emits_auto]
  | |- emits _ (try_except _ _) => apply emits_try_except; emits_auto
  | |- emits _ (ret _) => by apply emits_keeps_trace
  | |- emits _ raise => by apply emits_keeps_trace
  | |- emits _ (get_or_raise ?o) => apply emits_keeps_trace; by destruct o
  | |- emits _ get_user_data => by apply emits_keeps_trace
  | |- emits _ (with_user_data _) => by apply emits_keeps_trace
  | |- emits _ user_data_clear => by apply emits_keeps_trace
  | |- emits _ (emit _) => apply emits_emit; event_fact
  | |- emits _ (reply_text _) => apply emits_emit; event_fact
  | |- emits _ (log_security_event _) => apply emits_emit; event_fact
  | |- emits _ (call _ _) => apply emits_call; event_fact
  | |- emits _ load_sessions => apply emits_quiet, quiet_load_sessions
  | |- emits _ (save_sessions _) => apply emits_quiet, quiet_save_sessions
  | |- emits _ datetime_now => apply emits_quiet, quiet_datetime_now
  | |- emits _ (validate_session _) => unfold validate_session; emits_auto
  | |- emits _ (check_user_rate_limit _ _) =>
      unfold check_user_rate_limit; emits_auto
  | |- emits _ (handle_wallet_creation_password _ _ _) =>
      unfold handle_wallet_creation_password; emits_auto
  | |- emits _ (handle_mnemonic_input _) =>
      unfold handle_mnemonic_input; emits_auto
  | |- emits _ (handle_connection_password _ _ _) =>
      unfold handle_connection_password; emits_auto
  | |- emits _ (handle_transaction_password _ _) =>
      unfold handle_transaction_password; emits_auto
  | |- emits _ (handle_send_transaction _ _ _) =>
      unfold handle_send_transaction; emits_auto
  | |- emits _ (handle_nft_creation _ _ _) =>
      unfold handle_nft_creation; emits_auto
  | |- emits _ (handle_balance_check _ _) =>
      unfold handle_balance_check; emits_auto
  | |- emits _ (handle_disconnect _) => unfold handle_disconnect; emits_auto
  | |- emits _ (handle_conversation_state _ _ _) =>
      unfold handle_conversation_state; emits_auto
  | |- emits _ (resolve_intent _ _) => unfold resolve_intent; emits_auto
  | |- emits _ (dispatch_idle _ _ _) => unfold dispatch_idle; emits_auto
  end.

(** At one state: the property of every state. *)
Ltac emits_here :=
  lazymatch goal with
  | |- emits_at ?P ?m ?st =>
      let H := fresh in
      assert (emits P m) as H by emits_auto; apply H
  end.

(** A message outside a conversation goes to the intent dispatch. *)
Lemma handle_message_idle env user_id text st :
  sanitize_input text ≠ [] →
  in_conversation (user_data st) = false →
  ∃ st0, user_data st0 = user_data st ∧ trace st0 = trace st
         ∧ handle_message env user_id text st
           = dispatch_idle env user_id (sanitize_input text) st0.
Proof.
  intros Htext Hconv. unfold handle_message.
  destruct (sanitize_input text) as [|c s] eqn:E; [done|]. cbn [is_nil].
  destruct (check_user_rate_limit_general st user_id)
    as (st0 & Hcheck & Hud & Htr).
  rewrite (bind_run _ _ _ _ _ Hcheck). cbn [negb].
  unfold bind at 1. unfold get_user_data at 1. rewrite Hud, Hconv.
  by exists st0.
Qed.

Lemma handle_message_blank env user_id text st :
  sanitize_input text = [] →
  handle_message env user_id text st = (Some (), add_reply InvalidInput st).
Proof. intros E. unfold handle_message. by rewrite E. Qed.

(** X10. A message that arrives during a conversation never reaches the
    language-understanding collaborator. *)
Theorem conversation_skips_language_understanding env user_id text st :
  in_conversation (user_data st) = true →
  ∃ es, trace (step env user_id text st) = trace st ++ es
        ∧ Forall (λ e, e ≠ Called LanguageUnderstanding) es.
Proof.
  intros Hconv. unfold step.
  destruct (sanitize_input text) as [|c s] eqn:E.
  { rewrite handle_message_blank by done. exists [Replied InvalidInput].
    split; [done|]. by constructor. }
  destruct (handle_message_in_conversation env user_id text st)
    as (st0 & Hud & Htr & ->); [by rewrite E|done|].
  rewrite <- Htr.
  change (emits_at (λ e, e ≠ Called LanguageUnderstanding)
            (handle_conversation_state env user_id text) st0).
  emits_here.
Qed.

(** X11. Nothing is signed and nothing is submitted to the ledger by a
    message that does not answer the password prompt: when the state is not
    [transaction_password], the message calls neither the wallet's signing
    nor the ledger's submission. *)
Theorem signing_only_on_password_prompt env user_id text st :
  state (user_data st) ≠ Some "transaction_password"%string →
  ∃ es, trace (step env user_id text st) = trace st ++ es
        ∧ Forall not_signing es.
Proof.
  intros Hstate. unfold step.
  destruct (sanitize_input text) as [|c s] eqn:E.
  { rewrite handle_message_blank by done. exists [Replied InvalidInput].
    split; [done|]. constructor; [by split|constructor]. }
  destruct (in_conversation (user_data st)) eqn:Hconv.
  - destruct (handle_message_in_conversation env user_id text st)
      as (st0 & Hud & Htr & ->); [by rewrite E|done|].
    rewrite <- Htr. rewrite <- Hud in Hstate.
    change (emits_at not_signing
              (handle_conversation_state env user_id text) st0).
    unfold handle_conversation_state.
    apply emits_at_bind; [by exists []; rewrite app_nil_r|].
    intros ud st' [= <- <-].
    destruct (is_nil _); [emits_here|].
    destruct (_ <=? _)%Z; [emits_here|].
    destruct (state_is _ "creating_wallet"); [emits_here|].
    destruct (state_is _ "connecting_wallet"); [emits_here|].
    destruct (state_is _ "connecting_password");
      [emits_here|].
    destruct (state_is _ "transaction_password") eqn:E4;
      [|emits_here].
    unfold state_is in E4. destruct (state (user_data st0)); [|done].
    by apply String.eqb_eq in E4 as ->.
  - destruct (handle_message_idle env user_id text st)
      as (st0 & Hud & Htr & ->); [by rewrite E|done|].
    rewrite <- Htr.
    change (emits_at not_signing
              (dispatch_idle env user_id (sanitize_input text)) st0).
    emits_here.
Qed.

Lemma handle_message_no_forced_reset env user_id text st :
  coherent (user_data st) →
  emits_at not_forced_reset (handle_message env user_id text) st.
Proof.
  intros Hshape.
  destruct (sanitize_input text) as [|c s] eqn:E.
  { unfold emits_at. rewrite handle_message_blank by done.
    exists [Replied InvalidInput].
    split; [done|]. constructor; [by split|constructor]. }
  destruct (in_conversation (user_data st)) eqn:Hconv.
  - destruct (handle_message_in_conversation env user_id text st)
      as (st0 & Hud & Htr & Hrun); [by rewrite E|done|].
    unfold emits_at. rewrite Hrun, <- Htr. rewrite <- Hud in Hshape, Hconv.
    change (emits_at not_forced_reset
              (handle_conversation_state env user_id text) st0).
    unfold handle_conversation_state.
    apply emits_at_bind; [by exists []; rewrite app_nil_r|].
    intros ud st' [= <- <-].
    destruct (is_nil _); [emits_here|].
    destruct Hshape as [| | |words|txn kind failed Hkind Hfailed];
      try done; cbn [failed_attempts set_state user_data_empty default].
    + cbn; emits_here.
    + cbn; emits_here.
    + cbn; emits_here.
    + destruct Hfailed as [->|[->| ->]]; cbn; emits_here.
  - destruct (handle_message_idle env user_id text st)
      as (st0 & Hud & Htr & Hrun); [by rewrite E|done|].
    unfold emits_at. rewrite Hrun, <- Htr.
    change (emits_at not_forced_reset
              (dispatch_idle env user_id (sanitize_input text)) st0).
    emits_here.
Qed.

(** X12. The two replies of a forced reset, "too many failed attempts,
    start over" and "invalid state", are never sent in a conversation that
    starts with an empty context: the count never reaches the limit while it
    is stored, and no other state than the four is ever set. *)
Theorem forced_reset_never_replied user_id st :
  reachable user_id st →
  Forall not_forced_reset (trace st).
Proof.
  intros Hreach.
  induction Hreach as [w|st env text Hreach IH|st w _ IH];
    [constructor| |exact IH].
  destruct (handle_message_no_forced_reset env user_id text st)
    as (es & Htr & Hes); [by apply (reachable_coherent user_id)|].
  unfold step. rewrite Htr. by apply Forall_app.
Qed.

(** ** One reply for every message *)

Lemma replies_app es1 es2 : replies (es1 ++ es2) = replies es1 ++ replies es2.
Proof. apply omap_app. Qed.

Lemma replies_none es : Forall not_reply es → replies es = [].
Proof.
  induction 1 as [|e es He _ IH]; [done|].
  unfold replies in *. cbn. by rewrite He.
Qed.

Lemma tally_silent {A} (m : M A) : emits not_reply m → tally m 0 (Some 0%nat).
Proof.
  intros Hm st. destruct (Hm st) as (es & Htr & Hes). exists es.
  split; [done|]. rewrite replies_none by done. by destruct (fst (m st)).
Qed.

Lemma tally_total {A} (m : M A) :
  emits not_reply m → (∀ st, is_Some (fst (m st))) → tally m 0 None.
Proof.
  intros Hm Htotal st. destruct (Hm st) as (es & Htr & Hes). exists es.
  split; [done|]. rewrite replies_none by done.
  by destruct (Htotal st) as [a ->].
Qed.

Lemma tally_may_raise {A} (m : M A) n k : tally m n None → tally m n (Some k).
Proof.
  intros Hm st. destruct (Hm st) as (es & Htr & Hes). exists es.
  split; [done|]. by destruct (fst (m st)).
Qed.

Lemma tally_reply r raising : tally (reply_text r) 1 raising.
Proof. intros st. by exists [Replied r]. Qed.

(** A silent step, then the rest. *)
Lemma tally_bind_silent {A B} (m : M A) (f : A → M B) n raising :
  tally m 0 raising → (∀ a, tally (f a) n raising) →
  (raising = None ∨ raising = Some 0%nat) →
  tally (bind m f) n raising.
Proof.
  intros Hm Hf Hr st. destruct (Hm st) as (es1 & Htr1 & Hes1).
  unfold bind. destruct (m st) as [[a|] st'] eqn:E; cbn [fst snd] in *.
  - destruct (Hf a st') as (es2 & Htr2 & Hes2). exists (es1 ++ es2).
    rewrite Htr2, Htr1, app_assoc. split; [done|].
    rewrite replies_app, length_app, Hes1.
    destruct (fst (f a st')); [done|].
    by destruct Hr as [-> | ->].
  - by exists es1.
Qed.

(** The step that replies, then a silent rest that never raises. *)
Lemma tally_bind_total {A B} (m : M A) (f : A → M B) n raising :
  tally m n raising → (∀ a, tally (f a) 0 None) →
  tally (bind m f) n raising.
Proof.
  intros Hm Hf st. destruct (Hm st) as (es1 & Htr1 & Hes1).
  unfold bind. destruct (m st) as [[a|] st'] eqn:E; cbn [fst snd] in *.
  - destruct (Hf a st') as (es2 & Htr2 & Hes2). exists (es1 ++ es2).
    rewrite Htr2, Htr1, app_assoc. split; [done|].
    rewrite replies_app, length_app.
    destruct (fst (f a st')); [lia|done].
  - by exists es1.
Qed.

Lemma tally_try_except {A} (body handler : M A) n raising :
  tally body n (Some 0%nat) → tally handler n raising →
  tally (try_except body handler) n raising.
Proof.
  intros Hb Hh st. destruct (Hb st) as (es1 & Htr1 & Hes1).
  unfold try_except.
  destruct (body st) as [[a|] st'] eqn:E; cbn [fst snd] in *.
  - by exists es1.
  - destruct (Hh st') as (es2 & Htr2 & Hes2). exists (es1 ++ es2).
    rewrite Htr2, Htr1, app_assoc. split; [done|].
    rewrite replies_app, length_app, Hes1. done.
Qed.

Lemma total_load_sessions st : is_Some (fst (load_sessions st)).
Proof. destruct (load_sessions_total st) as (m & st' & -> & _). by eexists. Qed.

Lemma total_save_sessions m st : is_Some (fst (save_sessions m st)).
Proof. rewrite save_sessions_spec. by eexists. Qed.

Ltac tally_total_leaf :=
  lazymatch goal with
  | |- tally load_sessions 0 None =>
      apply tally_total; [emits_auto|apply total_load_sessions]
  | |- tally (save_sessions _) 0 None =>
      apply tally_total; [emits_auto|apply total_save_sessions]
  | |- tally _ 0 None =>
      apply tally_total; [emits_auto|intros ?; by eexists]
  end.

Ltac tally_auto :=
  cbv zeta;
  lazymatch goal with
  | |- tally (match ?x with _ => _ end) _ _ => destruct x; tally_auto
  | |- tally (try_except _ _) _ _ => apply tally_try_except; tally_auto
  | |- tally (bind _ _) 0 _ =>
      apply tally_bind_silent;
      [tally_auto | intros ?; tally_auto | by (left + right)]
  | |- tally (bind _ _) _ _ =>
      first [ apply tally_bind_silent;
              [solve [tally_auto] | intros ?; tally_auto
              | by (left + right)]
            | apply tally_bind_total;
              [tally_auto | intros ?; solve [tally_auto]] ]
  | |- tally (reply_text _) 1 _ => apply tally_reply
  | |- tally (validate_session _) _ _ => unfold validate_session; tally_auto
  | |- tally (check_user_rate_limit _ _) _ _ =>
      unfold check_user_rate_limit; tally_auto
  | |- tally (resolve_intent _ _) _ _ => unfold resolve_intent; tally_auto
  | |- tally (handle_wallet_creation_password _ _ _) _ _ =>
      unfold handle_wallet_creation_password; tally_auto
  | |- tally (handle_mnemonic_input _) _ _ =>
      unfold handle_mnemonic_input; tally_auto
  | |- tally (handle_connection_password _ _ _) _ _ =>
      unfold handle_connection_password; tally_auto
  | |- tally (handle_transaction_password _ _) _ _ =>
      unfold handle_transaction_password; tally_auto
  | |- tally (handle_send_transaction _ _ _) _ _ =>
      unfold handle_send_transaction; tally_auto
  | |- tally (handle_nft_creation _ _ _) _ _ =>
      unfold handle_nft_creation; tally_auto
  | |- tally (handle_balance_check _ _) _ _ =>
      unfold handle_balance_check; tally_auto
  | |- tally (handle_disconnect _) _ _ =>
      unfold handle_disconnect; tally_auto
  | |- tally (handle_conversation_state _ _ _) _ _ =>
      unfold handle_conversation_state; tally_auto
  | |- tally _ 0 (Some _) =>
      first [ apply tally_may_raise; tally_total_leaf
            | apply tally_silent; emits_auto ]
  | |- tally _ 0 None => tally_total_leaf
  end.

Lemma handle_message_tally env user_id text :
  tally (handle_message env user_id text) 1 None.
Proof. unfold handle_message. tally_auto. Qed.

(** ** A readable store stays readable *)

Lemma keeps_readable_bind {A B} (m : M A) (f : A → M B) :
  keeps_readable m → (∀ a, keeps_readable (f a)) →
  keeps_readable (bind m f).
Proof.
  intros Hm Hf st Hst. unfold bind. specialize (Hm st Hst).
  destruct (m st) as [[a|] st1]; cbn [snd] in *; [|done].
  by apply Hf.
Qed.

Lemma keeps_readable_try_except {A} (body handler : M A) :
  keeps_readable body → keeps_readable handler →
  keeps_readable (try_except body handler).
Proof.
  intros Hb Hh st Hst. unfold try_except. specialize (Hb st Hst).
  destruct (body st) as [[a|] st1]; cbn [snd] in *; [done|].
  by apply Hh.
Qed.

Lemma keeps_readable_load_sessions : keeps_readable load_sessions.
Proof.
  intros st Hst. destruct (load_sessions_readable st Hst) as [m ->]. done.
Qed.

Lemma keeps_readable_save_sessions m : keeps_readable (save_sessions m).
Proof.
  intros st _. rewrite save_sessions_spec. right. exists m.
  apply saved_lookup.
Qed.

Lemma keeps_readable_call {A} c (answer : option A) :
  keeps_readable (call c answer).
Proof. intros st Hst. unfold call, bind, emit. by destruct answer. Qed.

Lemma keeps_readable_get_or_raise {A} (o : option A) :
  keeps_readable (get_or_raise o).
Proof. intros st Hst. by destruct o. Qed.

Ltac readable_auto :=
  unfold reply_text, log_security_event, user_data_clear;
  lazymatch goal with
  | |- keeps_readable (match ?x with _ => _ end) => destruct x; readable_auto
  | |- keeps_readable (let _ := _ in _) => cbv zeta; readable_auto
  | |- keeps_readable (try_except _ _) =>
      apply keeps_readable_try_except; readable_auto
  | |- keeps_readable (bind _ _) =>
      apply keeps_readable_bind; [readable_auto|intros ?; readable_auto]
  | |- keeps_readable load_sessions => apply keeps_readable_load_sessions
  | |- keeps_readable (save_sessions _) => apply keeps_readable_save_sessions
  | |- keeps_readable (call _ _) => apply keeps_readable_call
  | |- keeps_readable (get_or_raise _) => apply keeps_readable_get_or_raise
  | |- keeps_readable (validate_session _) =>
      unfold validate_session; readable_auto
  | |- keeps_readable (check_user_rate_limit _ _) =>
      unfold check_user_rate_limit; readable_auto
  | |- keeps_readable (resolve_intent _ _) =>
      unfold resolve_intent; readable_auto
  | |- keeps_readable (handle_wallet_creation_password _ _ _) =>
      unfold handle_wallet_creation_password; readable_auto
  | |- keeps_readable (handle_mnemonic_input _) =>
      unfold handle_mnemonic_input; readable_auto
  | |- keeps_readable (handle_connection_password _ _ _) =>
      unfold handle_connection_password; readable_auto
  | |- keeps_readable (handle_transaction_password _ _) =>
      unfold handle_transaction_password; readable_auto
  | |- keeps_readable (handle_send_transaction _ _ _) =>
      unfold handle_send_transaction; readable_auto
  | |- keeps_readable (handle_nft_creation _ _ _) =>
      unfold handle_nft_creation; readable_auto
  | |- keeps_readable (handle_balance_check _ _) =>
      unfold handle_balance_check; readable_auto
  | |- keeps_readable (handle_disconnect _) =>
      unfold handle_disconnect; readable_auto
  | |- keeps_readable (handle_conversation_state _ _ _) =>
      unfold handle_conversation_state; readable_auto
  | |- keeps_readable _ => by intros ? ?
  end.

Lemma handle_message_keeps_readable env user_id text :
  keeps_readable (handle_message env user_id text).
Proof. unfold handle_message. readable_auto. Qed.

(** X13. On a readable store (no file, or an object of session records)
    every message is answered exactly once and [handle_message] ends
    without an exception, whatever the collaborators answer and whichever
    of them raise; and the store is readable again afterwards. *)
Theorem every_message_answered_once env user_id text st :
  store_readable st →
  ∃ st' es r,
    handle_message env user_id text st = (Some (), st')
    ∧ trace st' = trace st ++ es
    ∧ replies es = [r]
    ∧ store_readable st'.
Proof.
  intros Hst.
  pose proof (handle_message_keeps_readable env user_id text st Hst) as Hst'.
  destruct (handle_message_tally env user_id text st) as (es & Htr & Hes).
  destruct (handle_message env user_id text st) as [[[]|] st'];
    cbn [fst snd] in *; [|done].
  destruct (replies es) as [|r [|r' rs]] eqn:E; try done.
  by exists st', es, r.
Qed.

(** ** What the fallback parsers can return *)

Lemma send_fallback_sound_params text parsed :
  parse_send_command_fallback text = Some parsed →
  ∃ amount recipient,
    parameters parsed
    = {| p_amount := Some amount; p_recipient := Some (PyStr recipient);
         p_name := None; p_supply := None; p_description := None |}
    ∧ validate_algorand_address (PyStr recipient) = true
    ∧ amount_out_of_range amount = false.
Proof.
  unfold parse_send_command_fallback.
  destruct (is_nil (sanitize_input text)); [done|].
  destruct (re_search send_pattern (sanitize_input text)) as [[rest cs]|];
    [|done].
  destruct (validate_algorand_address _) eqn:Haddr; [|done]. cbn [negb].
  destruct (py_float _) as [amount|].
  - destruct (amount_out_of_range amount) eqn:Hamount; [done|].
    intros [= <-]. by eexists _, _.
  - destruct (text_to_number py _) as [amount|]; [|done].
    destruct (amount_out_of_range amount) eqn:Hamount; [done|].
    intros [= <-]. by eexists _, _.
Qed.

(** X14. Whatever the transfer fallback returns is a transfer whose
    recipient passes the address validator, so it is 58 characters of
    [A-Z2-7], and whose amount passes the amount check; it carries no other
    parameter. *)
Theorem send_fallback_sound text parsed :
  parse_send_command_fallback text = Some parsed →
  intent parsed = "send_algo"%string
  ∧ ∃ amount recipient,
      parameters parsed
      = {| p_amount := Some amount; p_recipient := Some (PyStr recipient);
           p_name := None; p_supply := None; p_description := None |}
      ∧ length recipient = 58%nat
      ∧ Forall (λ c, is_base32 c = true) recipient
      ∧ amount_out_of_range amount = false.
Proof.
  intros Hparsed.
  destruct (send_fallback_sound_params _ _ Hparsed)
    as (amount & recipient & Hparams & Haddr & Hamount).
  apply validate_algorand_address_spec in Haddr as [Hlen Hchars].
  split; [|by exists amount, recipient].
  unfold parse_send_command_fallback in Hparsed.
  repeat match type of Hparsed with
         | context [match ?x with _ => _ end] => destruct x; try done
         end;
    by injection Hparsed as <-.
Qed.

Lemma drop_while_head p s :
  match drop_while p s with
  | c :: _ => p c = false
  | [] => True
  end.
Proof.
  induction s as [|c s IH]; [done|]. cbn.
  by destruct (p c) eqn:E; [exact IH|].
Qed.

(** What [strip] returns neither starts nor ends with whitespace. *)
Lemma strip_ends s :
  match strip s with
  | c :: _ => py_isspace c = false
  | [] => True
  end
  ∧ match rev (strip s) with
    | c :: _ => py_isspace c = false
    | [] => True
    end.
Proof.
  unfold strip, rstrip, lstrip. split.
  - destruct (drop_while_suffix py_isspace (rev (drop_while py_isspace s)))
      as [pre Hpre].
    apply (f_equal (@rev N)) in Hpre.
    rewrite rev_involutive, rev_app_distr in Hpre.
    pose proof (drop_while_head py_isspace s) as Hhead.
    rewrite Hpre in Hhead.
    by destruct (rev (drop_while py_isspace (rev (drop_while py_isspace s)))).
  - rewrite rev_involutive. apply drop_while_head.
Qed.

Lemma strip_idemp s : strip (strip s) = strip s.
Proof. apply strip_unchanged; apply strip_ends. Qed.

Lemma nft_first_match_sound patterns text parsed :
  nft_first_match patterns text = Some parsed →
  intent parsed = "create_nft"%string
  ∧ ∃ name,
      parameters parsed
      = {| p_amount := None; p_recipient := None;
           p_name := Some (PyStr name); p_supply := Some 1%Z;
           p_description := Some (PyStr []) |}
      ∧ name ≠ []
      ∧ strip name = name.
Proof.
  induction patterns as [|pattern rest IH]; [done|]. cbn [nft_first_match].
  destruct (re_search pattern text) as [[unread cs]|]; [|exact IH].
  destruct (negb _ && _) eqn:Hname; [|exact IH].
  intros [= <-]. split; [done|]. eexists. split; [done|].
  apply andb_true_iff in Hname as [_ Hlen]. apply Nat.ltb_lt in Hlen.
  split.
  - intros Hnil. rewrite Hnil in Hlen. cbn in Hlen. lia.
  - apply strip_idemp.
Qed.

(** ** The matcher accepts only what the pattern describes *)

Lemma rep_loop_sound G (r : regex) lo hi greedy k :
  (∀ s cs k' res, rmatch r s cs k' = Some res →
     ∃ w s' new, s = w ++ s' ∧ lang r w ∧ captures_ok G new
                 ∧ k' s' (new ++ cs) = Some res) →
  ∀ fuel n s cs res,
    match hi with Some h => (n ≤ h)%nat | None => True end →
    rep_loop (rmatch r) lo hi greedy k fuel n s cs = Some res →
    ∃ ws s' new,
      s = concat ws ++ s' ∧ Forall (lang r) ws
      ∧ (lo ≤ n + length ws)%nat
      ∧ match hi with Some h => (n + length ws ≤ h)%nat | None => True end
      ∧ captures_ok G new ∧ k s' (new ++ cs) = Some res.
Proof.
  intros Hbody fuel.
  assert (Hstop : ∀ n s cs res,
    match hi with Some h => (n ≤ h)%nat | None => True end →
    (if (lo <=? n)%nat then k s cs else None) = Some res →
    ∃ ws s' new,
      s = concat ws ++ s' ∧ Forall (lang r) ws
      ∧ (lo ≤ n + length ws)%nat
      ∧ match hi with Some h => (n + length ws ≤ h)%nat | None => True end
      ∧ captures_ok G new ∧ k s' (new ++ cs) = Some res).
  { intros n s cs res Hn H.
    destruct (lo <=? n)%nat eqn:Hlo; [|discriminate].
    apply Nat.leb_le in Hlo. exists [], s, [].
    split; [done|]. split; [constructor|]. cbn. rewrite Nat.add_0_r.
    split; [done|]. split; [done|]. split; [constructor|done]. }
  induction fuel as [|fuel IH]; intros n s cs res Hn; cbn [rep_loop];
    cbv zeta.
  - destruct greedy; [by apply Hstop|].
    destruct (if (lo <=? n)%nat then _ else None) eqn:E; [|done].
    intros [= <-]. by apply Hstop.
  - assert (Hmore : ∀ res',
      (if below n hi
       then rmatch r s cs (λ s' cs',
              if (length s' <? length s)%nat
              then rep_loop (rmatch r) lo hi greedy k fuel (S n) s' cs'
              else None)
       else None) = Some res' →
      ∃ ws s' new,
        s = concat ws ++ s' ∧ Forall (lang r) ws
        ∧ (lo ≤ n + length ws)%nat
        ∧ match hi with Some h => (n + length ws ≤ h)%nat | None => True end
        ∧ captures_ok G new ∧ k s' (new ++ cs) = Some res').
    { intros res' H. destruct (below n hi) eqn:Hbelow; [|discriminate].
      apply Hbody in H as (w & s1 & new1 & -> & Hw & Hnew1 & H).
      destruct (length s1 <? _)%nat; [|discriminate].
      apply IH in H as (ws & s2 & new2 & -> & Hws & Hlo & Hhi & Hnew2 & H).
      - exists (w :: ws), s2, (new2 ++ new1). cbn [concat length].
        rewrite <- !app_assoc. split; [done|].
        split; [by constructor|]. split; [lia|].
        split; [destruct hi; [lia|done]|].
        split; [by apply Forall_app|done].
      - destruct hi as [h|]; [|done]. cbn in Hbelow.
        apply Nat.ltb_lt in Hbelow. lia. }
    destruct greedy.
    + destruct (if below n hi then _ else None) as [r1|] eqn:E1.
      * intros [= <-]. by apply Hmore.
      * by apply Hstop.
    + destruct (if (lo <=? n)%nat then _ else None) as [r1|] eqn:E1.
      * intros [= <-]. by apply Hstop.
      * apply Hmore.
Qed.

Lemma rmatch_sound G r :
  groups_ok G r →
  ∀ s cs k res, rmatch r s cs k = Some res →
    ∃ w s' new, s = w ++ s' ∧ lang r w ∧ captures_ok G new
                ∧ k s' (new ++ cs) = Some res.
Proof.
  induction r as [p| |r1 IH1 r2 IH2|r1 IH1 r2 IH2|r IH lo hi g|name r IH|];
    intros Hok s cs k res; cbn [rmatch].
  - destruct s as [|c s]; [discriminate|].
    destruct (p c) eqn:Hc; [|discriminate]. intros H.
    exists [c], s, []. split; [done|]. split; [by exists c|].
    split; [constructor|done].
  - intros H. exists [], s, []. split; [done|]. split; [done|].
    split; [constructor|done].
  - destruct Hok as [Hok1 Hok2]. intros H.
    apply (IH1 Hok1) in H as (w1 & s1 & new1 & -> & Hw1 & Hnew1 & H).
    apply (IH2 Hok2) in H as (w2 & s2 & new2 & -> & Hw2 & Hnew2 & H).
    exists (w1 ++ w2), s2, (new2 ++ new1). rewrite <- !app_assoc.
    split; [done|]. split; [by exists w1, w2|].
    split; [by apply Forall_app|done].
  - destruct Hok as [Hok1 Hok2].
    destruct (rmatch r1 s cs k) as [r'|] eqn:E1.
    + intros [= <-].
      apply (IH1 Hok1) in E1 as (w & s' & new & -> & Hw & Hnew & H).
      exists w, s', new. split; [done|]. split; [by left|done].
    + intros H.
      apply (IH2 Hok2) in H as (w & s' & new & -> & Hw & Hnew & H).
      exists w, s', new. split; [done|]. split; [by right|done].
  - intros H. cbn in Hok.
    apply (rep_loop_sound G) in H
      as (ws & s' & new & -> & Hws & Hlo & Hhi & Hnew & H);
      [|by apply IH|destruct hi; [lia|done]].
    exists (concat ws), s', new. split; [done|].
    split; [by exists ws|done].
  - destruct Hok as [Hname Hok]. intros H.
    apply (IH Hok) in H as (w & s' & new & -> & Hw & Hnew & H).
    rewrite length_app, Nat.add_sub, take_app_length in H.
    exists w, s', ((name, w) :: new). split; [done|]. split; [done|].
    split; [|done]. constructor; [by apply Hname|done].
  - intros H. exists [], s, []. split; [done|]. split; [done|].
    split; [constructor|].
    repeat (match type of H with
            | context [match ?x with _ => _ end] => destruct x
            end; try done).
Qed.

Lemma re_search_sound G r s rest cs :
  groups_ok G r → re_search r s = Some (rest, cs) → captures_ok G cs.
Proof.
  intros Hok. induction s as [|c s IH]; cbn [re_search]; unfold re_match.
  - destruct (rmatch r [] [] accept) as [res|] eqn:E; [|done].
    intros [= ->].
    apply (rmatch_sound G r Hok) in E as (w & s' & new & _ & _ & Hnew & E).
    injection E as <- <-. by rewrite app_nil_r.
  - destruct (rmatch r (c :: s) [] accept) as [res|] eqn:E; [|exact IH].
    intros [= ->].
    apply (rmatch_sound G r Hok) in E as (w & s' & new & _ & _ & Hnew & E).
    injection E as <- <-. by rewrite app_nil_r.
Qed.

Lemma group_ok G name cs v :
  captures_ok G cs → group name cs = Some v → G name v.
Proof.
  induction 1 as [|[n w] cs Hn _ IH]; [done|]. cbn [group].
  destruct (String.eqb n name) eqn:E; [|exact IH].
  apply String.eqb_eq in E as <-. by intros [= <-].
Qed.

Lemma sanitize_input_clean text :
  Forall (λ c, is_control c = false) (sanitize_input text).
Proof.
  destruct text as [| | |s]; try by constructor.
  eapply Forall_sublist; [apply sanitize_input_sublist|].
  eapply Forall_sublist; [apply sublist_take|].
  by apply sub_loop_chr.
Qed.

Lemma sanitize_input_of_sublist s : sanitize_input (PyStr s) `sublist_of` s.
Proof.
  etrans; [apply sanitize_input_sublist|]. unfold scrubbed.
  etrans; [apply sublist_take|apply re_sub_empty_sublist].
Qed.

Lemma lang_rep_chr p lo h greedy w :
  lang (Rep (Chr p) lo (Some h) greedy) w →
  (length w ≤ h)%nat ∧ Forall (λ c, p c = true) w.
Proof.
  intros (ws & -> & Hws & _ & Hh). revert h Hh.
  induction Hws as [|w ws (c & -> & Hc) _ IH]; intros h Hh;
    [split; [cbn; lia|constructor]|].
  cbn in Hh. destruct h as [|h]; [lia|].
  destruct (IH h) as [Hlen Hall]; [lia|].
  cbn. split; [lia|by constructor].
Qed.

Lemma groups_ok_seq_of G rs :
  Forall (groups_ok G) rs → groups_ok G (seq_of rs).
Proof. induction 1; cbn; [done|by split]. Qed.

Lemma groups_ok_word G w : groups_ok G (word_ci w).
Proof.
  unfold word_ci. apply groups_ok_seq_of, Forall_fmap, Forall_true. done.
Qed.

Lemma nft_patterns_groups : Forall (groups_ok nft_name_ok) nft_patterns.
Proof.
  assert (Hverbs : ∀ w, nft_name_ok "1" w) by (by intros w [=]).
  assert (Hname : ∀ w,
    lang (Rep (Chr nft_name_char) 1 (Some 50%nat) true) w →
    nft_name_ok "name" w).
  { intros w Hw _. by apply lang_rep_chr in Hw. }
  unfold nft_patterns, verbs, nft_name, article, named_prefix, opt, space1.
  repeat first
    [ apply groups_ok_word
    | apply groups_ok_seq_of
    | apply Forall_cons_2
    | apply Forall_nil_2
    | exact I
    | exact Hname
    | by (intros; apply Hverbs)
    | progress cbn [groups_ok]
    | split ].
Qed.

Lemma nft_name_char_no_marker c :
  nft_name_char c = true → is_marker c = false.
Proof.
  unfold nft_name_char. intros H.
  destruct (is_marker c) eqn:Hm; [|done]. exfalso.
  unfold is_marker in Hm.
  repeat match goal with
         | H : _ || _ = true |- _ => apply orb_true_iff in H as [H|H]
         end;
    apply N.eqb_eq in Hm as ->; vm_compute in H; discriminate.
Qed.

(** The name a token pattern reads, as the fallback hands it on. *)
Lemma nft_first_match_name patterns text parsed :
  Forall (groups_ok nft_name_ok) patterns →
  nft_first_match patterns text = Some parsed →
  ∃ name,
    p_name (parameters parsed) = Some (PyStr name)
    ∧ (length name ≤ 50)%nat
    ∧ Forall (λ c, nft_name_char c = true) name
    ∧ Forall (λ c, is_control c = false) name.
Proof.
  induction 1 as [|pattern rest Hok _ IH]; [done|]. cbn [nft_first_match].
  destruct (re_search pattern text) as [[unread cs]|] eqn:Hsearch;
    [|exact IH].
  destruct (negb _ && _) eqn:Hname; [|exact IH].
  intros [= <-]. eexists. split; [done|].
  apply (re_search_sound nft_name_ok) in Hsearch; [|done].
  unfold group_value in *.
  destruct (group "name" cs) as [v|] eqn:Hgroup; [|done].
  destruct (group_ok _ _ _ _ Hsearch Hgroup eq_refl) as [Hlen Hall].
  assert (strip (sanitize_input (PyStr v)) `sublist_of` v) as Hsub.
  { etrans; [apply strip_sublist|apply sanitize_input_of_sublist]. }
  split; [|split].
  - etrans; [apply sublist_length, Hsub|done].
  - by eapply Forall_sublist.
  - eapply Forall_sublist; [apply strip_sublist|apply sanitize_input_clean].
Qed.

Lemma nft_fallback_sound_params text parsed :
  parse_nft_command_fallback text = Some parsed →
  ∃ name,
    parameters parsed
    = {| p_amount := None; p_recipient := None;
         p_name := Some (PyStr name); p_supply := Some 1%Z;
         p_description := Some (PyStr []) |}
    ∧ name ≠ [] ∧ strip name = name ∧ (length name ≤ 50)%nat
    ∧ Forall (λ c, nft_name_char c = true) name
    ∧ Forall (λ c, is_control c = false) name.
Proof.
  unfold parse_nft_command_fallback.
  destruct (is_nil (sanitize_input text)); [done|]. intros Hmatch.
  destruct (nft_first_match_sound _ _ _ Hmatch)
    as (Hintent & name & Hparams & Hne & Hstrip).
  destruct (nft_first_match_name _ _ _ nft_patterns_groups Hmatch)
    as (name' & Hname' & Hlen & Hchars & Hclean).
  rewrite Hparams in Hname'. injection Hname' as <-.
  by exists name.
Qed.

(** X15. Whatever the token fallback returns is a token creation with
    supply 1, an empty description and a name that is not empty, neither
    starts nor ends with whitespace, has at most 50 characters, and holds
    only characters of the pattern's set and no control character. *)
Theorem nft_fallback_sound text parsed :
  parse_nft_command_fallback text = Some parsed →
  intent parsed = "create_nft"%string
  ∧ ∃ name,
      parameters parsed
      = {| p_amount := None; p_recipient := None;
           p_name := Some (PyStr name); p_supply := Some 1%Z;
           p_description := Some (PyStr []) |}
      ∧ name ≠ [] ∧ strip name = name ∧ (length name ≤ 50)%nat
      ∧ Forall (λ c, nft_name_char c = true) name
      ∧ Forall (λ c, is_control c = false) name.
Proof.
  intros Hparsed. split.
  - unfold parse_nft_command_fallback in Hparsed.
    destruct (is_nil (sanitize_input text)); [done|].
    by apply nft_first_match_sound in Hparsed as [? _].
  - by apply (nft_fallback_sound_params text).
Qed.

(** X16. What the fallback parsers return passes the parameter checks of
    the handlers it is handed to: the transfer handler does not turn a
    transfer of the transfer fallback down for a missing detail, its
    recipient or its amount, and the token handler does not turn a token
    of the token fallback down for its name. *)
Theorem fallback_results_pass_validation env user_id text parsed st :
  (parse_send_command_fallback text = Some parsed →
   ∃ es,
     trace (snd (handle_send_transaction env user_id (parameters parsed) st))
     = trace st ++ es
     ∧ Forall not_refusal es)
  ∧ (parse_nft_command_fallback text = Some parsed →
     ∃ es,
       trace (snd (handle_nft_creation env user_id (parameters parsed) st))
       = trace st ++ es
       ∧ Forall not_refusal es).
Proof.
  split.
  - intros Hparsed.
    apply (send_fallback_sound_params text) in Hparsed
      as (amount & recipient & -> & Haddr & Hamount).
    change (emits_at not_refusal
      (handle_send_transaction env user_id
         {| p_amount := Some amount; p_recipient := Some (PyStr recipient);
            p_name := None; p_supply := None; p_description := None |}) st).
    unfold handle_send_transaction. cbn [p_amount p_recipient].
    rewrite Haddr, Hamount. cbn [negb]. emits_here.
  - intros Hparsed.
    apply (nft_fallback_sound_params text) in Hparsed
      as (name & -> & Hne & Hstrip & Hlen & Hchars & Hclean).
    assert (sanitize_input (PyStr name) = name) as Hsame.
    { apply sanitize_input_plain; try done.
      - unfold MAX_MESSAGE_LENGTH. lia.
      - apply Forall_forall. intros c Hc. unfold plain.
        rewrite Forall_forall in Hchars, Hclean.
        by rewrite (Hclean c Hc), (nft_name_char_no_marker c (Hchars c Hc)). }
    change (emits_at not_refusal
      (handle_nft_creation env user_id
         {| p_amount := None; p_recipient := None;
            p_name := Some (PyStr name); p_supply := Some 1%Z;
            p_description := Some (PyStr []) |}) st).
    unfold handle_nft_creation. cbn [p_name p_supply p_description truthy].
    rewrite Hsame.
    assert (is_nil name = false) as Hnil by (by destruct name).
    assert ((length name <? 1)%nat = false) as Hshort
      by (apply Nat.ltb_ge; destruct name; [done|cbn; lia]).
    assert ((50 <? length name)%nat = false) as Hlong
      by (apply Nat.ltb_ge; lia).
    rewrite Hnil, Hshort, Hlong.
    cbn [negb orb]. emits_here.
Qed.

(** ** Runs of the session policy *)

Lemma validate_session_accepts st user_id m sess :
  files (world st) !! SESSIONS_FILE = Some (JsonSessions m) →
  m !! user_key user_id = Some sess →
  (∀ stamp, last_activity sess = Some stamp →
     (clock (world st) (reads (world st)) - stamp ≤ hours 24)%Z) →
  ∃ st1 t,
    validate_session user_id st = (Some true, st1)
    ∧ files (world st1) !! SESSIONS_FILE
      = Some (JsonSessions
                (<[user_key user_id := set_last_activity t sess]> m))
    ∧ clock (world st1) = clock (world st)
    ∧ (reads (world st) < reads (world st1) ≤ reads (world st) + 2)%nat
    ∧ user_data st1 = user_data st ∧ trace st1 = trace st.
Proof.
  intros Hfile Hm Hlive.
  pose proof (validate_session_live st user_id m sess Hfile Hm) as Hrun.
  destruct (last_activity sess) as [stamp|].
  - eexists _, _. split; [apply Hrun, Hlive; done|].
    split; [apply saved_lookup|]. cbn. split; [done|]. split; [lia|done].
  - eexists _, _. split; [apply Hrun|].
    split; [apply saved_lookup|]. cbn. split; [done|]. split; [lia|done].
Qed.

Lemma transaction_check_run st user_id m sess :
  files (world st) !! SESSIONS_FILE = Some (JsonSessions m) →
  m !! user_key user_id = Some sess →
  check_user_rate_limit user_id "transaction" st =
    let now := clock (world st) (reads (world st)) in
    let recent :=
      List.filter (λ tx_time, (now - hours 1 <? tx_time)%Z) (recent_of sess) in
    if (MAX_TRANSACTIONS_PER_HOUR <=? length recent)%nat
    then (Some false,
          add_events [Security "RATE_LIMIT_EXCEEDED"] (user_data st) (tick st))
    else (Some true,
          set_files
            (saved (<[user_key user_id :=
                        set_recent_transactions (recent ++ [now]) sess]> m)
                   (files (world st)))
            (tick st)).
Proof.
  intros Hfile Hm. unfold check_user_rate_limit.
  rewrite (bind_run _ _ _ _ _ (load_sessions_valid _ _ Hfile)).
  unfold bind at 1. unfold datetime_now at 1. fold (tick st).
  rewrite Hm. cbn [String.eqb Ascii.eqb Bool.eqb]. cbv zeta.
  fold (recent_of sess).
  destruct (MAX_TRANSACTIONS_PER_HOUR <=? _)%nat.
  - done.
  - unfold bind. by rewrite save_sessions_spec.
Qed.

Lemma transaction_checks_app user_id k n st :
  transaction_checks user_id (k + n) st =
    let (first, st1) := transaction_checks user_id k st in
    let (last, st2) := transaction_checks user_id n st1 in
    (first ++ last, st2).
Proof.
  revert st. induction k as [|k IH]; intros st; cbn [transaction_checks Nat.add].
  - by destruct (transaction_checks user_id n st).
  - destruct (check_user_rate_limit user_id "transaction" st) as [a st1].
    rewrite IH.
    destruct (transaction_checks user_id k st1) as [first st2].
    by destruct (transaction_checks user_id n st2).
Qed.

Lemma transaction_checks_pass user_id k : ∀ st m sess,
  files (world st) !! SESSIONS_FILE = Some (JsonSessions m) →
  m !! user_key user_id = Some sess →
  let r := reads (world st) in
  let c := clock (world st) in
  (length (recent_of sess) + k ≤ MAX_TRANSACTIONS_PER_HOUR)%nat →
  (∀ i, (r ≤ i < r + k)%nat → Forall (within_hour (c i)) (recent_of sess)) →
  (∀ i j, (r ≤ i < j)%nat → (j < r + k)%nat → within_hour (c j) (c i)) →
  ∃ st' m' sess',
    transaction_checks user_id k st = (replicate k (Some true), st')
    ∧ files (world st') !! SESSIONS_FILE = Some (JsonSessions m')
    ∧ m' !! user_key user_id = Some sess'
    ∧ recent_of sess' = recent_of sess ++ (c <$> seq r k)
    ∧ clock (world st') = c
    ∧ reads (world st') = (r + k)%nat.
Proof.
  induction k as [|k IH]; intros st m sess Hfile Hm r c Hlen Hold Hnew.
  - exists st, m, sess. cbn. rewrite app_nil_r, Nat.add_0_r. done.
  - cbn [transaction_checks].
    rewrite (transaction_check_run st user_id m sess Hfile Hm). cbv zeta.
    fold r c. rewrite within_hour_kept by (apply Hold; lia).
    replace (MAX_TRANSACTIONS_PER_HOUR <=? length (recent_of sess))%nat
      with false by (symmetry; apply Nat.leb_gt; lia).
    set (sess1 := set_recent_transactions (recent_of sess ++ [c r]) sess).
    set (st1 := set_files _ (tick st)).
    destruct (IH st1 (<[user_key user_id := sess1]> m) sess1)
      as (st' & m' & sess' & Hrun & Hfile' & Hm' & Hrecent & Hclock & Hreads).
    + apply saved_lookup.
    + apply lookup_insert_eq.
    + unfold sess1, recent_of. cbn. rewrite length_app. cbn.
      unfold recent_of in Hlen. lia.
    + intros i Hi. cbn in Hi. unfold sess1, recent_of. cbn.
      apply Forall_app. split.
      * apply Hold. fold r. lia.
      * constructor; [|done]. apply Hnew; fold r; lia.
    + intros i j Hij Hj. cbn in Hij, Hj. apply Hnew; fold r; lia.
    + rewrite Hrun. exists st', m', sess'. split; [done|].
      split; [done|]. split; [done|].
      split; [|split; [done|cbn in Hreads; fold r in Hreads; lia]].
      rewrite Hrecent. unfold sess1, recent_of. cbn.
      by rewrite <- app_assoc.
Qed.

(** X17. Ten transactions an hour: for a user whose record lists no
    transaction, of eleven transaction checks whose clock readings lie
    within an hour of one another the first ten answer true and the
    eleventh answers false, and the record then lists the ten readings of
    the checks that passed. *)
Theorem ten_transactions_per_hour st user_id m sess :
  files (world st) !! SESSIONS_FILE = Some (JsonSessions m) →
  m !! user_key user_id = Some sess →
  recent_of sess = [] →
  let r := reads (world st) in
  let c := clock (world st) in
  (∀ i j, (r ≤ i < j)%nat → (j ≤ r + 10)%nat → within_hour (c j) (c i)) →
  ∃ st' sess',
    transaction_checks user_id 11 st
    = (replicate 10 (Some true) ++ [Some false], st')
    ∧ stored_session st' user_id = Some sess'
    ∧ recent_transactions sess' = Some (c <$> seq r 10).
Proof.
  intros Hfile Hm Hrecent r c Hclock.
  destruct (transaction_checks_pass user_id 10 st m sess Hfile Hm)
    as (st1 & m1 & sess1 & Hrun & Hfile1 & Hm1 & Hrecent1 & Hc1 & Hr1).
  { rewrite Hrecent. cbn. unfold MAX_TRANSACTIONS_PER_HOUR. lia. }
  { intros i _. rewrite Hrecent. constructor. }
  { intros i j Hij Hj. apply Hclock; fold r; lia. }
  rewrite Hrecent in Hrecent1. cbn [app] in Hrecent1. fold r c in Hrecent1.
  change 11%nat with (10 + 1)%nat.
  rewrite transaction_checks_app, Hrun. cbn [transaction_checks].
  rewrite (transaction_check_run st1 user_id m1 sess1 Hfile1 Hm1). cbv zeta.
  rewrite Hc1, Hr1, Hrecent1. fold r c.
  rewrite within_hour_kept.
  2:{ apply Forall_fmap, Forall_forall. intros i Hi.
      apply elem_of_seq in Hi. apply Hclock; lia. }
  rewrite length_fmap, length_seq. cbn [Nat.leb MAX_TRANSACTIONS_PER_HOUR].
  eexists _, sess1. split; [reflexivity|].
  unfold stored_session. cbn [world files tick add_events].
  rewrite Hfile1. split; [done|].
  unfold recent_of in Hrecent1.
  destruct (recent_transactions sess1) as [l|]; cbn in Hrecent1;
    [by rewrite Hrecent1|done].
Qed.

Lemma transaction_check_passes st user_id m sess :
  files (world st) !! SESSIONS_FILE = Some (JsonSessions m) →
  m !! user_key user_id = Some sess →
  (length (recent_of sess) < MAX_TRANSACTIONS_PER_HOUR)%nat →
  ∃ st' now,
    check_user_rate_limit user_id "transaction" st = (Some true, st')
    ∧ now = clock (world st) (reads (world st))
    ∧ files (world st') !! SESSIONS_FILE
      = Some (JsonSessions
                (<[user_key user_id :=
                     set_recent_transactions
                       (List.filter (λ t, (now - hours 1 <? t)%Z)
                          (recent_of sess) ++ [now]) sess]> m))
    ∧ user_data st' = user_data st ∧ trace st' = trace st.
Proof.
  intros Hfile Hm Hfew.
  rewrite (transaction_check_run st user_id m sess Hfile Hm). cbv zeta.
  match goal with
  | |- context [(_ <=? length ?l)%nat] =>
      assert (length l ≤ length (recent_of sess))%nat as Hle
        by apply List.filter_length_le;
      replace (MAX_TRANSACTIONS_PER_HOUR <=? length l)%nat with false
        by (symmetry; apply Nat.leb_gt; lia)
  end.
  eexists _, _. split; [reflexivity|]. split; [done|].
  split; [apply saved_lookup|done].
Qed.

(** The two checks a transfer or a token request goes through first, on a
    live session with fewer than ten stamps on record. *)
Lemma session_checks_pass st user_id m sess :
  files (world st) !! SESSIONS_FILE = Some (JsonSessions m) →
  m !! user_key user_id = Some sess →
  (∀ stamp, last_activity sess = Some stamp →
     (clock (world st) (reads (world st)) - stamp ≤ hours 24)%Z) →
  (length (recent_of sess) < MAX_TRANSACTIONS_PER_HOUR)%nat →
  ∃ st1 st2 t now,
    validate_session user_id st = (Some true, st1)
    ∧ check_user_rate_limit user_id "transaction" st1 = (Some true, st2)
    ∧ (∃ i, (reads (world st) < i)%nat ∧ now = clock (world st) i)
    ∧ files (world st2) !! SESSIONS_FILE
      = Some (JsonSessions
                (<[user_key user_id :=
                     set_recent_transactions
                       (List.filter (λ t, (now - hours 1 <? t)%Z)
                          (recent_of sess) ++ [now])
                       (set_last_activity t sess)]> m))
    ∧ user_data st2 = user_data st ∧ trace st2 = trace st.
Proof.
  intros Hfile Hm Hlive Hfew.
  destruct (validate_session_accepts st user_id m sess Hfile Hm Hlive)
    as (st1 & t & Hvalid & Hfile1 & Hclock1 & Hreads1 & Hud1 & Htr1).
  destruct (transaction_check_passes st1 user_id _ (set_last_activity t sess)
              Hfile1 (lookup_insert_eq _ _ _) Hfew)
    as (st2 & now & Hcheck & Hnow & Hfile2 & Hud2 & Htr2).
  exists st1, st2, t, now. split; [done|]. split; [done|].
  split; [exists (reads (world st1)); split; [lia|by rewrite <- Hclock1]|].
  rewrite insert_insert_eq in Hfile2. split; [exact Hfile2|].
  by rewrite Hud2, Htr2.
Qed.

(** X18. A transfer request that is turned down for its parameters has
    still been counted against the hourly limit: on a live session with
    fewer than ten stamps on record, a request without amount or recipient,
    with a recipient the validator rejects or with an amount out of range is
    answered with the matching error and no collaborator is called, but the
    record now lists the stamp of this request. *)
Theorem refused_send_is_counted env user_id params st m sess :
  files (world st) !! SESSIONS_FILE = Some (JsonSessions m) →
  m !! user_key user_id = Some sess →
  (∀ stamp, last_activity sess = Some stamp →
     (clock (world st) (reads (world st)) - stamp ≤ hours 24)%Z) →
  (length (recent_of sess) < MAX_TRANSACTIONS_PER_HOUR)%nat →
  match p_amount params, p_recipient params with
  | Some amount, Some recipient =>
      validate_algorand_address recipient = false
      ∨ amount_out_of_range amount = true
  | _, _ => True
  end →
  ∃ st' reply sess' now,
    handle_send_transaction env user_id params st = (Some (), st')
    ∧ trace st' = trace st ++ [Replied reply]
    ∧ reply ∈ [MissingTransactionDetails; InvalidRecipientFormat;
               InvalidAmount]
    ∧ user_data st' = user_data st
    ∧ stored_session st' user_id = Some sess'
    ∧ recent_transactions sess'
      = Some (List.filter (λ t, (now - hours 1 <? t)%Z) (recent_of sess)
              ++ [now])
    ∧ ∃ i, (reads (world st) < i)%nat ∧ now = clock (world st) i.
Proof.
  intros Hfile Hm Hlive Hfew Hbad.
  destruct (session_checks_pass st user_id m sess Hfile Hm Hlive Hfew)
    as (st1 & st2 & t & now & Hvalid & Hcheck & Hnow & Hfile2 & Hud2 & Htr2).
  unfold handle_send_transaction.
  rewrite (bind_run _ _ _ _ _ Hvalid). cbn [negb].
  rewrite (bind_run _ _ _ _ _ Hcheck). cbn [negb].
  assert (∀ r,
    r ∈ [MissingTransactionDetails; InvalidRecipientFormat;
         InvalidAmount] →
    ∃ st' reply sess' now,
      reply_text r st2 = (Some (), st')
      ∧ trace st' = trace st ++ [Replied reply]
      ∧ reply ∈ [MissingTransactionDetails; InvalidRecipientFormat;
                 InvalidAmount]
      ∧ user_data st' = user_data st
      ∧ stored_session st' user_id = Some sess'
      ∧ recent_transactions sess'
        = Some (List.filter (λ t, (now - hours 1 <? t)%Z) (recent_of sess)
                ++ [now])
      ∧ ∃ i, (reads (world st) < i)%nat ∧ now = clock (world st) i)
    as Hreply.
  { intros r Hin. eexists _, r, _, now. split; [reflexivity|].
    cbn [trace user_data]. rewrite Htr2, Hud2.
    split; [done|]. split; [done|]. split; [done|].
    unfold stored_session. cbn [world files]. rewrite Hfile2.
    rewrite lookup_insert_eq. done. }
  destruct (p_amount params) as [amount|];
    [|apply Hreply; repeat constructor].
  destruct (p_recipient params) as [recipient|];
    [|apply Hreply; repeat constructor].
  destruct Hbad as [Haddr|Hrange].
  - rewrite Haddr. cbn [negb]. apply Hreply; repeat constructor.
  - destruct (validate_algorand_address recipient); cbn [negb];
      [rewrite Hrange|]; apply Hreply; repeat constructor.
Qed.


(** ** What the wallet handlers leave in the store *)

Lemma found_chr_exists p s :
  Exists (λ c, p c = true) s → found (Chr p) s = true.
Proof.
  induction 1 as [c s Hc|c s _ IH]; rewrite found_chr_cons.
  - by rewrite Hc.
  - by rewrite IH, orb_true_r.
Qed.

(** What [load_sessions] returns is what the store holds. *)
Lemma load_sessions_reads st :
  ∃ m st1,
    load_sessions st = (Some m, st1)
    ∧ user_data st1 = user_data st ∧ trace st1 = trace st
    ∧ ∀ user_id, m !! user_key user_id = stored_session st user_id.
Proof.
  unfold stored_session.
  destruct (files (world st) !! SESSIONS_FILE) as [[m|raw]|] eqn:Hfile.
  - exists m, st. by rewrite (load_sessions_valid _ _ Hfile).
  - eexists ∅, _. by rewrite (load_sessions_corrupt _ _ Hfile).
  - exists ∅, st. by rewrite (load_sessions_missing _ Hfile).
Qed.

Lemma stored_session_saved m st user_id :
  stored_session (snd (save_sessions m st)) user_id = m !! user_key user_id.
Proof.
  rewrite save_sessions_spec. unfold stored_session.
  cbn [snd world files set_files]. by rewrite saved_lookup.
Qed.

Lemma user_key_inj user_id other :
  other ≠ user_id → user_key other ≠ user_key user_id.
Proof. intros Hne Heq. by apply (inj pretty) in Heq. Qed.

(** X19. Wallet creation with a password of at least 8 characters that has
    a letter and a digit: when the wallet collaborator creates the wallet,
    the store then holds for the user a record with the wallet's address
    and encrypted mnemonic and two readings of the clock, every other
    user's record is as before, the mnemonic is shown in the reply, and the
    context is empty; when the collaborator raises, the files are left
    untouched, the failure is reported, and the context is empty as well. *)
Theorem wallet_creation_outcome env user_id password st :
  strong_password password →
  ∃ st',
    handle_wallet_creation_password env user_id password st = (Some (), st')
    ∧ user_data st' = user_data_empty
    ∧ match create_wallet env password with
      | Some wd =>
          trace st'
          = trace st ++ [Called WalletCreate; Security "WALLET_CREATED";
                         Replied (WalletCreated (wd_address wd)
                                                (wd_mnemonic wd))]
          ∧ (∃ created active,
               stored_session st' user_id
               = Some (created_session wd created active))
          ∧ ∀ other, other ≠ user_id →
              stored_session st' other = stored_session st other
      | None =>
          trace st'
          = trace st ++ [Called WalletCreate;
                         Security "WALLET_CREATION_FAILED";
                         Replied WalletCreationFailed]
          ∧ world st' = world st
      end.
Proof.
  intros (Hlen & Hletter & Hdigit). unfold handle_wallet_creation_password.
  replace (length password <? 8)%nat with false
    by (symmetry; by apply Nat.ltb_ge).
  rewrite (found_chr_exists _ _ Hletter), (found_chr_exists _ _ Hdigit).
  cbn [negb orb].
  destruct (create_wallet env password) as [wd|].
  - unfold try_except, call. unfold bind at 1. unfold bind at 1.
    unfold emit at 1. cbn [ret]. cbv beta iota.
    set (st0 := {| world := world st; user_data := user_data st;
                   trace := trace st ++ [Called WalletCreate] |}).
    destruct (load_sessions_reads st0) as (m & st1 & Hload & Hud & Htr & Hm).
    rewrite (bind_run _ _ _ _ _ Hload).
    unfold bind at 1. unfold datetime_now at 1. cbv beta iota zeta.
    unfold bind at 1. unfold datetime_now at 1. cbv beta iota zeta.
    cbn [world files clock reads].
    unfold bind at 1. rewrite save_sessions_spec.
    unfold_monad. eexists. split; [reflexivity|].
    cbn [user_data trace world files set_files]. split; [done|].
    rewrite Htr. unfold st0 at 1. cbn [trace]. rewrite <- !app_assoc.
    split; [done|]. unfold stored_session at 1 2.
    cbn [world files set_files]. rewrite saved_lookup. split.
    + eexists _, _. apply lookup_insert_eq.
    + intros other Hother.
      rewrite lookup_insert_ne by (apply not_eq_sym; by apply user_key_inj).
      apply Hm.
  - unfold_monad. eexists. split; [reflexivity|].
    cbn [user_data trace world]. rewrite <- !app_assoc.
    split; [done|]. split; [done|]. by destruct (world st).
Qed.

Lemma handle_connection_password_connects env user_id password st wd :
  connect_wallet env (mnemonic (user_data st)) password = Some wd →
  ∃ st',
    handle_connection_password env user_id password st = (Some (), st')
    ∧ user_data st' = user_data_empty
    ∧ trace st'
      = trace st ++ [Called WalletConnect; Security "WALLET_CONNECTED";
                     Replied (WalletConnected (wd_address wd))]
    ∧ (∃ connected active,
         stored_session st' user_id
         = Some (connected_session wd connected active))
    ∧ ∀ other, other ≠ user_id →
        stored_session st' other = stored_session st other.
Proof.
  intros Hconnect. unfold handle_connection_password.
  unfold bind at 1. unfold get_user_data at 1. rewrite Hconnect.
  unfold try_except, call. unfold bind at 1. unfold bind at 1.
  unfold emit at 1. cbn [ret]. cbv beta iota.
  set (st0 := {| world := world st; user_data := user_data st;
                 trace := trace st ++ [Called WalletConnect] |}).
  destruct (load_sessions_reads st0) as (m & st1 & Hload & Hud & Htr & Hm).
  rewrite (bind_run _ _ _ _ _ Hload).
  unfold bind at 1. unfold datetime_now at 1. cbv beta iota zeta.
  unfold bind at 1. unfold datetime_now at 1. cbv beta iota zeta.
  cbn [world files clock reads].
  unfold bind at 1. rewrite save_sessions_spec.
  unfold_monad. eexists. split; [reflexivity|].
  cbn [user_data trace world files set_files]. split; [done|].
  rewrite Htr. unfold st0 at 1. cbn [trace]. rewrite <- !app_assoc.
  split; [done|]. unfold stored_session at 1 2.
  cbn [world files set_files]. rewrite saved_lookup. split.
  - eexists _, _. apply lookup_insert_eq.
  - intros other Hother.
    rewrite lookup_insert_ne by (apply not_eq_sym; by apply user_key_inj).
    apply Hm.
Qed.

(** X20. The connection password: the wallet collaborator is handed the
    mnemonic held in the context and the password. When it connects, the
    store then holds for the user a record with the wallet's address and
    encrypted mnemonic and two readings of the clock, and every other
    user's record is as before; when it raises, the files are left
    untouched and the failure is reported. Either way the context is empty
    afterwards, so the mnemonic is no longer held. *)
Theorem wallet_connection_outcome env user_id password st :
  ∃ st',
    handle_connection_password env user_id password st = (Some (), st')
    ∧ user_data st' = user_data_empty
    ∧ match connect_wallet env (mnemonic (user_data st)) password with
      | Some wd =>
          trace st'
          = trace st ++ [Called WalletConnect; Security "WALLET_CONNECTED";
                         Replied (WalletConnected (wd_address wd))]
          ∧ (∃ connected active,
               stored_session st' user_id
               = Some (connected_session wd connected active))
          ∧ ∀ other, other ≠ user_id →
              stored_session st' other = stored_session st other
      | None =>
          trace st'
          = trace st ++ [Called WalletConnect;
                         Security "WALLET_CONNECTION_FAILED";
                         Replied WalletConnectionFailed]
          ∧ world st' = world st
      end.
Proof.
  destruct (connect_wallet env (mnemonic (user_data st)) password)
    as [wd|] eqn:Hconnect.
  - destruct (handle_connection_password_connects env user_id password st wd
                Hconnect) as (st' & Hrun & Hud & Htr & Hstored & Hothers).
    by exists st'.
  - unfold handle_connection_password.
    unfold bind at 1. unfold get_user_data at 1. rewrite Hconnect.
    unfold_monad. eexists. split; [reflexivity|].
    cbn [user_data trace world]. rewrite <- !app_assoc.
    split; [done|]. split; [done|]. by destruct (world st).
Qed.

(** X21. Disconnecting: afterwards the store holds no record for the user,
    every other user's record is as before, and the context is empty. The
    disconnection is logged only when there was a record; the reply is the
    same with and without one. *)
Theorem disconnect_outcome user_id st :
  ∃ st',
    handle_disconnect user_id st = (Some (), st')
    ∧ user_data st' = user_data_empty
    ∧ stored_session st' user_id = None
    ∧ (∀ other, other ≠ user_id →
         stored_session st' other = stored_session st other)
    ∧ trace st'
      = trace st
        ++ match stored_session st user_id with
           | Some _ => [Security "WALLET_DISCONNECTED"]
           | None => []
           end
        ++ [Replied WalletDisconnected].
Proof.
  unfold handle_disconnect.
  destruct (load_sessions_reads st) as (m & st1 & Hload & Hud & Htr & Hm).
  pose proof (stored_session_after_load st) as Hstore.
  rewrite Hload in Hstore. cbn [snd] in Hstore.
  rewrite (bind_run _ _ _ _ _ Hload). rewrite Hm.
  destruct (stored_session st user_id) as [sess|] eqn:Hsess.
  - unfold bind at 1. unfold bind at 1. unfold log_security_event, emit at 1.
    cbv beta iota. rewrite save_sessions_spec. unfold_monad.
    eexists. split; [reflexivity|].
    cbn [user_data trace world files set_files]. split; [done|].
    unfold stored_session at 1 2. cbn [world files set_files].
    rewrite saved_lookup, lookup_delete_eq. split; [done|].
    rewrite Htr, <- !app_assoc. split; [|done].
    intros other Hother.
    rewrite lookup_delete_ne by (apply not_eq_sym; by apply user_key_inj).
    apply Hm.
  - unfold_monad. eexists. split; [reflexivity|].
    cbn [user_data trace world]. split; [done|].
    rewrite Htr.
    assert (∀ u, stored_session
                   {| world := world st1; user_data := user_data_empty;
                      trace := trace st ++ [Replied WalletDisconnected] |} u
                 = stored_session st u) as Hsame.
    { intros u. rewrite <- (proj1 (Hstore u)). done. }
    split; [by rewrite Hsame|]. split; [|done].
    intros other _. apply Hsame.
Qed.

(** ** Conversations from the first message to the last *)

Lemma resolve_intent_understood env user_input st parsed :
  ai_parse env user_input = Some parsed →
  intent parsed ≠ "unknown"%string →
  resolve_intent env user_input st = (Some (Some parsed), after_resolution st).
Proof.
  intros Hai Hintent. unfold resolve_intent. rewrite Hai.
  apply String.eqb_neq in Hintent. rewrite Hintent. done.
Qed.




(** X23. Connecting a wallet, in three messages from an empty context:
    a message the language-understanding collaborator resolves to
    [connect_wallet], then a message of 25 words, then a password. The
    wallet collaborator is handed the second message as sanitized and the
    third as sanitized; when it connects, the store holds the user's record
    with the wallet's address, and the context is empty again. *)
Theorem connect_in_three_messages env1 env2 env3 user_id text1 text2 text3
    st parsed wd :
  user_data st = user_data_empty →
  sanitize_input text1 ≠ [] →
  ai_parse env1 (sanitize_input text1) = Some parsed →
  intent parsed = "connect_wallet"%string →
  length (split (strip (sanitize_input text2))) = 25%nat →
  sanitize_input text3 ≠ [] →
  connect_wallet env3 (Some (sanitize_input text2)) (sanitize_input text3)
  = Some wd →
  let st1 := step env1 user_id text1 st in
  let st2 := step env2 user_id text2 st1 in
  let st3 := step env3 user_id text3 st2 in
  state (user_data st1) = Some "connecting_wallet"%string
  ∧ state (user_data st2) = Some "connecting_password"%string
  ∧ user_data st3 = user_data_empty
  ∧ trace st3
    = trace st
      ++ [Called LanguageUnderstanding;
          Security "WALLET_CONNECTION_INITIATED";
          Replied ConnectingWalletPrompt;
          Replied SetPasswordPrompt;
          Called WalletConnect; Security "WALLET_CONNECTED";
          Replied (WalletConnected (wd_address wd))]
  ∧ ∃ connected active,
      stored_session st3 user_id
      = Some (connected_session wd connected active).
Proof.
  intros Hempty Htext1 Hai Hintent Hwords Htext3 Hconnect st1 st2 st3.
  assert (user_data st1 = set_state "connecting_wallet" user_data_empty
          ∧ trace st1
            = trace st ++ [Called LanguageUnderstanding;
                           Security "WALLET_CONNECTION_INITIATED";
                           Replied ConnectingWalletPrompt]) as [Hud1 Htr1].
  { unfold st1, step.
    destruct (handle_message_idle env1 user_id text1 st)
      as (st0 & Hud0 & Htr0 & ->); [done|by rewrite Hempty|].
    unfold dispatch_idle.
    rewrite (bind_run _ _ _ _ _
               (resolve_intent_understood env1 _ st0 parsed Hai
                  ltac:(by rewrite Hintent))).
    cbv zeta. rewrite Hintent. cbn [String.eqb Ascii.eqb Bool.eqb].
    unfold_monad. cbn [snd user_data trace after_resolution add_events].
    rewrite Hud0, Htr0, Hempty, <- !app_assoc. done. }
  assert (Htext2 : sanitize_input text2 ≠ []).
  { intros E. rewrite E in Hwords. done. }
  assert (user_data st2
          = set_state "connecting_password"
              (set_mnemonic (sanitize_input text2)
                 (set_state "connecting_wallet" user_data_empty))
          ∧ trace st2 = trace st1 ++ [Replied SetPasswordPrompt])
    as [Hud2 Htr2].
  { unfold st2, step.
    destruct (handle_message_in_conversation env2 user_id text2 st1)
      as (st0 & Hud0 & Htr0 & ->); [done|by rewrite Hud1|].
    rewrite handle_conversation_state_routes
      by (done || by rewrite Hud0, Hud1).
    cbv zeta. rewrite Hud0, Hud1. cbn [state_is state set_state].
    cbn [String.eqb Ascii.eqb Bool.eqb].
    unfold handle_mnemonic_input. rewrite Hwords. cbn [Nat.eqb negb].
    unfold_monad. cbn [snd user_data trace]. by rewrite Hud0, Hud1, Htr0. }
  assert (user_data st3 = user_data_empty
          ∧ trace st3
            = trace st2 ++ [Called WalletConnect; Security "WALLET_CONNECTED";
                            Replied (WalletConnected (wd_address wd))]
          ∧ ∃ connected active,
              stored_session st3 user_id
              = Some (connected_session wd connected active))
    as (Hud3 & Htr3 & Hstored).
  { unfold st3, step.
    destruct (handle_message_in_conversation env3 user_id text3 st2)
      as (st0 & Hud0 & Htr0 & ->); [done|by rewrite Hud2|].
    rewrite handle_conversation_state_routes
      by (done || by rewrite Hud0, Hud2).
    cbv zeta. rewrite Hud0, Hud2. cbn [state_is state set_state].
    cbn [String.eqb Ascii.eqb Bool.eqb].
    destruct (handle_connection_password_connects env3 user_id
                (sanitize_input text3) st0 wd)
      as (st' & Hrun & Hud & Htr & Hstored & _).
    { by rewrite Hud0, Hud2. }
    rewrite Hrun. cbn [snd]. by rewrite Htr, Htr0. }
  rewrite Hud1, Hud2. split; [done|]. split; [done|]. split; [done|].
  split; [|done]. rewrite Htr3, Htr2, Htr1, <- !app_assoc. done.
Qed.

(** ** The language-understanding client *)

Lemma find_from_spec c s : ∀ i,
  ((c ∉ s) ∧ find_from c s i = (-1)%Z)
  ∨ (∃ pre post, s = pre ++ c :: post ∧ (c ∉ pre)
                 ∧ find_from c s i = (i + Z.of_nat (length pre))%Z).
Proof.
  induction s as [|d s IH]; intros i; cbn [find_from].
  - left. split; [apply not_elem_of_nil|done].
  - destruct (N.eqb_spec d c) as [->|Hne].
    + right. exists [], s. split; [done|].
      split; [apply not_elem_of_nil|cbn; lia].
    + destruct (IH (i + 1)%Z) as [[Hnot ->]|(pre & post & -> & Hpre & ->)].
      * left. split; [|done]. apply not_elem_of_cons. by split.
      * right. exists (d :: pre), post. split; [done|].
        split; [apply not_elem_of_cons; by split|cbn [length]; lia].
Qed.

Lemma rfind_from_spec c s : ∀ i last,
  ((c ∉ s) ∧ rfind_from c s i last = last)
  ∨ (∃ pre post, s = pre ++ c :: post ∧ (c ∉ post)
                 ∧ rfind_from c s i last = (i + Z.of_nat (length pre))%Z).
Proof.
  induction s as [|d s IH]; intros i last; cbn [rfind_from].
  - left. split; [apply not_elem_of_nil|done].
  - destruct (IH (i + 1)%Z (if d =? c then i else last))
      as [[Hnot ->]|(pre & post & -> & Hpost & ->)].
    + destruct (N.eqb_spec d c) as [->|Hne].
      * right. exists [], s. split; [done|]. split; [done|cbn; lia].
      * left. split; [|done]. apply not_elem_of_cons. by split.
    + right. exists (d :: pre), post. split; [done|].
      split; [done|cbn [length]; lia].
Qed.

Lemma py_slice_inside s lo hi :
  (lo ≤ hi ≤ length s)%nat →
  py_slice s (Z.of_nat lo) (Z.of_nat hi) = take (hi - lo) (drop lo s).
Proof.
  intros H. unfold py_slice, slice_bound. cbv zeta.
  destruct (Z.ltb_spec (Z.of_nat lo) 0); [lia|].
  destruct (Z.ltb_spec (Z.of_nat hi) 0); [lia|].
  rewrite !Z.min_l by lia.
  replace (Z.to_nat (Z.of_nat hi - Z.of_nat lo)) with (hi - lo)%nat by lia.
  by rewrite Nat2Z.id.
Qed.

Lemma py_slice_empty s start stop :
  (slice_bound (Z.of_nat (length s)) stop
   ≤ slice_bound (Z.of_nat (length s)) start)%Z →
  py_slice s start stop = [].
Proof.
  intros H. unfold py_slice. cbv zeta.
  replace (Z.to_nat _) with 0%nat by lia. done.
Qed.

Lemma py_find_first c pre post :
  c ∉ pre → py_find c (pre ++ c :: post) = Z.of_nat (length pre).
Proof.
  intros Hpre. unfold py_find.
  destruct (find_from_spec c (pre ++ c :: post) 0)
    as [[Hnot _]|(pre' & post' & Htext & Hpre' & ->)].
  - exfalso. apply Hnot, elem_of_app. right. by left.
  - by apply not_elem_of_app_cons_inv_l in Htext as (-> & _ & _).
Qed.

Lemma py_rfind_last c pre post :
  c ∉ post → py_rfind c (pre ++ c :: post) = Z.of_nat (length pre).
Proof.
  intros Hpost. unfold py_rfind.
  destruct (rfind_from_spec c (pre ++ c :: post) 0 (-1))
    as [[Hnot _]|(pre' & post' & Htext & Hpost' & ->)].
  - exfalso. apply Hnot, elem_of_app. right. by left.
  - by apply not_elem_of_app_cons_inv_r in Htext as (-> & _ & _).
Qed.

(** The text between the braces, when there is an opening brace and a
    closing one after it. *)
Lemma json_text_between pre body post :
  123 ∉ pre → 125 ∉ post →
  AIIntentParser.json_text (pre ++ 123 :: body ++ 125 :: post)
  = 123 :: body ++ [125].
Proof.
  intros Hpre Hpost. unfold AIIntentParser.json_text. cbv zeta.
  rewrite py_find_first by done.
  assert (py_rfind 125 (pre ++ 123 :: body ++ 125 :: post)
          = Z.of_nat (length (pre ++ 123 :: body))) as ->.
  { replace (pre ++ 123 :: body ++ 125 :: post)
      with ((pre ++ 123 :: body) ++ 125 :: post)
      by (by rewrite <- app_assoc).
    by apply py_rfind_last. }
  rewrite length_app. cbn [length].
  replace (Z.of_nat (length pre + S (length body)) + 1)%Z
    with (Z.of_nat (length pre + (length body + 2))) by lia.
  rewrite py_slice_inside.
  2:{ rewrite !length_app. cbn [length]. rewrite !length_app.
      cbn [length]. lia. }
  rewrite drop_app_length, Nat.add_comm, Nat.add_sub.
  replace (123 :: body ++ 125 :: post) with ((123 :: body ++ [125]) ++ post)
    by (cbn; by rewrite <- app_assoc).
  replace (length body + 2)%nat with (length (123 :: body ++ [125]))
    by (cbn [length]; rewrite length_app; cbn [length]; lia).
  by rewrite take_app_length.
Qed.

Lemma slice_bound_range len i :
  (0 ≤ len)%Z → (0 ≤ slice_bound len i ≤ len)%Z.
Proof. intros Hlen. unfold slice_bound. destruct (i <? 0)%Z eqn:E; lia. Qed.

Lemma json_text_without text :
  123 ∉ text ∨ 125 ∉ text →
  AIIntentParser.json_text text = []
  ∨ AIIntentParser.json_text text = [125].
Proof.
  intros Hnone. unfold AIIntentParser.json_text. cbv zeta.
  destruct (rfind_from_spec 125 text 0 (-1))
    as [[Hnot Hrfind]|(pre & post & -> & Hpost & Hrfind)];
    unfold py_rfind; rewrite Hrfind.
  - left. apply py_slice_empty.
    pose proof (slice_bound_range (Z.of_nat (length text))
                  (py_find 123 text) ltac:(lia)) as Hlo.
    change (-1 + 1)%Z with 0%Z. unfold slice_bound at 1.
    change (0 <? 0)%Z with false. cbv iota. lia.
  - destruct Hnone as [Hnone|Hnone].
    2:{ exfalso. apply Hnone, elem_of_app. right. by left. }
    destruct (find_from_spec 123 (pre ++ 125 :: post) 0)
      as [[_ Hfind]|(pre' & post' & Htext & _ & _)].
    2:{ exfalso. apply Hnone. rewrite Htext. apply elem_of_app.
        right. by left. }
    unfold py_find. rewrite Hfind.
    destruct post as [|c post].
    + right. unfold py_slice, slice_bound. cbv zeta.
      rewrite length_app. cbn [length].
      replace (-1 <? 0)%Z with true by done.
      destruct (Z.ltb_spec (0 + Z.of_nat (length pre) + 1) 0); [lia|].
      replace (Z.to_nat _) with 1%nat by lia.
      replace (Z.to_nat _) with (length pre) by lia.
      by rewrite drop_app_length.
    + left. apply py_slice_empty. unfold slice_bound.
      rewrite length_app. cbn [length].
      replace (-1 <? 0)%Z with true by done.
      destruct (Z.ltb_spec (0 + Z.of_nat (length pre) + 1) 0); lia.
Qed.

(** X26. What [_extract_json] hands to the JSON decoder is the empty
    text, the closing brace alone, or a text that begins with the opening
    brace and ends with the closing one. The index [-1] of a missing
    opening brace, used as a slice bound, selects at most the last
    character. *)
Theorem json_text_shape text :
  AIIntentParser.json_text text = []
  ∨ AIIntentParser.json_text text = [125]
  ∨ ∃ body, AIIntentParser.json_text text = 123 :: body ++ [125].
Proof.
  destruct (find_from_spec 123 text 0)
    as [[Hnot _]|(pre & rest & -> & Hpre & _)].
  { destruct (json_text_without text) as [?|?]; auto. }
  destruct (rfind_from_spec 125 (pre ++ 123 :: rest) 0 (-1))
    as [[Hnot _]|(pre' & post' & Htext & Hpost' & Hrfind)].
  { destruct (json_text_without (pre ++ 123 :: rest)) as [?|?]; auto. }
  apply app_eq_inv in Htext
    as [(k & Hpre' & Hrest)|(k & -> & Hk)].
  - destruct k as [|c k]; [done|]. cbn in Hrest.
    injection Hrest as <- ->. left.
    unfold AIIntentParser.json_text. cbv zeta.
    unfold py_rfind. rewrite Hrfind. rewrite py_find_first by done.
    apply py_slice_empty. unfold slice_bound.
    rewrite length_app. cbn [length].
    destruct (Z.ltb_spec (0 + Z.of_nat (length pre') + 1) 0); [lia|].
    destruct (Z.ltb_spec (Z.of_nat (length pre)) 0); [lia|].
    assert (length pre = length pre' + S (length k))%nat
      by (by rewrite Hpre', length_app).
    lia.
  - destruct k as [|c k]; [done|]. cbn in Hk.
    injection Hk as <- ->. right. right. exists k.
    by apply json_text_between.
Qed.

(** X27. Whatever surrounds the outermost braces of the model's answer is
    ignored: with no opening brace before and no closing brace after, the
    decoder is handed the text from the first opening to the last closing
    brace, and [_extract_json] returns what it decodes, or the unknown
    intent when the decoder fails. *)
Theorem extract_json_between_braces svc pre body post :
  123 ∉ pre → 125 ∉ post →
  AIIntentParser._extract_json svc
    (PyStr (pre ++ 123 :: body ++ 125 :: post))
  = default AIIntentParser.unknown (json_decode svc (123 :: body ++ [125])).
Proof.
  intros Hpre Hpost. unfold AIIntentParser._extract_json.
  by rewrite json_text_between.
Qed.

Lemma ai_answer_nothing svc user_input :
  client_gives_nothing svc user_input →
  ai_answer svc user_input = None
  ∨ ai_answer svc user_input = Some AIIntentParser.unknown.
Proof.
  unfold ai_answer, AIIntentParser.parse.
  intros [Hinit|[Hcall|[(content & Hcall & Hcontent)
                       |(text & Hcall & Hbrace)]]].
  - left. by rewrite Hinit.
  - left. destruct (AIIntentParser.init svc); [by rewrite Hcall|done].
  - destruct (AIIntentParser.init svc); [|by left]. right.
    rewrite Hcall. destruct content as [| | |text]; try done.
    by destruct (Hcontent text).
  - destruct (AIIntentParser.init svc); [|by left]. right.
    rewrite Hcall. cbn [AIIntentParser._extract_json].
    by destruct (json_text_without text Hbrace) as [-> | ->].
Qed.

(** X28. When the client gives the bot nothing to go on (no key, an
    exception of the completion call, a content that is no string, or a
    content without an opening or without a closing brace), the intent is
    the one the fallback parsers read in the message: the token parser
    first, then the transfer parser. *)
Theorem client_failures_fall_back svc env user_input st :
  client_gives_nothing svc user_input →
  resolve_intent (with_client svc env) user_input st
  = (Some (fallback_intent user_input), after_resolution st).
Proof.
  intros Hnothing. unfold resolve_intent, fallback_intent.
  cbn [with_client ai_parse].
  assert (match ai_answer svc user_input with
          | Some p => String.eqb (intent p) "unknown"
          | None => true
          end = true) as ->.
  { by destruct (ai_answer_nothing svc user_input Hnothing) as [-> | ->]. }
  unfold bind, emit.
  by destruct (parse_nft_command_fallback (PyStr user_input)).
Qed.

(** ** Tokens and balances *)



(** X25. The balance of a connected wallet: on a live session, with the
    ledger client at hand, the ledger is asked for the account of the
    address in the stored record; its amount is reported, or the failure
    when the request raises. The context is left as it was, and the
    session's last activity is now a reading of the clock. *)
Theorem balance_check_outcome env user_id st m sess :
  files (world st) !! SESSIONS_FILE = Some (JsonSessions m) →
  m !! user_key user_id = Some sess →
  (∀ stamp, last_activity sess = Some stamp →
     (clock (world st) (reads (world st)) - stamp ≤ hours 24)%Z) →
  get_algod_client env = Some () →
  ∃ st' t,
    handle_balance_check env user_id st = (Some (), st')
    ∧ user_data st' = user_data st
    ∧ stored_session st' user_id = Some (set_last_activity t sess)
    ∧ trace st'
      = trace st
        ++ [Called LedgerClient; Called LedgerAccountInfo]
        ++ match account_info env (address sess) with
           | Some amount =>
               [Security "BALANCE_CHECKED"; Replied (WalletBalance amount)]
           | None => [Replied BalanceCheckFailed]
           end.
Proof.
  intros Hfile Hm Hlive Hclient.
  destruct (validate_session_accepts st user_id m sess Hfile Hm Hlive)
    as (st1 & t & Hvalid & Hfile1 & _ & _ & Hud1 & Htr1).
  unfold handle_balance_check.
  rewrite (bind_run _ _ _ _ _ Hvalid). cbn [negb].
  rewrite (bind_run _ _ _ _ _ (load_sessions_valid _ _ Hfile1)).
  rewrite lookup_insert_eq. cbn [fmap option_fmap option_map address
    set_last_activity].
  unfold_monad. rewrite Hclient. cbv beta iota.
  destruct (account_info env (address sess)) as [amount|];
    cbv beta iota; eexists _, t; (split; [reflexivity|]);
    cbn [user_data trace world]; rewrite Htr1, <- !app_assoc;
    (split; [done|]); (split; [|done]);
    unfold stored_session; cbn [world];
    by rewrite Hfile1, lookup_insert_eq.
Qed.


(** ** One pass of the sanitizer *)

(** X29. The sanitizer returns unchanged any non-empty text of at most
    1000 characters that holds no control character and none of the four
    characters [(], [:], [<] and [=], and neither starts nor ends with
    whitespace. *)
Theorem sanitize_input_keeps_harmless_text s :
  s ≠ [] → (length s ≤ MAX_MESSAGE_LENGTH)%nat →
  Forall (λ c, plain c = true) s →
  strip s = s →
  sanitize_input (PyStr s) = s ∧ strip (sanitize_input (PyStr s)) = s.
Proof.
  intros Hne Hlen Hplain Hstrip.
  rewrite sanitize_input_plain by done. by split.
Qed.

Lemma sub_loop_skip r fuel c s :
  re_match r (c :: s) = None →
  sub_loop r (S fuel) (c :: s) = c :: sub_loop r fuel s.
Proof. intros H. cbn [sub_loop]. by rewrite H. Qed.

Lemma sub_loop_hit r fuel c s rest cs :
  re_match r (c :: s) = Some (rest, cs) →
  (length rest < length (c :: s))%nat →
  sub_loop r (S fuel) (c :: s) = sub_loop r fuel rest.
Proof.
  intros H Hlen. cbn [sub_loop]. rewrite H.
  by replace (length rest <? length (c :: s))%nat with true
    by (symmetry; by apply Nat.ltb_lt).
Qed.

Lemma foldl_sub_no_match patterns s :
  Forall (λ r, ∀ s', s' `suffix_of` s → re_match r s' = None) patterns →
  foldl (λ acc pattern, re_sub_empty pattern acc) s patterns = s.
Proof.
  induction patterns as [|r rs IH]; intros Hrs; [done|].
  apply Forall_cons in Hrs as [Hr Hrs]. cbn [foldl].
  unfold re_sub_empty at 2. rewrite sub_loop_no_match by done.
  by apply IH.
Qed.

Lemma word_absent_in_suffixes w m s :
  m ∈ str w → ascii_isalpha m = false →
  Forall (λ c, (c =? m) = false) s →
  ∀ s', s' `suffix_of` s → re_match (word_ci w) s' = None.
Proof.
  intros Hm Halpha Hs s' [pre ->]. apply Forall_app in Hs as [_ Hs].
  by apply rmatch_word_absent with (m := m).
Qed.

Lemma plain_not_control s :
  Forall (λ c, plain c = true) s → Forall (λ c, is_control c = false) s.
Proof.
  intros Hs. eapply Forall_impl; [exact Hs|]. intros c Hc.
  unfold plain in Hc.
  by apply andb_true_iff in Hc as [?%negb_true_iff _].
Qed.

Lemma sanitize_input_unfold s :
  s ≠ [] →
  sanitize_input (PyStr s)
  = strip (foldl (λ acc pattern, re_sub_empty pattern acc) (scrubbed s)
             dangerous_patterns).
Proof. by destruct s. Qed.

(** The six patterns that need a colon, an angle bracket or an equals
    sign. *)
Lemma early_patterns_absent s :
  Forall (λ c, (c =? 58) = false) s →
  Forall (λ c, (c =? 60) = false) s →
  Forall (λ c, (c =? 61) = false) s →
  Forall (λ r, ∀ s', s' `suffix_of` s → re_match r s' = None)
         (take 6 dangerous_patterns).
Proof.
  intros Hcolon Hangle Hequals.
  change (take 6 dangerous_patterns)
    with [seq_of [word_ci "<script"; Rep (Chr not_newline) 0 None false;
                  word_ci "</script>"];
          word_ci "javascript:"; word_ci "data:"; word_ci "vbscript:";
          word_ci "onload="; word_ci "onerror="].
  repeat apply Forall_cons_2; [| | | | | |done].
  - intros s' [pre ->]. apply Forall_app in Hangle as [_ Hangle].
    unfold re_match. cbn [seq_of foldr rmatch].
    apply rmatch_word_absent with (m := 60); [set_solver|done|done].
  - apply word_absent_in_suffixes with (m := 58); [set_solver|done|done].
  - apply word_absent_in_suffixes with (m := 58); [set_solver|done|done].
  - apply word_absent_in_suffixes with (m := 58); [set_solver|done|done].
  - apply word_absent_in_suffixes with (m := 61); [set_solver|done|done].
  - apply word_absent_in_suffixes with (m := 61); [set_solver|done|done].
Qed.

(** X30. One pass is all the sanitizer makes: removing a pattern can put
    the pieces around it together to the same pattern, which then stays.
    For every text [s] of at most 990 characters without control
    characters, whitespace, [(], [:], [<] and [=], the message
    [eveval(al(] followed by [s] is sanitized to [eval(] followed by
    [s]. *)
Theorem sanitize_input_single_pass s :
  (length s ≤ 990)%nat →
  Forall (λ c, plain c = true) s →
  Forall (λ c, py_isspace c = false) s →
  sanitize_input (PyStr (nested_eval ++ s)) = str "eval(" ++ s.
Proof.
  intros Hlen Hplain Hspace.
  assert (Hlacks : ∀ m, m = 58 ∨ m = 60 ∨ m = 61 →
            Forall (λ c, (c =? m) = false) (nested_eval ++ s)).
  { intros m [->|[->| ->]]; (apply Forall_app; split;
      [by repeat constructor|by apply plain_lacks]). }
  rewrite sanitize_input_unfold by (by unfold nested_eval).
  unfold scrubbed, re_sub_empty at 2.
  rewrite sub_loop_chr_none.
  2:{ apply Forall_app. split; [|by apply plain_not_control].
      unfold nested_eval. cbn [str]. by repeat apply Forall_cons_2. }
  rewrite take_ge
    by (rewrite length_app; unfold nested_eval, MAX_MESSAGE_LENGTH;
        cbn [str length]; lia).
  change dangerous_patterns
    with (take 6 dangerous_patterns ++ [word_ci "eval("; word_ci "exec("]).
  rewrite foldl_app.
  rewrite (foldl_sub_no_match (take 6 dangerous_patterns))
    by (apply early_patterns_absent; apply Hlacks; auto).
  assert (Htail : ∀ w fuel, 40 ∈ str w →
            sub_loop (word_ci w) fuel s = s).
  { intros w fuel Hw. apply sub_loop_no_match.
    apply word_absent_in_suffixes with (m := 40); [done|done|].
    by apply plain_lacks. }
  change (nested_eval ++ s)
    with (101 :: 118 :: 101 :: 118 :: 97 :: 108 :: 40 :: 97 :: 108 :: 40
          :: s).
  cbn [foldl]. unfold re_sub_empty. cbn [length].
  (* the call pattern: two characters kept, the pattern removed, three
     more characters kept *)
  rewrite (sub_loop_skip (word_ci "eval(")) by (vm_compute; reflexivity).
  rewrite (sub_loop_skip (word_ci "eval(")) by (vm_compute; reflexivity).
  rewrite (sub_loop_hit (word_ci "eval(") _ _ _ (97 :: 108 :: 40 :: s) [])
    by (vm_compute; reflexivity || (cbn [length]; lia)).
  rewrite (sub_loop_skip (word_ci "eval(")) by (vm_compute; reflexivity).
  rewrite (sub_loop_skip (word_ci "eval(")) by (vm_compute; reflexivity).
  rewrite (sub_loop_skip (word_ci "eval(")) by (vm_compute; reflexivity).
  rewrite Htail by set_solver.
  cbn [length].
  do 5 rewrite (sub_loop_skip (word_ci "exec(")) by (vm_compute; reflexivity).
  rewrite Htail by set_solver.
  apply strip_unchanged; [done|].
  change (match rev (str "eval(" ++ s) with
          | [] => True
          | c :: _ => py_isspace c = false
          end).
  rewrite rev_app_distr.
  destruct (rev s) as [|c l] eqn:Hrev; [done|]. cbn [app].
  apply Forall_rev in Hspace. rewrite Hrev in Hspace.
  by apply Forall_cons in Hspace as [? _].
Qed.

End Bot.

(** * Worked runs

    The theorems above at concrete inputs, and the runs that show where the
    handlers part from the design document. *)



Lemma general_rate_check_permits_witness :
  check_user_rate_limit Sample.user "general" (Sample.store_with [])
  = (Some true, tick (Sample.store_with [])).
Proof.
  apply (general_rate_check_permits (Sample.store_with []) Sample.user).
  right. eexists. reflexivity.
Defined.


Lemma transaction_rate_limit_witness :
  (∃ st',
     check_user_rate_limit Sample.user "transaction"
       (Sample.store_with Sample.ten_recent) = (Some false, st')
     ∧ files (world st')
       = files (world (Sample.store_with Sample.ten_recent)))
  ∧ (∃ st',
       check_user_rate_limit Sample.user "transaction"
         (Sample.store_with (Sample.stale :: Sample.nine_recent))
       = (Some true, st')
       ∧ load_sessions st'
         = (Some (<[user_key Sample.user :=
                      set_recent_transactions
                        ([] ++ Sample.nine_recent ++ [Sample.ticking 20])
                        (Sample.session_with
                           (Sample.stale :: Sample.nine_recent))]>
                    (Sample.sessions_with
                       (Sample.stale :: Sample.nine_recent))), st')).
Proof.
  split.
  - apply (transaction_rate_limit (Sample.store_with Sample.ten_recent)
             Sample.user (Sample.sessions_with Sample.ten_recent)
             (Sample.session_with Sample.ten_recent) Sample.ten_recent);
      [reflexivity..|].
    repeat constructor.
  - apply (proj2 (transaction_rate_limit
                    (Sample.store_with (Sample.stale :: Sample.nine_recent))
                    Sample.user
                    (Sample.sessions_with (Sample.stale :: Sample.nine_recent))
                    (Sample.session_with (Sample.stale :: Sample.nine_recent))
                    (Sample.stale :: Sample.nine_recent)
                    eq_refl eq_refl eq_refl eq_refl)
             [] Sample.stale Sample.nine_recent eq_refl).
    + vm_compute. discriminate.
    + repeat constructor.
Defined.


Lemma pending_only_in_password_state_witness :
  let st := step Sample.ascii_only
              (Sample.understanding (send_five_to Sample.valid_address))
              Sample.user (PyStr (send_request Sample.valid_address))
              (Sample.store_with []) in
  state (user_data st) = Some "transaction_password"%string
  ∧ (is_Some (pending_txn (user_data st))
     ↔ state (user_data st) = Some "transaction_password"%string).
Proof.
  intros st. split; [vm_compute; reflexivity|].
  apply (pending_only_in_password_state Sample.ascii_only Sample.user).
  apply reachable_message.
  apply (reachable_start Sample.ascii_only Sample.user).
Defined.

Lemma creating_wallet_weak_password_witness :
  let st := Sample.in_state "creating_wallet" in
  (∃ r, is_error r = true
        ∧ handle_conversation_state Sample.ascii_only Sample.accepting
            Sample.user (PyStr (str "abc")) st
          = (Some (), add_reply r st))
  ∧ ((8 ≤ length (sanitize_input Sample.ascii_only
                    (PyStr (str "hunter42x"))))%nat
     ∧ Exists (λ c, ascii_isalpha c = true)
         (sanitize_input Sample.ascii_only (PyStr (str "hunter42x")))
     ∧ Exists (λ c, cat_digit Sample.ascii_only c = true)
         (sanitize_input Sample.ascii_only (PyStr (str "hunter42x")))).
Proof.
  intros st. split.
  - apply (creating_wallet_weak_password Sample.ascii_only Sample.accepting
             Sample.user (PyStr (str "abc")) st);
      [reflexivity|reflexivity|].
    left. vm_compute. lia.
  - apply (creating_wallet_weak_password Sample.ascii_only Sample.accepting
             Sample.user (PyStr (str "hunter42x")) st);
      [reflexivity|reflexivity|].
    vm_compute. constructor.
Defined.

Lemma validation_failure_feedback_witness :
  (∃ r, is_error r = true
        ∧ handle_conversation_state Sample.ascii_only Sample.offline
            Sample.user (PyStr (str "abc"))
            (Sample.in_state "creating_wallet")
          = (Some (), add_reply r (Sample.in_state "creating_wallet")))
  ∧ (is_error InvalidMnemonic = true
     ∧ handle_conversation_state Sample.ascii_only Sample.offline
         Sample.user (PyStr (str "one two three"))
         (Sample.in_state "connecting_wallet")
       = (Some (),
          add_reply InvalidMnemonic (Sample.in_state "connecting_wallet")))
  ∧ (∃ st' r,
       handle_conversation_state Sample.ascii_only Sample.offline
         Sample.user (PyStr (str "nope")) (Sample.confirming "send")
       = (Some (), st')
       ∧ state (user_data st') = state (user_data (Sample.confirming "send"))
       ∧ default 0%Z (failed_attempts (user_data st'))
         = (default 0 (failed_attempts
                         (user_data (Sample.confirming "send"))) + 1)%Z
       ∧ is_error r = true
       ∧ trace st' = trace (Sample.confirming "send")
                     ++ [Called WalletSign;
                         Security "TRANSACTION_SIGN_FAILED"; Replied r]).
Proof.
  split; [|split].
  - apply (validation_failure_feedback Sample.ascii_only Sample.offline
             Sample.user (PyStr (str "abc"))
             (Sample.in_state "creating_wallet"));
      [vm_compute; discriminate|reflexivity|reflexivity|].
    left. vm_compute. lia.
  - apply (validation_failure_feedback Sample.ascii_only Sample.offline
             Sample.user (PyStr (str "one two three"))
             (Sample.in_state "connecting_wallet"));
      [vm_compute; discriminate|reflexivity|reflexivity|].
    vm_compute. discriminate.
  - apply (validation_failure_feedback Sample.ascii_only Sample.offline
             Sample.user (PyStr (str "nope")) (Sample.confirming "send")
             ltac:(vm_compute; discriminate) eq_refl)
      with (txn := UnsignedTxn "unsigned-1");
      reflexivity.
Defined.

Lemma balance_without_session_witness :
  ∃ st',
    handle_message Sample.ascii_only
      (Sample.understanding {| intent := "balance"; parameters := no_params |})
      Sample.user (PyStr check_my_balance) Sample.corrupt_store
    = (Some (), st')
    ∧ trace st' = trace Sample.corrupt_store
                  ++ [Called LanguageUnderstanding;
                      Replied ConnectWalletFirst]
    ∧ user_data st' = user_data Sample.corrupt_store.
Proof.
  apply (balance_without_session Sample.ascii_only
           (Sample.understanding
              {| intent := "balance"; parameters := no_params |})
           Sample.user Sample.corrupt_store
           {| intent := "balance"; parameters := no_params |});
    reflexivity.
Defined.

Lemma send_fallback_resolves_witness :
  (parse_send_command_fallback Sample.ascii_only
     (PyStr (send_request Sample.valid_address))
   = Some (send_five_to Sample.valid_address)
   ∧ resolve_intent Sample.ascii_only Sample.offline
       (send_request Sample.valid_address) Sample.no_store
     = (Some (Some (send_five_to Sample.valid_address)),
        after_resolution Sample.no_store))
  ∧ (parse_send_command_fallback Sample.ascii_only (PyStr send_to_short)
     = None
     ∧ resolve_intent Sample.ascii_only Sample.offline send_to_short
         Sample.no_store
       = (Some None, after_resolution Sample.no_store)).
Proof.
  split.
  - apply (send_fallback_resolves Sample.ascii_only Sample.offline
             Sample.no_store); [vm_compute|]; reflexivity.
  - apply (send_fallback_resolves Sample.ascii_only Sample.offline
             Sample.no_store). reflexivity.
Defined.

(** In the wallet-creation and wallet-connection states a message that
    fails validation is answered and not counted: the failure count is the
    same after it as before. *)
Lemma validation_failure_not_counted :
  let weak := handle_conversation_state Sample.ascii_only Sample.offline
                Sample.user (PyStr (str "abc"))
                (Sample.in_state "creating_wallet") in
  let short := handle_conversation_state Sample.ascii_only Sample.offline
                 Sample.user (PyStr (str "one two three"))
                 (Sample.in_state "connecting_wallet") in
  trace (snd weak) = [Replied PasswordTooShort]
  ∧ state (user_data (snd weak)) = Some "creating_wallet"%string
  ∧ default 0%Z (failed_attempts (user_data (snd weak)))
    ≠ (default 0 (failed_attempts
                    (user_data (Sample.in_state "creating_wallet"))) + 1)%Z
  ∧ trace (snd short) = [Replied InvalidMnemonic]
  ∧ state (user_data (snd short)) = Some "connecting_wallet"%string
  ∧ default 0%Z (failed_attempts (user_data (snd short)))
    ≠ (default 0 (failed_attempts
                    (user_data (Sample.in_state "connecting_wallet"))) + 1)%Z.
Proof. vm_compute. repeat split; discriminate. Qed.

(** "check my balance" from a user without a session: the
    language-understanding collaborator is called in either run, and when it
    is out of reach the reply is that the message was not understood. *)
Lemma balance_reply_goes_through_parser :
  trace (step Sample.ascii_only
           (Sample.understanding
              {| intent := "balance"; parameters := no_params |})
           Sample.user (PyStr check_my_balance) Sample.no_store)
  = [Called LanguageUnderstanding; Replied ConnectWalletFirst]
  ∧ trace (step Sample.ascii_only Sample.offline Sample.user
             (PyStr check_my_balance) Sample.no_store)
    = [Called LanguageUnderstanding; Replied NotUnderstood].
Proof. vm_compute. split; reflexivity. Qed.

Lemma expired_session_deleted_witness :
  ∃ st',
    validate_session Sample.user Sample.idle_for_a_day = (Some false, st')
    ∧ load_sessions st'
      = (Some (delete (user_key Sample.user) (Sample.sessions_with [])), st')
    ∧ stored_session st' Sample.user = None.
Proof.
  apply (expired_session_deleted Sample.idle_for_a_day Sample.user
           (Sample.sessions_with []) (Sample.session_with [])
           (Sample.ticking 0));
    [reflexivity|reflexivity|reflexivity|].
  vm_compute. reflexivity.
Defined.

Lemma conversation_forced_reset_witness :
  handle_conversation_state Sample.ascii_only Sample.offline Sample.user
    (PyStr (str "hunter42x")) Sample.locked_out
  = (Some (),
     add_events [Security "MAX_ATTEMPTS_EXCEEDED";
                 Replied TooManyFailedAttempts]
       user_data_empty Sample.locked_out)
  ∧ handle_conversation_state Sample.ascii_only Sample.offline Sample.user
      (PyStr (str "hello")) (Sample.in_state "nowhere")
    = (Some (),
       add_events [Replied InvalidState] user_data_empty
         (Sample.in_state "nowhere")).
Proof.
  split.
  - apply (conversation_forced_reset Sample.ascii_only Sample.offline
             Sample.user (PyStr (str "hunter42x")) Sample.locked_out).
    + vm_compute. discriminate.
    + vm_compute. discriminate.
  - apply (conversation_forced_reset Sample.ascii_only Sample.offline
             Sample.user (PyStr (str "hello")) (Sample.in_state "nowhere"));
      [vm_compute; discriminate|vm_compute; reflexivity|reflexivity..].
Defined.

Lemma mnemonic_only_in_connecting_password_witness :
  let st1 := step Sample.ascii_only (Sample.resolving "connect_wallet")
               Sample.user (PyStr (str "connect my wallet"))
               Sample.no_store in
  let st2 := step Sample.ascii_only Sample.offline Sample.user
               (PyStr Sample.mnemonic_text) st1 in
  mnemonic (user_data st2) = Some Sample.mnemonic_text
  ∧ (is_Some (mnemonic (user_data st2))
     ↔ state (user_data st2) = Some "connecting_password"%string).
Proof.
  intros st1 st2. split; [vm_compute; reflexivity|].
  apply (mnemonic_only_in_connecting_password Sample.ascii_only Sample.user).
  do 2 apply reachable_message.
  apply (reachable_start Sample.ascii_only Sample.user).
Defined.

Lemma failed_attempts_below_limit_witness :
  let st1 := step Sample.ascii_only
               (Sample.understanding (send_five_to Sample.valid_address))
               Sample.user (PyStr (send_request Sample.valid_address))
               (Sample.store_with []) in
  let st2 := step Sample.ascii_only Sample.offline Sample.user
               (PyStr (str "nope")) st1 in
  failed_attempts (user_data st2) = Some 1%Z
  ∧ (0 ≤ default 0 (failed_attempts (user_data st2))
     < MAX_PASSWORD_ATTEMPTS)%Z
  ∧ (is_Some (failed_attempts (user_data st2)) →
     state (user_data st2) = Some "transaction_password"%string).
Proof.
  intros st1 st2. split; [vm_compute; reflexivity|].
  apply (failed_attempts_below_limit Sample.ascii_only Sample.user).
  do 2 apply reachable_message.
  apply (reachable_start Sample.ascii_only Sample.user).
Defined.

Lemma idle_context_is_empty_witness :
  let st1 := step Sample.ascii_only
               (Sample.understanding (send_five_to Sample.valid_address))
               Sample.user (PyStr (send_request Sample.valid_address))
               (Sample.store_with []) in
  let st2 := step Sample.ascii_only Sample.accepting Sample.user
               (PyStr (str "hunter42x")) st1 in
  state (user_data st2) = None
  ∧ (state (user_data st2) = None → user_data st2 = user_data_empty)
  ∧ (∀ name, state (user_data st2) = Some name →
       name ∈ ["creating_wallet"; "connecting_wallet";
               "connecting_password"; "transaction_password"]%string).
Proof.
  intros st1 st2. split; [vm_compute; reflexivity|].
  apply (idle_context_is_empty Sample.ascii_only Sample.user).
  do 2 apply reachable_message.
  apply (reachable_start Sample.ascii_only Sample.user).
Defined.

Lemma conversation_skips_language_understanding_witness :
  ∃ es,
    trace (step Sample.ascii_only (Sample.resolving "balance") Sample.user
             (PyStr (str "check my balance"))
             (Sample.in_state "creating_wallet"))
    = trace (Sample.in_state "creating_wallet") ++ es
    ∧ Forall (λ e, e ≠ Called LanguageUnderstanding) es.
Proof.
  apply (conversation_skips_language_understanding Sample.ascii_only
           (Sample.resolving "balance") Sample.user
           (PyStr (str "check my balance"))
           (Sample.in_state "creating_wallet")).
  reflexivity.
Defined.

Lemma signing_only_on_password_prompt_witness :
  ∃ es,
    trace (step Sample.ascii_only Sample.accepting Sample.user
             (PyStr (str "hunter42x")) (Sample.in_state "creating_wallet"))
    = trace (Sample.in_state "creating_wallet") ++ es
    ∧ Forall not_signing es.
Proof.
  apply (signing_only_on_password_prompt Sample.ascii_only Sample.accepting
           Sample.user (PyStr (str "hunter42x"))
           (Sample.in_state "creating_wallet")).
  vm_compute. discriminate.
Defined.

Lemma forced_reset_never_replied_witness :
  let st1 := step Sample.ascii_only
               (Sample.understanding (send_five_to Sample.valid_address))
               Sample.user (PyStr (send_request Sample.valid_address))
               (Sample.store_with []) in
  let wrong st := step Sample.ascii_only Sample.offline Sample.user
                    (PyStr (str "nope")) st in
  state (user_data (wrong (wrong (wrong st1)))) = None
  ∧ Forall not_forced_reset (trace (wrong (wrong (wrong st1)))).
Proof.
  intros st1 wrong. split; [vm_compute; reflexivity|].
  apply (forced_reset_never_replied Sample.ascii_only Sample.user).
  do 4 apply reachable_message.
  apply (reachable_start Sample.ascii_only Sample.user).
Defined.

Lemma send_fallback_sound_witness :
  intent (send_five_to Sample.valid_address) = "send_algo"%string
  ∧ ∃ amount recipient,
      parameters (send_five_to Sample.valid_address)
      = {| p_amount := Some amount; p_recipient := Some (PyStr recipient);
           p_name := None; p_supply := None; p_description := None |}
      ∧ length recipient = 58%nat
      ∧ Forall (λ c, is_base32 c = true) recipient
      ∧ amount_out_of_range amount = false.
Proof.
  apply (send_fallback_sound Sample.ascii_only
           (PyStr (send_request Sample.valid_address))).
  vm_compute. reflexivity.
Defined.

Lemma nft_fallback_sound_witness :
  intent Sample.dragon = "create_nft"%string
  ∧ ∃ name,
      parameters Sample.dragon
      = {| p_amount := None; p_recipient := None;
           p_name := Some (PyStr name); p_supply := Some 1%Z;
           p_description := Some (PyStr []) |}
      ∧ name ≠ [] ∧ strip Sample.ascii_only name = name
      ∧ (length name ≤ 50)%nat
      ∧ Forall (λ c, nft_name_char Sample.ascii_only c = true) name
      ∧ Forall (λ c, is_control c = false) name.
Proof.
  apply (nft_fallback_sound Sample.ascii_only (PyStr Sample.nft_request)).
  vm_compute. reflexivity.
Defined.

Lemma fallback_results_pass_validation_witness :
  (∃ es,
     trace (snd (handle_send_transaction Sample.offline
                   Sample.user
                   (parameters (send_five_to Sample.valid_address))
                   (Sample.store_with [])))
     = trace (Sample.store_with []) ++ es
     ∧ Forall not_refusal es)
  ∧ (∃ es,
       trace (snd (handle_nft_creation Sample.ascii_only Sample.offline
                     Sample.user (parameters Sample.dragon)
                     (Sample.store_with [])))
       = trace (Sample.store_with []) ++ es
       ∧ Forall not_refusal es).
Proof.
  split.
  - apply (fallback_results_pass_validation Sample.ascii_only Sample.offline
             Sample.user (PyStr (send_request Sample.valid_address))
             (send_five_to Sample.valid_address) (Sample.store_with [])).
    vm_compute. reflexivity.
  - apply (fallback_results_pass_validation Sample.ascii_only Sample.offline
             Sample.user (PyStr Sample.nft_request) Sample.dragon
             (Sample.store_with [])).
    vm_compute. reflexivity.
Defined.

Lemma ten_transactions_per_hour_witness :
  ∃ st' sess',
    transaction_checks Sample.user 11 (Sample.store_with [])
    = (replicate 10 (Some true) ++ [Some false], st')
    ∧ stored_session st' Sample.user = Some sess'
    ∧ recent_transactions sess' = Some (Sample.ticking <$> seq 20 10).
Proof.
  apply (ten_transactions_per_hour (Sample.store_with []) Sample.user
           (Sample.sessions_with []) (Sample.session_with []));
    [reflexivity|reflexivity|reflexivity|].
  intros i j Hij Hj. cbn in *.
  unfold within_hour, Sample.ticking, hours, microseconds_per_second. lia.
Defined.

Lemma refused_send_is_counted_witness :
  ∃ st' reply sess' now,
    handle_send_transaction Sample.offline Sample.user Sample.to_nobody
      (Sample.store_with [])
    = (Some (), st')
    ∧ trace st' = trace (Sample.store_with []) ++ [Replied reply]
    ∧ reply ∈ [MissingTransactionDetails; InvalidRecipientFormat;
               InvalidAmount]
    ∧ user_data st' = user_data (Sample.store_with [])
    ∧ stored_session st' Sample.user = Some sess'
    ∧ recent_transactions sess'
      = Some (List.filter (λ t, (now - hours 1 <? t)%Z)
                (recent_of (Sample.session_with [])) ++ [now])
    ∧ ∃ i, (reads (world (Sample.store_with [])) < i)%nat
           ∧ now = clock (world (Sample.store_with [])) i.
Proof.
  apply (refused_send_is_counted Sample.offline Sample.user Sample.to_nobody
           (Sample.store_with []) (Sample.sessions_with [])
           (Sample.session_with []));
    [reflexivity|reflexivity| |vm_compute; lia|left; reflexivity].
  intros stamp [= <-]. vm_compute. discriminate.
Defined.

Lemma wallet_creation_outcome_witness :
  ∃ st',
    handle_wallet_creation_password Sample.ascii_only Sample.accepting
      Sample.user (str "hunter42x") Sample.no_store
    = (Some (), st')
    ∧ user_data st' = user_data_empty
    ∧ match create_wallet Sample.accepting (str "hunter42x") with
      | Some wd =>
          trace st'
          = trace Sample.no_store
            ++ [Called WalletCreate; Security "WALLET_CREATED";
                Replied (WalletCreated (wd_address wd) (wd_mnemonic wd))]
          ∧ (∃ created active,
               stored_session st' Sample.user
               = Some (created_session wd created active))
          ∧ ∀ other, other ≠ Sample.user →
              stored_session st' other
              = stored_session Sample.no_store other
      | None =>
          trace st'
          = trace Sample.no_store
            ++ [Called WalletCreate; Security "WALLET_CREATION_FAILED";
                Replied WalletCreationFailed]
          ∧ world st' = world Sample.no_store
      end.
Proof.
  apply (wallet_creation_outcome Sample.ascii_only Sample.accepting
           Sample.user (str "hunter42x") Sample.no_store).
  split; [vm_compute; lia|]. split.
  - apply Exists_cons_hd. reflexivity.
  - do 6 apply Exists_cons_tl. apply Exists_cons_hd. reflexivity.
Defined.


Lemma connect_in_three_messages_witness :
  let st1 := step Sample.ascii_only (Sample.resolving "connect_wallet")
               Sample.user (PyStr (str "connect my wallet"))
               Sample.no_store in
  let st2 := step Sample.ascii_only Sample.offline Sample.user
               (PyStr Sample.mnemonic_text) st1 in
  let st3 := step Sample.ascii_only Sample.connecting Sample.user
               (PyStr (str "hunter42x")) st2 in
  state (user_data st1) = Some "connecting_wallet"%string
  ∧ state (user_data st2) = Some "connecting_password"%string
  ∧ user_data st3 = user_data_empty
  ∧ trace st3
    = trace Sample.no_store
      ++ [Called LanguageUnderstanding;
          Security "WALLET_CONNECTION_INITIATED";
          Replied ConnectingWalletPrompt;
          Replied SetPasswordPrompt;
          Called WalletConnect; Security "WALLET_CONNECTED";
          Replied (WalletConnected "ADDR")]
  ∧ ∃ connected active,
      stored_session st3 Sample.user
      = Some (connected_session
                {| wd_address := "ADDR"; wd_encrypted_mnemonic := "enc";
                   wd_mnemonic := "words" |} connected active).
Proof.
  apply (connect_in_three_messages Sample.ascii_only
           (Sample.resolving "connect_wallet") Sample.offline
           Sample.connecting Sample.user
           (PyStr (str "connect my wallet")) (PyStr Sample.mnemonic_text)
           (PyStr (str "hunter42x")) Sample.no_store
           {| intent := "connect_wallet"; parameters := no_params |}
           {| wd_address := "ADDR"; wd_encrypted_mnemonic := "enc";
              wd_mnemonic := "words" |}).
  - reflexivity.
  - vm_compute. discriminate.
  - reflexivity.
  - reflexivity.
  - vm_compute. reflexivity.
  - vm_compute. discriminate.
  - reflexivity.
Defined.


Lemma balance_check_outcome_witness :
  ∃ st' t,
    handle_balance_check Sample.accepting Sample.user (Sample.store_with [])
    = (Some (), st')
    ∧ user_data st' = user_data (Sample.store_with [])
    ∧ stored_session st' Sample.user
      = Some (set_last_activity t (Sample.session_with []))
    ∧ trace st'
      = trace (Sample.store_with [])
        ++ [Called LedgerClient; Called LedgerAccountInfo]
        ++ match account_info Sample.accepting
                   (address (Sample.session_with [])) with
           | Some amount =>
               [Security "BALANCE_CHECKED"; Replied (WalletBalance amount)]
           | None => [Replied BalanceCheckFailed]
           end.
Proof.
  apply (balance_check_outcome Sample.accepting Sample.user
           (Sample.store_with []) (Sample.sessions_with [])
           (Sample.session_with []));
    [reflexivity|reflexivity| |reflexivity].
  intros stamp [= <-]. vm_compute. discriminate.
Defined.

Lemma extract_json_between_braces_witness :
  AIIntentParser._extract_json Sample.chatty
    (PyStr (str "Sure: " ++ 123 :: str "intent balance"
            ++ 125 :: str " done"))
  = default AIIntentParser.unknown
      (json_decode Sample.chatty (123 :: str "intent balance" ++ [125])).
Proof.
  apply (extract_json_between_braces Sample.chatty (str "Sure: ")
           (str "intent balance") (str " done"));
    apply (bool_decide_unpack _); vm_compute; exact I.
Defined.

Lemma client_failures_fall_back_witness :
  resolve_intent Sample.ascii_only
    (with_client Sample.no_key Sample.offline)
    (send_request Sample.valid_address) Sample.no_store
  = (Some (fallback_intent Sample.ascii_only
             (send_request Sample.valid_address)),
     after_resolution Sample.no_store).
Proof.
  apply (client_failures_fall_back Sample.ascii_only Sample.no_key
           Sample.offline (send_request Sample.valid_address)
           Sample.no_store).
  left. reflexivity.
Defined.

Lemma sanitize_input_keeps_harmless_text_witness :
  sanitize_input Sample.ascii_only (PyStr (str "hello world"))
  = str "hello world"
  ∧ strip Sample.ascii_only
      (sanitize_input Sample.ascii_only (PyStr (str "hello world")))
    = str "hello world".
Proof.
  apply (sanitize_input_keeps_harmless_text Sample.ascii_only
           (str "hello world")).
  - vm_compute. discriminate.
  - vm_compute. lia.
  - repeat (constructor; [vm_compute; reflexivity|]). constructor.
  - vm_compute. reflexivity.
Defined.

Lemma sanitize_input_single_pass_witness :
  sanitize_input Sample.ascii_only (PyStr (nested_eval ++ str "x"))
  = str "eval(" ++ str "x".
Proof.
  apply (sanitize_input_single_pass Sample.ascii_only (str "x")).
  - vm_compute. lia.
  - repeat (constructor; [vm_compute; reflexivity|]). constructor.
  - repeat (constructor; [vm_compute; reflexivity|]). constructor.
Defined.

Lemma every_message_answered_once_witness :
  ∃ st' es r,
    handle_message Sample.ascii_only Sample.offline Sample.user
      (PyStr (str "hello")) Sample.no_store
    = (Some (), st')
    ∧ trace st' = trace Sample.no_store ++ es
    ∧ replies es = [r]
    ∧ store_readable st'.
Proof.
  apply (every_message_answered_once Sample.ascii_only Sample.offline
           Sample.user (PyStr (str "hello")) Sample.no_store).
  left. reflexivity.
Defined.
